(** * serverless-connect-voicemail: the voicemail pipeline, embedded and verified

    The development follows the JavaScript sources:
    - [aws/sns.js], [aws/cwl.js], [aws/s3.js]: thin wrappers over the AWS SDK;
    - [aws/transcribe.js]: [startJob], [awaitJob] and their helpers;
    - [agent.js]: [sendLoginEvent], [loginAsync] and, in [Module Browser],
      the login in the headless browser: [login], [run], [getAgentStatus],
      [fillAndSubmitLoginForm], [makeAgentAvailable];
    - the voicemail handler: [process] and its helpers.

    Conventions of the embedding.
    - A JavaScript string is a sequence of UTF-16 code units; here it is a
      [string], that is, a sequence of code units below 256.
    - A JavaScript number is a [Z] where the code only handles integers
      (timestamps, day counts: integers that a binary64 number holds exactly
      and prints digit by digit) and a [Q] for the polling delays, which are
      produced by a division.  The quotient in [Q] is exact; the code rounds
      it to binary64.  The two agree for the budget of the handler, 240 s,
      where the delay is 30000 ms; for a budget whose quotient is not a
      binary64 number, [waitBetweenRetries] in a trace stands for the rounded
      delay, and no sum of such delays is compared with the budget.
    - Objects used as maps are [gmap string value].
    - Effects are explicit: a computation threads the list of calls it made
      to its collaborators and ends in a value or in a thrown exception.
    - [console.log] of progress messages is not recorded; the [console.log]
      and [console.error] of caught exceptions are. *)

From Stdlib Require Import ZArith QArith Lqa Ascii String DecimalString.
From stdpp Require Import gmap strings list.

(** ** JavaScript values and exceptions *)

#[warnings="-register-all"]
Inductive value : Type :=
| VUndefined
| VNull
| VBool (b : bool)
| VNum (n : Z)
| VStr (s : string)
| VObj (fields : list (string * value)).

(** An exception object: [name] and [message] of an [Error]. *)
Record exn : Type := Exn { exn_name : string; exn_message : string }.

Definition Error (msg : string) : exn := Exn "Error" msg.
Definition TypeError (msg : string) : exn := Exn "TypeError" msg.

Inductive outcome (A : Type) : Type :=
| Ok (a : A)
| Throw (e : exn).
Arguments Ok {A} a.
Arguments Throw {A} e.

(** ToBoolean. *)
Definition truthy (v : value) : bool :=
  match v with
  | VUndefined | VNull => false
  | VBool b => b
  | VNum n => negb (n =? 0)%Z
  | VStr s => negb (String.eqb s "")
  | VObj _ => true
  end.

Definition number_toString (n : Z) : string :=
  NilZero.string_of_int (Z.to_int n).

(** ToString, as performed by template literals and by [+] on strings. *)
Definition toString (v : value) : string :=
  match v with
  | VUndefined => "undefined"
  | VNull => "null"
  | VBool true => "true"
  | VBool false => "false"
  | VNum n => number_toString n
  | VStr s => s
  | VObj _ => "[object Object]"
  end.

(** Error.prototype.toString. *)
Definition exn_toString (e : exn) : string :=
  if String.eqb (exn_message e) "" then exn_name e
  else if String.eqb (exn_name e) "" then exn_message e
  else exn_name e +:+ ": " +:+ exn_message e.

(** [v === s] for a string [s]. *)
Definition is_string (v : value) (s : string) : bool :=
  match v with
  | VStr s' => String.eqb s' s
  | _ => false
  end.

Fixpoint assoc {A : Type} (k : string) (l : list (string * A)) : option A :=
  match l with
  | [] => None
  | (k', a) :: l' => if String.eqb k' k then Some a else assoc k l'
  end.

(** [v.k] for a property [k] that is not built in. *)
Definition get_prop (v : value) (k : string) : outcome value :=
  match v with
  | VUndefined =>
      Throw (TypeError ("Cannot read property '" +:+ k +:+ "' of undefined"))
  | VNull =>
      Throw (TypeError ("Cannot read property '" +:+ k +:+ "' of null"))
  | VObj fields =>
      Ok (default VUndefined (assoc k fields))
  | _ => Ok VUndefined
  end.

(** ** Regular expressions

    The matcher is the backtracking matcher of the ECMAScript specification,
    in continuation-passing style: a matcher takes a state and a continuation
    and returns the final state of the first successful path, if any. *)

Module RegExp.

Inductive regex : Type :=
| Eps
| Sym (p : ascii -> bool)
| Cat (r1 r2 : regex)
| Alt (r1 r2 : regex)
| Rep (greedy : bool) (lo : nat) (hi : option nat) (r : regex)
| Grp (i : nat) (r : regex)
| Bol
| Eol.

Record mstate : Type := MState {
  m_pos : nat;
  m_rest : list ascii;
  m_caps : list (nat * string)
}.

Definition continuation : Type := mstate -> option mstate.
Definition matcher_t : Type := mstate -> continuation -> option mstate.

Fixpoint groups (r : regex) : list nat :=
  match r with
  | Eps | Sym _ | Bol | Eol => []
  | Cat r1 r2 | Alt r1 r2 => groups r1 ++ groups r2
  | Rep _ _ _ r' => groups r'
  | Grp i r' => i :: groups r'
  end.

Definition del_cap (i : nat) (caps : list (nat * string)) : list (nat * string) :=
  filter (fun kv => fst kv <> i) caps.

Definition clear_caps (gs : list nat) (x : mstate) : mstate :=
  match gs with
  | [] => x
  | _ => MState (m_pos x) (m_rest x) (foldr del_cap (m_caps x) gs)
  end.

Definition set_cap (i : nat) (s : list ascii) (y : mstate) : mstate :=
  MState (m_pos y) (m_rest y)
         ((i, string_of_list_ascii s) :: del_cap i (m_caps y)).

(** RepeatMatcher(m, min, max, greedy, x, c).  An iteration of a [min = 0]
    repetition that consumes nothing fails, so [fuel] above
    [lo + length (m_rest x)] is never exhausted. *)
Fixpoint repeat_matcher (m : matcher_t) (gs : list nat) (greedy : bool)
    (fuel lo : nat) (hi : option nat) (x : mstate) (c : continuation)
    {struct fuel} : option mstate :=
  match fuel with
  | 0 => None
  | S fuel' =>
      match hi with
      | Some 0 => c x
      | _ =>
          let d : continuation := fun y =>
            if (lo =? 0) && (m_pos y =? m_pos x) then None
            else repeat_matcher m gs greedy fuel' (pred lo) (pred <$> hi) y c in
          let xr := clear_caps gs x in
          if negb (lo =? 0) then m xr d
          else if greedy then
            match m xr d with Some z => Some z | None => c x end
          else
            match c x with Some z => Some z | None => m xr d end
      end
  end.

Fixpoint matcher (r : regex) (x : mstate) (c : continuation) {struct r}
    : option mstate :=
  match r with
  | Eps => c x
  | Sym p =>
      match m_rest x with
      | ch :: rest =>
          if p ch then c (MState (S (m_pos x)) rest (m_caps x)) else None
      | [] => None
      end
  | Cat r1 r2 => matcher r1 x (fun y => matcher r2 y c)
  | Alt r1 r2 =>
      match matcher r1 x c with Some z => Some z | None => matcher r2 x c end
  | Rep greedy lo hi r' =>
      repeat_matcher (matcher r') (groups r') greedy
                     (S (lo + length (m_rest x))) lo hi x c
  | Grp i r' =>
      matcher r' x
        (fun y => c (set_cap i (take (m_pos y - m_pos x) (m_rest x)) y))
  | Bol => if m_pos x =? 0 then c x else None
  | Eol => match m_rest x with [] => c x | _ => None end
  end.

(** The result of a successful match: where it starts, the final state. *)
Record match_result : Type := MatchResult {
  mr_index : nat;
  mr_end : mstate
}.

(** The search of [RegExp.prototype.exec] without the [g] flag: the first
    start position, from the left, at which the pattern matches. *)
Fixpoint exec_from (r : regex) (pos : nat) (rest : list ascii)
    : option match_result :=
  match matcher r (MState pos rest []) Some with
  | Some y => Some (MatchResult pos y)
  | None =>
      match rest with
      | _ :: rest' => exec_from r (S pos) rest'
      | [] => None
      end
  end.

Definition exec (r : regex) (s : string) : option match_result :=
  exec_from r 0 (list_ascii_of_string s).

(** [match[i]] for [i >= 1]: the capture, [undefined] when the group did not
    take part in the match. *)
Definition capture (m : match_result) (i : nat) : value :=
  match filter (fun kv => fst kv = i) (m_caps (mr_end m)) with
  | (_, s) :: _ => VStr s
  | [] => VUndefined
  end.

(** [String.prototype.replace] with a [g] pattern and a replacement text
    without [$]: scan left to right, replace every match, step over one code
    unit after an empty match. *)
Fixpoint replace_loop (r : regex) (by_ : list ascii) (fuel pos : nat)
    (rest : list ascii) {struct fuel} : list ascii :=
  match fuel with
  | 0 => rest
  | S fuel' =>
      match matcher r (MState pos rest []) Some with
      | Some y =>
          if m_pos y =? pos then
            match rest with
            | ch :: rest' => by_ ++ ch :: replace_loop r by_ fuel' (S pos) rest'
            | [] => by_
            end
          else by_ ++ replace_loop r by_ fuel' (m_pos y) (m_rest y)
      | None =>
          match rest with
          | ch :: rest' => ch :: replace_loop r by_ fuel' (S pos) rest'
          | [] => []
          end
      end
  end.

Definition replace_all (r : regex) (by_ : string) (s : string) : string :=
  let l := list_ascii_of_string s in
  string_of_list_ascii
    (replace_loop r (list_ascii_of_string by_) (S (length l)) 0 l).

(** *** Pattern syntax *)

Definition chr (a : ascii) : regex := Sym (Ascii.eqb a).
Definition range (a b : ascii) (ch : ascii) : bool :=
  Ascii.leb a ch && Ascii.leb ch b.
Definition one_of (ps : list (ascii -> bool)) (ch : ascii) : bool :=
  existsb (fun p => p ch) ps.
Definition none_of (ps : list (ascii -> bool)) (ch : ascii) : bool :=
  negb (one_of ps ch).

(** [\d] *)
Definition digit : ascii -> bool := range "0" "9".
(** [.] without the [s] flag: anything but a line terminator. *)
Definition dot : ascii -> bool :=
  none_of [Ascii.eqb "010"; Ascii.eqb "013"].

Definition star (r : regex) : regex := Rep true 0 None r.
Definition plus (r : regex) : regex := Rep true 1 None r.
Definition lazy_plus (r : regex) : regex := Rep false 1 None r.
Definition opt (r : regex) : regex := Rep true 0 (Some 1) r.
Definition times (n : nat) (r : regex) : regex := Rep true n (Some n) r.

Fixpoint cat (rs : list regex) : regex :=
  match rs with
  | [] => Eps
  | [r] => r
  | r :: rs' => Cat r (cat rs')
  end.

End RegExp.

Import RegExp.

(** The double quote and the line feed, for the template literals below. *)
Definition dquote : string := String "034" EmptyString.
Definition newline : string := String "010" EmptyString.

(** ** aws/transcribe.js: pure helpers *)

Definition INITIAL_WAIT_MS : Q := 60000.
Definition TRANSCRIBE_PENDING : string := "IN_PROGRESS".
Definition TRANSCRIBE_COMPLETED : string := "COMPLETED".
Definition TRANSCRIBE_FAILED : string := "FAILED".

(** [/[^0-9a-zA-Z._-]/g] *)
Definition re_not_job_name_char : regex :=
  Sym (none_of [range "0" "9"; range "a" "z"; range "A" "Z";
                Ascii.eqb "."; Ascii.eqb "_"; Ascii.eqb "-"]).

Definition _normalisedJobName (jobName : string) : string :=
  replace_all re_not_job_name_char "_" jobName.

(** [/(.*[\\\/])?(.+?)\.([^.]*$|$)/] *)
Definition re_file_parts : regex :=
  cat [opt (Grp 1 (cat [star (Sym dot);
                        Sym (one_of [Ascii.eqb "\"; Ascii.eqb "/"])]));
       Grp 2 (lazy_plus (Sym dot));
       chr ".";
       Grp 3 (Alt (cat [star (Sym (none_of [Ascii.eqb "."])); Eol]) Eol)].

Record file_parts : Type := FileParts {
  fp_path : value;
  fp_extension : value;
  fp_filename : value
}.

Definition _getFileParts (fileUri : string) : file_parts :=
  match exec re_file_parts fileUri with
  | Some m => FileParts (capture m 1) (capture m 3) (capture m 2)
  | None => FileParts VNull VNull VNull
  end.

(** ** The voicemail handler: pure helpers *)

(** [/\+61(\d+)/] *)
Definition re_plus61 : regex :=
  cat [chr "+"; chr "6"; chr "1"; Grp 1 (plus (Sym digit))].

(** [/^(04\d{2})(\d{3})(\d{3})$/] *)
Definition re_mobile : regex :=
  cat [Bol;
       Grp 1 (cat [chr "0"; chr "4"; times 2 (Sym digit)]);
       Grp 2 (times 3 (Sym digit));
       Grp 3 (times 3 (Sym digit));
       Eol].

(** [/^(\d{2})(\d{4})(\d{4})$/] *)
Definition re_national : regex :=
  cat [Bol;
       Grp 1 (times 2 (Sym digit));
       Grp 2 (times 4 (Sym digit));
       Grp 3 (times 4 (Sym digit));
       Eol].

Definition formatPhoneNumber (phoneNumber : string) : string :=
  let formattedNumber := phoneNumber in
  (* Replace +61 with 0 *)
  let formattedNumber :=
    match exec re_plus61 phoneNumber with
    | Some m => "0" +:+ toString (capture m 1)
    | None => formattedNumber
    end in
  (* split mobile number, else split national number *)
  let m :=
    match exec re_mobile formattedNumber with
    | Some m => Some m
    | None => exec re_national formattedNumber
    end in
  match m with
  | Some m =>
      toString (capture m 1) +:+ " " +:+ toString (capture m 2) +:+ " "
        +:+ toString (capture m 3)
  | None => formattedNumber
  end.

(** [/.*\/([a-zA-Z0-9-]+)_.*/] *)
Definition contact_id_char : ascii -> bool :=
  one_of [range "a" "z"; range "A" "Z"; range "0" "9"; Ascii.eqb "-"].

Definition re_contact_id : regex :=
  cat [star (Sym dot); chr "/"; Grp 1 (plus (Sym contact_id_char));
       chr "_"; star (Sym dot)].

Definition contactIdFromObjectKey (objectKey : string) : outcome string :=
  let contactId :=
    match exec re_contact_id objectKey with
    | Some m => capture m 1
    | None => VUndefined
    end in
  match contactId with
  | VStr s => Ok s
  | _ => Throw (TypeError "Unexpected objectKey format")
  end.

(** [/\+/g] *)
Definition re_plus_sign : regex := chr "+".

Definition notificationSubject (purpose callingNumber : value) : string :=
  let purposeString :=
    if truthy purpose then " " +:+ toString purpose else "" in
  "[" +:+ purposeString +:+ "] Voice-mail from " +:+ toString callingNumber.

(** ** Collaborators and effects *)

(** What the code asks of the outside world, in the order it asks. *)
Inductive call : Type :=
| SnsPublish (topicArn : string) (subject : value) (message : string)
| CwlFilterLogEvents (logGroupName filterPattern : string) (startTime : Z)
| TranscribeStartJob (languageCode : string) (mediaFileUri mediaFormat : value)
                     (jobName : string)
| TranscribeGetJob (jobName : string)
| AxiosGet (url : value)
| S3GetSignedUrl (operation : string) (bucket key : value) (expires : Z)
| Wait (ms : Q)
| ConsoleLog (e : exn)
| ConsoleError (e : exn).

(** The [TranscriptionJob] member of a Transcribe response. *)
Record transcription_job : Type := TranscriptionJob {
  TranscriptionJobName : string;
  TranscriptionJobStatus : string;
  FailureReason : value;
  Transcript : value
}.

(** Everything the handler reads from its surroundings.  A collaborator
    answers a request knowing the calls made before it. *)
Record env : Type := Env {
  (* process.env *)
  CONNECT_LOG_GROUP : string;
  NOTIFICATION_TOPIC : string;
  AGENT_LOGIN_TOPIC : string;
  NOTIFICATION_TIMEZONE : string;
  LINK_EXPIRY_IN_DAYS : Z;
  (* built-in functions *)
  decodeURIComponent : string -> outcome string;
  JSON_parse : string -> outcome value;
  JSON_stringify : value -> string;
  (* luxon *)
  DateTime_local_toMillis : list call -> Z;
  DateTime_local_minus_days_toMillis : list call -> Z -> Z;
  DateTime_fromISO_format : string -> value -> string;
  DateTime_local_plus_days_format : list call -> string -> Z -> string;
  (* AWS SDK clients and axios *)
  SNS_publish : list call -> string -> value -> string -> outcome value;
  CWL_filterLogEvents :
    list call -> string -> string -> Z -> outcome (list string);
  Transcribe_startTranscriptionJob :
    list call -> string -> value -> value -> string -> outcome transcription_job;
  Transcribe_getTranscriptionJob : list call -> string -> outcome transcription_job;
  axios_get_transcripts : list call -> value -> outcome (list value);
  S3_getSignedUrl : list call -> string -> value -> value -> Z -> outcome value
}.

(** A computation: from the calls made so far to a result and the calls
    made by its end. *)
Definition M (A : Type) : Type := list call -> outcome A * list call.

Definition ret {A : Type} (a : A) : M A := fun t => (Ok a, t).
Definition throw {A : Type} (e : exn) : M A := fun t => (Throw e, t).
Definition lift {A : Type} (o : outcome A) : M A := fun t => (o, t).

Definition bind {A B : Type} (m : M A) (f : A -> M B) : M B :=
  fun t =>
    match m t with
    | (Ok a, t') => f a t'
    | (Throw e, t') => (Throw e, t')
    end.

Definition try_catch {A : Type} (m : M A) (handler : exn -> M A) : M A :=
  fun t =>
    match m t with
    | (Ok a, t') => (Ok a, t')
    | (Throw e, t') => handler e t'
    end.

Definition emit (c : call) : M unit := fun t => (Ok tt, t ++ [c]).
Definition history : M (list call) := fun t => (Ok t, t).

(** Send request [c]; the collaborator answers from the calls before it. *)
Definition request {A : Type} (c : call) (answer : list call -> outcome A)
    : M A :=
  fun t => (answer t, t ++ [c]).

(** An [async] function called without [await]: its body runs up to its end
    (the requests it sends are sent), and the caller gets a promise, settled
    with the outcome of the body, instead of the outcome itself.  Nothing is
    thrown to the caller. *)
Definition promise (A : Type) : Type := outcome A.
Definition spawn {A : Type} (m : M A) : M (promise A) :=
  fun t => let (r, t') := m t in (Ok r, t').
(** [await p]; so [await f(x)] is [f x] itself. *)
Definition await {A : Type} (p : promise A) : M A := lift p.

Notation "'do' x <- m ; k" := (bind m (fun x => k))
  (at level 10, x name, m at level 100, k at level 200).
Notation "'do_' m ; k" := (bind m (fun _ => k))
  (at level 10, m at level 100, k at level 200).

(** Own properties of a plain object. *)
Definition field (o : gmap string value) (k : string) : value :=
  default VUndefined (o !! k).

Record s3_event_record : Type := S3EventRecord {
  s3_bucket_name : string;
  eventTime : value;
  s3_object_key : string
}.

Section Handler.

Variable E : env.

(** *** aws/sns.js *)

Definition sns_publish (topicArn : string) (message : string) (subject : value)
    : M value :=
  if negb (truthy (VStr message)) then
    throw (TypeError "Need a non-empty message")
  else
    request (SnsPublish topicArn subject message)
            (fun h => SNS_publish E h topicArn subject message).

(** *** agent.js *)

Definition sendLoginEvent (params : value) : M value :=
  sns_publish (AGENT_LOGIN_TOPIC E) (JSON_stringify E params) VUndefined.

(** *** aws/cwl.js *)

Definition cwl_filterLogEvents (logGroupName filterPattern : string)
    (startTime : Z) : M (list string) :=
  request (CwlFilterLogEvents logGroupName filterPattern startTime)
          (fun h => CWL_filterLogEvents E h logGroupName filterPattern startTime).

(** *** aws/s3.js *)

(** The callback writes an error to [console.error] before it rejects. *)
Definition s3_getSignedUrl (operation : string) (bucketName objectKey : value)
    (expirySeconds : Z) : M value :=
  try_catch
    (request (S3GetSignedUrl operation bucketName objectKey expirySeconds)
             (fun h => S3_getSignedUrl E h operation bucketName objectKey
                                       expirySeconds))
    (fun err => do_ emit (ConsoleError err); throw err).

(** *** aws/transcribe.js *)

Definition _wait (ms : Q) : M unit := emit (Wait ms).

Definition startJob (mediaFileUri mediaFormat : value) : M transcription_job :=
  do parts <-
    match mediaFileUri with
    | VStr uri => ret (_getFileParts uri)
    | VUndefined =>
        throw (TypeError "Cannot read property 'match' of undefined")
    | VNull => throw (TypeError "Cannot read property 'match' of null")
    | _ => throw (TypeError "fileUri.match is not a function")
    end;
  let mediaFormat :=
    if negb (truthy mediaFormat) then
      (if truthy (fp_extension parts) then fp_extension parts else VStr "wav")
    else mediaFormat in
  do h <- history;
  let timestamp := DateTime_local_toMillis E h in
  let jobName :=
    _normalisedJobName
      (toString (fp_filename parts) +:+ "_" +:+ number_toString timestamp) in
  request (TranscribeStartJob "en-US" mediaFileUri mediaFormat jobName)
          (fun h => Transcribe_startTranscriptionJob E h "en-US" mediaFileUri
                      mediaFormat jobName).

Definition getTranscriptionJob (jobName : string) : M transcription_job :=
  request (TranscribeGetJob jobName)
          (fun h => Transcribe_getTranscriptionJob E h jobName).

(** The [while (triesLeft > 0)] loop; [job] is the variable of that name,
    [None] for its initial [null]. *)
Fixpoint poll (jobName : string) (waitBetweenRetries : Q) (triesLeft : nat)
    (job : option transcription_job) {struct triesLeft} : M (option transcription_job) :=
  match triesLeft with
  | 0 => ret job
  | S triesLeft =>
      do j <- getTranscriptionJob jobName;
      if negb (String.eqb TRANSCRIBE_PENDING (TranscriptionJobStatus j)) then
        ret (Some j)
      else
        do_ _wait waitBetweenRetries;
        poll jobName waitBetweenRetries triesLeft (Some j)
  end.

Definition TRIES : nat := 6.

Definition waitBetweenRetries (waitSeconds : Q) : Q :=
  (waitSeconds * 1000 - INITIAL_WAIT_MS) / inject_Z (Z.of_nat TRIES).

(** What follows the loop. *)
Definition transcriptOf (job : option transcription_job) : M value :=
  match job with
  | None =>
      throw (TypeError
               "Cannot read property 'TranscriptionJobStatus' of null")
  | Some job =>
      if String.eqb TRANSCRIBE_COMPLETED (TranscriptionJobStatus job) then
        do transcriptUrl <- lift (get_prop (Transcript job) "TranscriptFileUri");
        do transcripts <-
          request (AxiosGet transcriptUrl)
                  (fun h => axios_get_transcripts E h transcriptUrl);
        match transcripts with
        | first :: _ => lift (get_prop first "transcript")
        | [] => ret VUndefined
        end
      else if String.eqb TRANSCRIBE_FAILED (TranscriptionJobStatus job) then
        throw (Error ("Transcription failure: " +:+ toString (FailureReason job)))
      else ret VUndefined
  end.

Definition awaitJob (jobName : string) (waitSeconds : Q) : M value :=
  do_ _wait INITIAL_WAIT_MS;
  do job <- poll jobName (waitBetweenRetries waitSeconds) TRIES None;
  transcriptOf job.

(** *** The voicemail handler *)

Definition TRANSCRIBE_WAIT_SECONDS : Q := 240.
Definition VOICEMAIL_PROCESSED_EVENT : string := "VOICEMAIL_PROCESSED".
Definition SEARCH_PERIOD_IN_DAYS : Z := 1.
Definition LINK_EXPIRY_IN_SECONDS : Z := LINK_EXPIRY_IN_DAYS E * 86400.

Definition getS3ObjectInfo (eventRecord : option s3_event_record)
    : M (gmap string value) :=
  match eventRecord with
  | None => throw (TypeError "Cannot read property 's3' of undefined")
  | Some eventRecord =>
      let bucketName := s3_bucket_name eventRecord in
      let creationDate := eventTime eventRecord in
      let urlEncodedObjectKey :=
        replace_all re_plus_sign " " (s3_object_key eventRecord) in
      do objectKey <- lift (decodeURIComponent E urlEncodedObjectKey);
      ret ({[ "bucketName" := VStr bucketName;
              "creationDate" := creationDate;
              "objectKey" := VStr objectKey;
              "objectUrl" :=
                VStr ("https://" +:+ bucketName +:+ ".s3.amazonaws.com/"
                        +:+ objectKey);
              "consoleUrl" :=
                VStr ("https://s3.console.aws.amazon.com/s3/object/"
                        +:+ bucketName +:+ "/" +:+ objectKey) ]}
           : gmap string value)
  end.

Definition formatAttribute (key value_ : value) : M value :=
  if is_string key "callingNumber" then
    match value_ with
    | VStr phoneNumber => ret (VStr (formatPhoneNumber phoneNumber))
    | VUndefined =>
        throw (TypeError "Cannot read property 'match' of undefined")
    | VNull => throw (TypeError "Cannot read property 'match' of null")
    | _ => throw (TypeError "phoneNumber.match is not a function")
    end
  else ret value_.

(** [const {Key, Value} = source], for the source [message.Parameters]. *)
Definition destructure_Key_Value (source : value) : M (value * value) :=
  match source with
  | VUndefined =>
      throw (TypeError ("Cannot destructure property 'Key' of "
                          +:+ "'message.Parameters' as it is undefined."))
  | VNull =>
      throw (TypeError ("Cannot destructure property 'Key' of "
                          +:+ "'message.Parameters' as it is null."))
  | _ =>
      do Key <- lift (get_prop source "Key");
      do Value <- lift (get_prop source "Value");
      ret (Key, Value)
  end.

(** [attributes[key] = value_] on a plain object: the key [__proto__] is the
    accessor of [Object.prototype], and no own property is created for it. *)
Definition set_property (attributes : gmap string value) (key : string)
    (value_ : value) : gmap string value :=
  if String.eqb key "__proto__" then attributes
  else <[key := value_]> attributes.

(** The body of [for (let event of events)], on [event.message]. *)
Definition parseCallAttribute (message : string)
    (attributes : gmap string value) : M (gmap string value) :=
  do message <- lift (JSON_parse E message);
  do parameters <- lift (get_prop message "Parameters");
  do KeyValue <- destructure_Key_Value parameters;
  let (Key, Value) := KeyValue in
  do formatted <- formatAttribute Key Value;
  ret (set_property attributes (toString Key) formatted).

Fixpoint parseCallAttributes_from (events : list string)
    (attributes : gmap string value) : M (gmap string value) :=
  match events with
  | [] => ret attributes
  | event :: events =>
      do attributes <- parseCallAttribute event attributes;
      parseCallAttributes_from events attributes
  end.

Definition parseCallAttributes (events : list string)
    : M (gmap string value) :=
  parseCallAttributes_from events ∅.

(** The template literal of [filterPattern]. *)
Definition filterPattern (contactId : value) : string :=
  "{" +:+ newline
    +:+ "      ($.ContactId = " +:+ dquote +:+ toString contactId
    +:+ dquote +:+ ") &&" +:+ newline
    +:+ "        ($.ContactFlowModuleType = " +:+ dquote
    +:+ "SetAttributes" +:+ dquote +:+ ")" +:+ newline
    +:+ "    }".

Definition getContactFlowLogs (contactId : value) : M (list string) :=
  do h <- history;
  cwl_filterLogEvents
    (CONNECT_LOG_GROUP E)
    (filterPattern contactId)
    (DateTime_local_minus_days_toMillis E h SEARCH_PERIOD_IN_DAYS).

Definition addCallAttributes (voicemail : gmap string value)
    : M (gmap string value) :=
  do events <- getContactFlowLogs (field voicemail "contactId");
  do attributes <- parseCallAttributes events;
  (* {...voicemail, ...attributes} *)
  ret (attributes ∪ voicemail).

Definition transcribeRecording (voicemail : gmap string value) : M value :=
  do job <- startJob (field voicemail "objectUrl") VUndefined;
  awaitJob (TranscriptionJobName job) TRANSCRIBE_WAIT_SECONDS.

Definition getPresignedS3Url (voicemail : gmap string value) : M value :=
  s3_getSignedUrl "getObject" (field voicemail "bucketName")
                  (field voicemail "objectKey") LINK_EXPIRY_IN_SECONDS.

(** The template literal of [notificationMessage]. *)
Definition notificationText (voicemail : gmap string value)
    (creationDate expiryDate : string) : string :=
  newline
    +:+ "Caller: " +:+ toString (field voicemail "callingNumber") +:+ newline
    +:+ "Called at: " +:+ creationDate +:+ newline
    +:+ "Purpose: " +:+ toString (field voicemail "purpose") +:+ newline
    +:+ newline
    +:+ "Transcript:" +:+ newline
    +:+ "===========" +:+ newline
    +:+ toString (field voicemail "transcript") +:+ newline
    +:+ "===========" +:+ newline
    +:+ newline
    +:+ "Download (valid until " +:+ expiryDate +:+ "): "
    +:+ toString (field voicemail "preSignedUrl") +:+ newline
    +:+ newline
    +:+ "-" +:+ newline
    +:+ newline
    +:+ "Download (requires log-in): "
    +:+ toString (field voicemail "consoleUrl") +:+ newline
    +:+ newline
    +:+ "================================================================================"
    +:+ newline.

Definition notificationMessage (voicemail : gmap string value) : M string :=
  let creationDate :=
    DateTime_fromISO_format E (NOTIFICATION_TIMEZONE E)
                            (field voicemail "creationDate") in
  do h <- history;
  let expiryDate :=
    DateTime_local_plus_days_format E h (NOTIFICATION_TIMEZONE E)
                                    (LINK_EXPIRY_IN_DAYS E) in
  ret (notificationText voicemail creationDate expiryDate).

Definition sendNotification (voicemail : gmap string value) : M value :=
  do message <- notificationMessage voicemail;
  sns_publish (NOTIFICATION_TOPIC E) message
    (VStr (notificationSubject (field voicemail "purpose")
                               (field voicemail "callingNumber"))).

Definition success : value := VObj [("success", VBool true)].

Definition ALERT_SUBJECT : string := "Voicemail processing failure".

Definition alertMessage (err : exn) : string :=
  "Voicemail processing encountered an error:" +:+ newline
    +:+ "        " +:+ exn_toString err.

(** The first three statements of the second [try] block: the record as it
    stands when the handler tests [voicemail.voicemail]. *)
Definition enrich (event : list s3_event_record) : M (gmap string value) :=
  do voicemail <- getS3ObjectInfo (head event);
  do contactId <-
    lift (contactIdFromObjectKey (toString (field voicemail "objectKey")));
  let voicemail := <["contactId" := VStr contactId]> voicemail in
  addCallAttributes voicemail.

(** The rest of the second [try] block. *)
Definition deliver (voicemail : gmap string value) : M value :=
  if negb (truthy (field voicemail "voicemail")) then
    (* non-voicemail call, ignoring *)
    ret success
  else
    do transcript <- transcribeRecording voicemail;
    let voicemail := <["transcript" := transcript]> voicemail in
    do preSignedUrl <- getPresignedS3Url voicemail;
    let voicemail := <["preSignedUrl" := preSignedUrl]> voicemail in
    do_ sendNotification voicemail;
    ret success.

Definition pipeline (event : list s3_event_record) : M value :=
  do voicemail <- enrich event;
  deliver voicemail.

(** The [catch] of the second [try] block. *)
Definition escalate (err : exn) : M value :=
  do_ emit (ConsoleError err);
  do_ sns_publish (NOTIFICATION_TOPIC E) (alertMessage err)
                  (VStr ALERT_SUBJECT);
  throw err.

Definition loginSignal : M unit :=
  try_catch
    (do_ spawn (sendLoginEvent
                  (VObj [("event", VStr VOICEMAIL_PROCESSED_EVENT)]));
     ret tt)
    (fun err => emit (ConsoleLog err)).

Definition process (event : list s3_event_record) : M value :=
  (* Agent would have just gotten off a call, so make it Available again *)
  do_ loginSignal;
  (* Process the voicemail message *)
  try_catch (pipeline event) escalate.

End Handler.

(** * Words used to state the properties *)

Abbreviation chars := list_ascii_of_string.

(** The characters a Transcribe job name may hold: [0-9A-Za-z._-]. *)
Definition job_name_alphabet : string :=
  "0123456789ABCDEFGHIJKLMNOPQRSTUVWXYZabcdefghijklmnopqrstuvwxyz._-".

Definition sanitize_char (ch : ascii) : ascii :=
  if bool_decide (ch ∈ chars job_name_alphabet) then ch else "_"%char.

(** The characters of a contact id: [A-Za-z0-9-]. *)
Definition contact_id_alphabet : string :=
  "ABCDEFGHIJKLMNOPQRSTUVWXYZabcdefghijklmnopqrstuvwxyz0123456789-".

Definition is_contact_id (id : string) : Prop :=
  id <> "" /\ forall ch, ch ∈ chars id -> ch ∈ chars contact_id_alphabet.

Definition line_terminator (ch : ascii) : Prop :=
  ch = "010"%char \/ ch = "013"%char.

Definition ten_digits (s : string) : Prop :=
  length (chars s) = 10
  /\ forall ch, ch ∈ chars s -> ch ∈ chars "0123456789".

(** * Polling *)

(** The delays a run asked for, in order. *)
Definition waits (t : list call) : list Q :=
  omap (fun c => match c with Wait ms => Some ms | _ => None end) t.

Definition Qsum (l : list Q) : Q := foldr Qplus 0%Q l.

(** One turn of the loop on a pending job. *)
Definition pending_turn (jobName : string) (w : Q) : list call :=
  [TranscribeGetJob jobName; Wait w].

(** The calls made when the [i]-th status check (from 0) is sent, every
    check before it having found the job pending. *)
Definition history_before_check (t : list call) (jobName : string) (w : Q)
    (i : nat) : list call :=
  t ++ Wait INITIAL_WAIT_MS :: concat (replicate i (pending_turn jobName w)).

Definition pending_at (E : env) (jobName : string) (h : list call) : Prop :=
  exists j, Transcribe_getTranscriptionJob E h jobName = Ok j
            /\ TranscriptionJobStatus j = TRANSCRIBE_PENDING.

Definition failed_at (E : env) (jobName : string) (h : list call)
    (reason : value) : Prop :=
  exists j, Transcribe_getTranscriptionJob E h jobName = Ok j
            /\ TranscriptionJobStatus j = TRANSCRIBE_FAILED
            /\ FailureReason j = reason.

(** Every status check of the run reports the job still pending. *)
Definition every_check_pending (E : env) (jobName : string) (waitSeconds : Q)
    (t : list call) : Prop :=
  forall i, i < TRIES ->
    pending_at E jobName
      (history_before_check t jobName (waitBetweenRetries waitSeconds) i).

(** The [k]-th status check reports the job failed, those before it pending. *)
Definition check_fails (E : env) (jobName : string) (waitSeconds : Q)
    (t : list call) (k : nat) (reason : value) : Prop :=
  k < TRIES
  /\ (forall i, i < k ->
        pending_at E jobName
          (history_before_check t jobName (waitBetweenRetries waitSeconds) i))
  /\ failed_at E jobName
       (history_before_check t jobName (waitBetweenRetries waitSeconds) k)
       reason.

(** * A test double for the surroundings

    Canned collaborators, in the manner of a unit-test harness, to run the
    handler on concrete events. *)

Module Harness.

Definition hex_digit (ch : ascii) : option nat :=
  let n := nat_of_ascii ch in
  if (48 <=? n) && (n <=? 57) then Some (n - 48)
  else if (65 <=? n) && (n <=? 70) then Some (n - 55)
  else if (97 <=? n) && (n <=? 102) then Some (n - 87)
  else None.

(** [decodeURIComponent] on escapes of code units below 128. *)
Fixpoint percent_decode (l : list ascii) : outcome (list ascii) :=
  match l with
  | [] => Ok []
  | "%"%char :: hi :: lo :: rest =>
      match hex_digit hi, hex_digit lo, percent_decode rest with
      | Some h, Some l, Ok rest' =>
          if h <? 8 then Ok (ascii_of_nat (16 * h + l) :: rest')
          else Throw (Exn "URIError" "URI malformed")
      | _, _, Throw e => Throw e
      | _, _, _ => Throw (Exn "URIError" "URI malformed")
      end
  | "%"%char :: _ => Throw (Exn "URIError" "URI malformed")
  | ch :: rest =>
      match percent_decode rest with
      | Ok rest' => Ok (ch :: rest')
      | Throw e => Throw e
      end
  end.

Definition decode (s : string) : outcome string :=
  match percent_decode (list_ascii_of_string s) with
  | Ok l => Ok (string_of_list_ascii l)
  | Throw e => Throw e
  end.

Definition set_attribute (key value_ : string) : value :=
  VObj [("ContactFlowModuleType", VStr "SetAttributes");
        ("Parameters", VObj [("Key", VStr key); ("Value", VStr value_)])].

(** Log lines, named by a short text instead of their JSON. *)
Definition parse (message : string) : outcome value :=
  match message with
  | "voicemail=true" => Ok (set_attribute "voicemail" "true")
  | "callingNumber=+61412345678" =>
      Ok (set_attribute "callingNumber" "+61412345678")
  | "purpose=billing" => Ok (set_attribute "purpose" "billing")
  | _ => Throw (Exn "SyntaxError" "Unexpected token in JSON")
  end.

Definition stringify (v : value) : string :=
  match v with
  | VObj [(k, VStr s)] =>
      "{" +:+ dquote +:+ k +:+ dquote +:+ ":" +:+ dquote +:+ s +:+ dquote
        +:+ "}"
  | _ => "null"
  end.

Definition receipt : value := VObj [("MessageId", VStr "m-1")].

Definition is_status_check (c : call) : bool :=
  match c with TranscribeGetJob _ => true | _ => false end.

Definition checks_so_far (h : list call) : nat :=
  length (List.filter is_status_check h).

(** [publish] and [status] vary from test to test. *)
Definition surroundings
    (publish : list call -> string -> value -> string -> outcome value)
    (logs : outcome (list string))
    (status : list call -> string -> outcome transcription_job) : env :=
  {| CONNECT_LOG_GROUP := "/aws/connect/demo";
     NOTIFICATION_TOPIC := "arn:aws:sns:ap-southeast-2:1:voicemail";
     AGENT_LOGIN_TOPIC := "arn:aws:sns:ap-southeast-2:1:agent-login";
     NOTIFICATION_TIMEZONE := "Australia/Perth";
     LINK_EXPIRY_IN_DAYS := 7;
     decodeURIComponent := decode;
     JSON_parse := parse;
     JSON_stringify := stringify;
     DateTime_local_toMillis := fun _ => 1529391780000%Z;
     DateTime_local_minus_days_toMillis :=
       fun _ days => (1529391780000 - days * 86400000)%Z;
     DateTime_fromISO_format := fun _ _ => "Tue Jun 19, 3:03 PM GMT+8";
     DateTime_local_plus_days_format :=
       fun _ _ _ => "Tue Jun 26, 3:03 PM GMT+8";
     SNS_publish := publish;
     CWL_filterLogEvents := fun _ _ _ _ => logs;
     Transcribe_startTranscriptionJob :=
       fun _ _ _ _ jobName =>
         Ok (TranscriptionJob jobName "IN_PROGRESS" VUndefined VUndefined);
     Transcribe_getTranscriptionJob := status;
     axios_get_transcripts :=
       fun _ _ => Ok [VObj [("transcript", VStr "hello")]];
     S3_getSignedUrl := fun _ _ _ _ _ => Ok (VStr "https://signed/url") |}.

Definition publish_ok : list call -> string -> value -> string -> outcome value :=
  fun _ _ _ _ => Ok receipt.

Definition voicemail_logs : outcome (list string) :=
  Ok ["voicemail=true"; "callingNumber=+61412345678"; "purpose=billing"].

Definition always_pending : list call -> string -> outcome transcription_job :=
  fun _ jobName =>
    Ok (TranscriptionJob jobName "IN_PROGRESS" VUndefined VUndefined).

(** Pending for the first [n] checks, then [final]. *)
Definition pending_then (n : nat) (final : string -> transcription_job)
    : list call -> string -> outcome transcription_job :=
  fun h jobName =>
    if checks_so_far h <? n then always_pending h jobName
    else Ok (final jobName).

Definition completed (jobName : string) : transcription_job :=
  TranscriptionJob jobName "COMPLETED" VUndefined
    (VObj [("TranscriptFileUri", VStr "https://transcripts/1.json")]).

Definition failed (reason : string) (jobName : string) : transcription_job :=
  TranscriptionJob jobName "FAILED" (VStr reason) VUndefined.

Definition event : list s3_event_record :=
  [S3EventRecord "b" (VStr "2018-06-19T07:03:00.000Z")
                 "calls/abc-123_20180619T07%3A02_UTC.wav"].

End Harness.

(** * The handler *)

(** The message that asks for the agent to be made available. *)
Definition login_message (E : env) : string :=
  JSON_stringify E (VObj [("event", VStr VOICEMAIL_PROCESSED_EVENT)]).

(** The calls of the first [try] block. *)
Definition login_calls (E : env) : list call :=
  if truthy (VStr (login_message E)) then
    [SnsPublish (AGENT_LOGIN_TOPIC E) VUndefined (login_message E)]
  else [].

(** The alert that the [catch] block publishes about [err]. *)
Definition alert_call (E : env) (err : exn) : call :=
  SnsPublish (NOTIFICATION_TOPIC E) (VStr ALERT_SUBJECT) (alertMessage err).

Definition is_alert (c : call) : bool :=
  match c with
  | SnsPublish _ (VStr subject) _ => String.eqb subject ALERT_SUBJECT
  | _ => false
  end.

Definition is_console_log (c : call) : bool :=
  match c with ConsoleLog _ => true | _ => false end.

(** Topic and subject of each publish of a run. *)
Definition published (t : list call) : list (string * value) :=
  omap (fun c => match c with
                 | SnsPublish topic subject _ => Some (topic, subject)
                 | _ => None
                 end) t.

(** The error of a failed transcription job. *)
Definition TranscriptionFailure (reason : value) : exn :=
  Error ("Transcription failure: " +:+ toString reason).

(** [E] with another SNS client. *)
Definition with_publish (E : env)
    (publish : list call -> string -> value -> string -> outcome value) : env :=
  {| CONNECT_LOG_GROUP := CONNECT_LOG_GROUP E;
     NOTIFICATION_TOPIC := NOTIFICATION_TOPIC E;
     AGENT_LOGIN_TOPIC := AGENT_LOGIN_TOPIC E;
     NOTIFICATION_TIMEZONE := NOTIFICATION_TIMEZONE E;
     LINK_EXPIRY_IN_DAYS := LINK_EXPIRY_IN_DAYS E;
     decodeURIComponent := decodeURIComponent E;
     JSON_parse := JSON_parse E;
     JSON_stringify := JSON_stringify E;
     DateTime_local_toMillis := DateTime_local_toMillis E;
     DateTime_local_minus_days_toMillis := DateTime_local_minus_days_toMillis E;
     DateTime_fromISO_format := DateTime_fromISO_format E;
     DateTime_local_plus_days_format := DateTime_local_plus_days_format E;
     SNS_publish := publish;
     CWL_filterLogEvents := CWL_filterLogEvents E;
     Transcribe_startTranscriptionJob := Transcribe_startTranscriptionJob E;
     Transcribe_getTranscriptionJob := Transcribe_getTranscriptionJob E;
     axios_get_transcripts := axios_get_transcripts E;
     S3_getSignedUrl := S3_getSignedUrl E |}.

(** The calls made when a status check, the [k]-th, has found the job of the
    handler failed. *)
Definition history_at_failure (t : list call) (jobName : string) (k : nat)
    : list call :=
  history_before_check t jobName (waitBetweenRetries TRANSCRIBE_WAIT_SECONDS) k
    ++ [TranscribeGetJob jobName].

(** What a run of [m] returned, for a run that did not throw. *)
Definition returned {A : Type} (fallback : A) (run : outcome A * list call) : A :=
  match fst run with
  | Ok a => a
  | Throw _ => fallback
  end.

Definition no_job : transcription_job :=
  TranscriptionJob "" "" VUndefined VUndefined.

Module Scenario.
Import Harness.

(** The job fails at the second status check. *)
Definition job_fails : env :=
  surroundings publish_ok voicemail_logs
               (pending_then 1 (failed "Unsupported media format")).

Definition job_fails_enriched : outcome (gmap string value) * list call :=
  enrich job_fails event ([] ++ login_calls job_fails).

Definition job_fails_started : outcome transcription_job * list call :=
  startJob job_fails
           (field (returned ∅ job_fails_enriched) "objectUrl") VUndefined
           (snd job_fails_enriched).

(** The log search finds nothing about the call. *)
Definition no_attributes : env :=
  surroundings publish_ok (Ok []) always_pending.

Definition no_attributes_enriched : outcome (gmap string value) * list call :=
  enrich no_attributes event ([] ++ login_calls no_attributes).

(** An SNS client that refuses the alert. *)
Definition publish_refuses_alert
    : list call -> string -> value -> string -> outcome value :=
  fun _ _ subject _ =>
    if is_string subject ALERT_SUBJECT then
      Throw (Exn "AuthorizationError" "not authorized to publish")
    else Ok receipt.

(** An SNS client that fails on the agent-login signal, the one publish
    without a subject. *)
Definition publish_refuses_login
    : list call -> string -> value -> string -> outcome value :=
  fun _ _ subject _ =>
    match subject with
    | VUndefined => Throw (Exn "InternalFailure" "SNS is unavailable")
    | _ => Ok receipt
    end.

(** The job completes; the agent-login signal fails, or not. *)
Definition login_fails : env :=
  surroundings publish_refuses_login voicemail_logs (pending_then 1 completed).

Definition login_succeeds : env :=
  surroundings publish_ok voicemail_logs (pending_then 1 completed).

(** The job fails, and so does the alert about it. *)
Definition alert_fails : env :=
  surroundings publish_refuses_alert voicemail_logs
               (pending_then 1 (failed "Unsupported media format")).

End Scenario.

(** * Auxiliary definitions of the proofs *)

(** Greedy [p*] on one symbol class, as a recursion on the input: take the
    next symbol if it is in the class and the rest then succeeds, else stop
    here. *)
Fixpoint star_sym (p : ascii -> bool) (pos : nat) (rest : list ascii)
    (caps : list (nat * string)) (c : continuation) : option mstate :=
  match rest with
  | ch :: rest' =>
      if p ch then
        match star_sym p (S pos) rest' caps c with
        | Some z => Some z
        | None => c (MState pos rest caps)
        end
      else c (MState pos rest caps)
  | [] => c (MState pos [] caps)
  end.

(** What follows [.*] in the pattern. *)
Definition re_tail : regex :=
  cat [chr "/"; Grp 1 (plus (Sym contact_id_char)); chr "_"; star (Sym dot)].

Definition has_plus61 (s : string) : Prop :=
  exists pre d post,
    s = pre +:+ "+61" +:+ String d post /\ d ∈ chars "0123456789".





(** * agent.js: triggering the login *)

Definition CALL_IN_PROGRESS_EVENT : string := "CALL_IN_PROGRESS".

Definition deferred : value :=
  VObj [("success", VNull); ("deferred", VBool true)].

(** The template literal of the alert of [loginAsync]. *)
Definition triggerFailureMessage (err : exn) : string :=
  "Failure triggering voicemail agent to be available:" +:+ newline
    +:+ "        " +:+ exn_toString err.

Definition loginAsync (E : env) (event : value) : M value :=
  try_catch
    (do Details <- lift (get_prop event "Details");
     do ContactData <- lift (get_prop Details "ContactData");
     do contactId <- lift (get_prop ContactData "ContactId");
     do Details <- lift (get_prop event "Details");
     do parameters <- lift (get_prop Details "Parameters");
     do_ spawn (sendLoginEvent E
                  (VObj [("contactId", contactId);
                         ("parameters", parameters);
                         ("event", VStr CALL_IN_PROGRESS_EVENT)]));
     ret deferred)
    (fun err =>
       do_ emit (ConsoleError err);
       do_ sns_publish E (NOTIFICATION_TOPIC E) (triggerFailureMessage err)
                       (VStr ALERT_SUBJECT);
       throw err).

(** [v == null] *)
Definition nullish (v : value) : bool :=
  match v with
  | VUndefined | VNull => true
  | _ => false
  end.

(** What [loginAsync] reads of its event: [Details.ContactData.ContactId]
    and [Details.Parameters]. *)
Definition contact_of (event : value) : outcome (value * value) :=
  match get_prop event "Details" with
  | Ok Details =>
      match get_prop Details "ContactData" with
      | Ok ContactData =>
          match get_prop ContactData "ContactId",
                get_prop Details "Parameters" with
          | Ok contactId, Ok parameters => Ok (contactId, parameters)
          | Throw e, _ | _, Throw e => Throw e
          end
      | Throw e => Throw e
      end
  | Throw e => Throw e
  end.

(** The message that asks for the agent to be made available for a call. *)
Definition trigger_message (E : env) (contactId parameters : value) : string :=
  JSON_stringify E (VObj [("contactId", contactId);
                          ("parameters", parameters);
                          ("event", VStr CALL_IN_PROGRESS_EVENT)]).

Definition trigger_calls (E : env) (contactId parameters : value) : list call :=
  if truthy (VStr (trigger_message E contactId parameters)) then
    [SnsPublish (AGENT_LOGIN_TOPIC E) VUndefined
                (trigger_message E contactId parameters)]
  else [].

Module AgentRuns.
Import Harness.

(** The event of a contact flow. *)
Definition contact_flow_event : value :=
  VObj [("Details",
         VObj [("ContactData", VObj [("ContactId", VStr "abc-123")]);
               ("Parameters", VObj [])])].

(** An SNS client that is down. *)
Definition publish_down
    : list call -> string -> value -> string -> outcome value :=
  fun _ _ _ _ => Throw (Exn "InternalFailure" "SNS is unavailable").

Definition sns_down : env :=
  surroundings publish_down voicemail_logs always_pending.

End AgentRuns.

(** * agent.js: the login in the browser

    The browser is a collaborator as the AWS clients are: a run is the list
    of what was asked of the page, of the browser and of [console.error], in
    order, and the answers may depend on what was asked before.  The page is
    the one page that [run] opens. *)

Module Browser.

Inductive wait_until : Type := Visible | Hidden.

(** An argument of [console.error]. *)
Inductive report : Type :=
| Thrown (err : exn)
| Text (text : string).

Inductive action : Type :=
| ExecutablePath
| Launch
| NewPage
| Goto (url : value)
| WaitForSelector (selector : string) (state : wait_until)
| TextContent (selector : string)
| Click (selector : string)
| TypeInto (selector : string) (text : value)
| Focus (selector : string)
| KeyboardType (text : value)
| KeyboardPress (key : string)
| Content
| ClosePage
| CloseBrowser
| Console_error (item : report)
| Outside (c : call).

(** [process.env] of the login lambda, and a browser. *)
Record browser : Type := {
  CCP_URL : value;
  CCP_USERNAME : value;
  CCP_PASSWORD : value;
  chromium_executablePath : list action -> outcome value;
  puppeteer_launch : list action -> outcome unit;
  browser_newPage : list action -> outcome unit;
  page_goto : list action -> value -> outcome unit;
  page_url : list action -> string;
  page_waitForSelector : list action -> string -> wait_until -> outcome unit;
  (* page.$eval(selector, (el) => el.textContent) *)
  page_textContent : list action -> string -> outcome value;
  page_click : list action -> string -> outcome unit;
  page_type : list action -> string -> value -> outcome unit;
  page_focus : list action -> string -> outcome unit;
  keyboard_type : list action -> value -> outcome unit;
  keyboard_press : list action -> string -> outcome unit;
  page_content : list action -> outcome string;
  page_close : list action -> outcome unit;
  browser_close : list action -> outcome unit
}.

(** A computation in the browser. *)
Definition B (A : Type) : Type := list action -> outcome A * list action.

Definition ret {A : Type} (a : A) : B A := fun t => (Ok a, t).
Definition throw {A : Type} (e : exn) : B A := fun t => (Throw e, t).

Definition bind {A C : Type} (m : B A) (f : A -> B C) : B C :=
  fun t =>
    match m t with
    | (Ok a, t') => f a t'
    | (Throw e, t') => (Throw e, t')
    end.

Definition try_catch {A : Type} (m : B A) (handler : exn -> B A) : B A :=
  fun t =>
    match m t with
    | (Ok a, t') => (Ok a, t')
    | (Throw e, t') => handler e t'
    end.

(** [try { m } finally { cleanup }]: the cleanup runs however [m] ends, and
    an error it throws replaces the outcome of [m]. *)
Definition finally {A : Type} (m : B A) (cleanup : B unit) : B A :=
  fun t =>
    match m t with
    | (r, t') =>
        match cleanup t' with
        | (Ok _, t'') => (r, t'')
        | (Throw e, t'') => (Throw e, t'')
        end
    end.

Definition emit (a : action) : B unit := fun t => (Ok tt, t ++ [a]).
Definition history : B (list action) := fun t => (Ok t, t).

Definition request {A : Type} (a : action) (answer : list action -> outcome A)
    : B A :=
  fun t => (answer t, t ++ [a]).



Notation "'go' x <- m ; k" := (bind m (fun x => k))
  (at level 10, x name, m at level 100, k at level 200).
Notation "'go_' m ; k" := (bind m (fun _ => k))
  (at level 10, m at level 100, k at level 200).

(** [/available/i], [/connected/i], [/(available|connected)/i]: without the
    [u] flag a letter of the pattern matches its two cases and nothing
    else. *)
Definition letter (lower upper : ascii) : regex :=
  Sym (one_of [Ascii.eqb lower; Ascii.eqb upper]).

Definition word_available : regex :=
  cat [letter "a" "A"; letter "v" "V"; letter "a" "A"; letter "i" "I";
       letter "l" "L"; letter "a" "A"; letter "b" "B"; letter "l" "L";
       letter "e" "E"].

Definition word_connected : regex :=
  cat [letter "c" "C"; letter "o" "O"; letter "n" "N"; letter "n" "N";
       letter "e" "E"; letter "c" "C"; letter "t" "T"; letter "e" "E";
       letter "d" "D"].

Definition re_available : regex := word_available.
Definition re_connected : regex := word_connected.
Definition re_available_or_connected : regex :=
  Grp 1 (Alt word_available word_connected).

(** [RegExp.prototype.test] *)
Definition test (r : regex) (v : value) : bool :=
  match exec r (toString v) with
  | Some _ => true
  | None => false
  end.

Definition username_input : string :=
  "input[type=" +:+ dquote +:+ "username" +:+ dquote +:+ "]".
Definition password_input : string :=
  "input[type=" +:+ dquote +:+ "password" +:+ dquote +:+ "]".

Section Agent.

Variable E : env.
Variable Br : browser.

Definition waitForSelector (selector : string) (state : wait_until) : B unit :=
  request (WaitForSelector selector state)
          (fun h => page_waitForSelector Br h selector state).

Definition textContent (selector : string) : B value :=
  request (TextContent selector) (fun h => page_textContent Br h selector).

Definition unable_to_retrieve : B unit :=
  emit (Console_error (Text "Unable to retrieve agent status")).

(** The [try] of [getAgentStatus] with its [catch].  [status] is assigned
    inside the [try]: the [catch] leaves it as it was when the error was
    thrown, [null] before the first read and the first text after it. *)
Definition readStatus (waitForElement : bool) : B value :=
  try_catch
    (go_ (if waitForElement then waitForSelector ".ccpState" Visible
          else ret tt);
     go status <- textContent ".ccpState";
     if negb (nullish status) then
       (* status element exists, but might not be initialised yet *)
       try_catch
         (go_ waitForSelector "button" Visible;
          textContent ".ccpState")
         (fun _ => go_ unable_to_retrieve; ret status)
     else ret status)
    (fun _ => go_ unable_to_retrieve; ret VNull).

Definition getAgentStatus (waitForElement : bool) : B value :=
  go_ waitForSelector "body" Visible;
  readStatus waitForElement.

Definition fillAndSubmitLoginForm : B unit :=
  (* Wait for redirects *)
  go_ waitForSelector username_input Visible;
  if nullish (CCP_USERNAME Br) || nullish (CCP_PASSWORD Br) then
    throw (TypeError "Missing agent username or password")
  else
    go_ request (TypeInto username_input (CCP_USERNAME Br))
                (fun h => page_type Br h username_input (CCP_USERNAME Br));
    go_ request (Focus password_input)
                (fun h => page_focus Br h password_input);
    go_ request (KeyboardType (CCP_PASSWORD Br))
                (fun h => keyboard_type Br h (CCP_PASSWORD Br));
    request (KeyboardPress "Enter") (fun h => keyboard_press Br h "Enter").

Definition makeAgentAvailable : B unit :=
  go agentStatus <- getAgentStatus true;
  if negb (nullish agentStatus) && test re_available agentStatus then
    (* Agent is already Available, nothing to do here *)
    ret tt
  else if negb (nullish agentStatus) && test re_connected agentStatus then
    (* Agent is taking a call, leaving it alone *)
    ret tt
  else
    go_ request (Click "button.setAvailButton")
                (fun h => page_click Br h "button.setAvailButton");
    go_ waitForSelector "button.setAvailButton" Hidden;
    go agentStatus <- getAgentStatus false;
    if negb (nullish agentStatus)
       && test re_available_or_connected agentStatus then
      ret tt
    else throw (Error "Failed to make agent available").

(** The body of the [try] of [run]. *)
Definition visit : B unit :=
  (* Try to visit the CCP page *)
  go_ request (Goto (CCP_URL Br)) (fun h => page_goto Br h (CCP_URL Br));
  go h <- history;
  go loggedIn <-
    (if is_string (CCP_URL Br) (page_url Br h) then
       (* We weren't redirected to a different url, so might already be
          logged in from a previous lambda invocation *)
       go status <- getAgentStatus false;
       ret (negb (nullish status))
     else ret false);
  go_ (if negb loggedIn then fillAndSubmitLoginForm else ret tt);
  makeAgentAvailable.

(** The [catch] of [run]. *)
Definition dump (err : exn) : B unit :=
  go_ emit (Console_error (Thrown err));
  go_ emit (Console_error (Text "Unexpected error, dumping html source:"));
  go_ emit (Console_error (Text "===================================="));
  go html <- request Content (fun h => page_content Br h);
  go_ emit (Console_error (Text html));
  go_ emit (Console_error (Text "===================================="));
  throw (Error ("Failed to log agent in: " +:+ exn_toString err)).

(** The [finally] of [run]. *)
Definition close : B unit :=
  go_ request ClosePage (fun h => page_close Br h);
  request CloseBrowser (fun h => browser_close Br h).

Definition run : B unit :=
  go_ request NewPage (fun h => browser_newPage Br h);
  finally (try_catch visit dump) close.



End Agent.

End Browser.

(** * More auxiliary definitions of the proofs *)

(** Lazy [p*?] on one symbol class, as a recursion on the input: stop here if
    the rest then succeeds, else take the next symbol if it is in the class. *)
Fixpoint lazy_star_sym (p : ascii -> bool) (pos : nat) (rest : list ascii)
    (caps : list (nat * string)) (c : continuation) : option mstate :=
  match c (MState pos rest caps) with
  | Some z => Some z
  | None =>
      match rest with
      | ch :: rest' =>
          if p ch then lazy_star_sym p (S pos) rest' caps c else None
      | [] => None
      end
  end.

(** The state [y] is the state [x] further on in the input. *)
Definition ahead (x y : mstate) : Prop :=
  exists pre, m_rest x = pre ++ m_rest y /\ m_pos y = m_pos x + length pre.

(** A matcher that calls its continuation only further on in the input. *)
Definition forward (m : matcher_t) : Prop :=
  forall x c z, m x c = Some z -> exists y, ahead x y /\ c y = Some z.

(** The parts of [/(.*[\\\/])?(.+?)\.([^.]*$|$)/]: the classes [[^.]] and
    [[\\\/]], the extension, the name with what follows it, the directory. *)
Definition not_dot : ascii -> bool := none_of [Ascii.eqb "."].
Definition slash : ascii -> bool := one_of [Ascii.eqb "\"; Ascii.eqb "/"].

Definition re_extension : regex :=
  Grp 3 (Alt (cat [star (Sym not_dot); Eol]) Eol).
Definition re_name_on : regex :=
  cat [Grp 2 (lazy_plus (Sym dot)); chr "."; re_extension].
Definition re_directory : regex :=
  Grp 1 (cat [star (Sym dot); Sym slash]).

(** * More words used to state the properties

    File paths. *)

(** A directory part: nothing, or text on one line that ends in a slash or
    a backslash. *)
Definition is_directory (dir : string) : Prop :=
  dir = ""
  \/ exists d0 sep,
       dir = d0 +:+ String sep ""
       /\ (sep = "/"%char \/ sep = "\"%char)
       /\ forall ch, ch ∈ chars d0 -> ~ line_terminator ch.

(** A file name without its extension: not empty, on one line, no slash. *)
Definition is_file_name (name : string) : Prop :=
  name <> ""
  /\ forall ch, ch ∈ chars name ->
       ~ line_terminator ch /\ ch <> "/"%char /\ ch <> "\"%char.

(** An extension: no dot, no slash. *)
Definition is_extension (ext : string) : Prop :=
  forall ch, ch ∈ chars ext ->
    ch <> "."%char /\ ch <> "/"%char /\ ch <> "\"%char.

(** Polling. *)

(** The [k]-th status check is answered with [j], a job that is no longer
    pending; the checks before it found the job pending. *)
Definition check_ends (E : env) (jobName : string) (waitSeconds : Q)
    (t : list call) (k : nat) (j : transcription_job) : Prop :=
  k < TRIES
  /\ (forall i, i < k ->
        pending_at E jobName
          (history_before_check t jobName (waitBetweenRetries waitSeconds) i))
  /\ Transcribe_getTranscriptionJob E
       (history_before_check t jobName (waitBetweenRetries waitSeconds) k)
       jobName = Ok j
  /\ TranscriptionJobStatus j <> TRANSCRIBE_PENDING.

(** The [k]-th status check throws [e]; the checks before it found the job
    pending. *)
Definition check_throws (E : env) (jobName : string) (waitSeconds : Q)
    (t : list call) (k : nat) (e : exn) : Prop :=
  k < TRIES
  /\ (forall i, i < k ->
        pending_at E jobName
          (history_before_check t jobName (waitBetweenRetries waitSeconds) i))
  /\ Transcribe_getTranscriptionJob E
       (history_before_check t jobName (waitBetweenRetries waitSeconds) k)
       jobName = Throw e.



(** Surroundings in which the job ends in other ways. *)

Module Runs.
Import Harness.

(** A job that Transcribe still reports as queued. *)
Definition queued (jobName : string) : transcription_job :=
  TranscriptionJob jobName "QUEUED" VUndefined VUndefined.

(** The job completes at the third status check. *)
Definition job_completes : env :=
  surroundings publish_ok voicemail_logs (pending_then 2 completed).

(** The job is reported as queued at the second status check. *)
Definition job_queued : env :=
  surroundings publish_ok voicemail_logs (pending_then 1 queued).

(** Transcribe throttles the second status check. *)
Definition throttled : exn :=
  Exn "ThrottlingException" "Rate exceeded".

Definition check_throttled : env :=
  surroundings publish_ok voicemail_logs
    (fun h jobName =>
       if checks_so_far h <? 1 then always_pending h jobName
       else Throw throttled).

End Runs.

(** Phone numbers. *)

(** A string of decimal digits. *)
Definition digits (s : string) : Prop :=
  forall ch, ch ∈ chars s -> ch ∈ chars "0123456789".

(** [s] cut after [a] and after [a + b] characters, the three parts joined
    by spaces. *)
Definition grouped (a b : nat) (s : string) : string :=
  substring 0 a s +:+ " " +:+ substring a b s +:+ " "
    +:+ substring (a + b) (String.length s - (a + b)) s.

(** The second half of [formatPhoneNumber]: split mobile number, else split
    national number. *)
Definition regroup (formattedNumber : string) : string :=
  let m :=
    match exec re_mobile formattedNumber with
    | Some m => Some m
    | None => exec re_national formattedNumber
    end in
  match m with
  | Some m =>
      toString (capture m 1) +:+ " " +:+ toString (capture m 2) +:+ " "
        +:+ toString (capture m 3)
  | None => formattedNumber
  end.

(** Classes of calls. *)

(** Whatever has been called before, [m] only adds calls that satisfy [P]. *)
Definition emits_only {A : Type} (P : call -> Prop) (m : M A) : Prop :=
  forall t, exists w, snd (m t) = t ++ w /\ Forall P w.



(** The handler. *)

(** The request for the download link of the recording of [voicemail]. *)
Definition link_call (E : env) (voicemail : gmap string value) : call :=
  S3GetSignedUrl "getObject" (field voicemail "bucketName")
                 (field voicemail "objectKey") (LINK_EXPIRY_IN_SECONDS E).

(** The transcript section of a notification. *)
Definition transcript_section (transcript : value) : string :=
  "Transcript:" +:+ newline
    +:+ "===========" +:+ newline
    +:+ toString transcript +:+ newline
    +:+ "===========" +:+ newline.

(** [+] read as a space, as in a form-encoded key. *)
Definition plus_to_space (ch : ascii) : ascii :=
  if Ascii.eqb "+" ch then " "%char else ch.

Module MoreRuns.
Import Harness.

(** Transcribe never gets the job done. *)
Definition never_finishes : env :=
  surroundings publish_ok voicemail_logs always_pending.

Definition never_finishes_enriched : outcome (gmap string value) * list call :=
  enrich never_finishes event ([] ++ login_calls never_finishes).

Definition never_finishes_started : outcome transcription_job * list call :=
  startJob never_finishes
           (field (returned ∅ never_finishes_enriched) "objectUrl") VUndefined
           (snd never_finishes_enriched).

Definition never_finishes_waited : outcome value * list call :=
  awaitJob never_finishes
           (TranscriptionJobName (returned no_job never_finishes_started))
           TRANSCRIBE_WAIT_SECONDS (snd never_finishes_started).

(** A recording whose key has no contact id. *)
Definition stray_upload : list s3_event_record :=
  [S3EventRecord "b" (VStr "2018-06-19T07:03:00.000Z") "calls/greeting.wav"].

End MoreRuns.

(** ** Words used to state the properties of the login *)

(** The lower case of an ASCII letter. *)
Definition lower (ch : ascii) : ascii :=
  if range "A" "Z" ch then ascii_of_nat (nat_of_ascii ch + 32) else ch.

(** [s] contains [word], in whatever letter case. *)
Definition mentions (word s : string) : Prop :=
  exists pre w post,
    s = pre +:+ w +:+ post /\ map lower (chars w) = chars word.

(** The input starts with the letters [ps], each in one of its two cases. *)
Fixpoint spelled (ps : list (ascii * ascii)) (l : list ascii) : bool :=
  match ps, l with
  | [], _ => true
  | (a, b) :: ps', ch :: l' =>
      one_of [Ascii.eqb a; Ascii.eqb b] ch && spelled ps' l'
  | _ :: _, [] => false
  end.

Definition letters (word : string) : list (ascii * ascii) :=
  map (fun ch => (ch, ascii_of_nat (nat_of_ascii ch - 32))) (chars word).

Module BrowserWords.
Import Browser.

(** Looking at the page: waiting for an element, reading a text, writing to
    [console.error]. *)
Definition observation (a : action) : Prop :=
  match a with
  | WaitForSelector _ _ | TextContent _ | Console_error _ => True
  | _ => False
  end.

Definition is_click (a : action) : bool :=
  match a with Click _ => true | _ => false end.

(** Looking at the page, or clicking in it. *)
Definition observation_or_click (a : action) : Prop :=
  observation a \/ is_click a = true.

(** What is done with the open page, or written to [console.error]. *)
Definition on_page (a : action) : Prop :=
  match a with
  | Goto _ | WaitForSelector _ _ | TextContent _ | Click _ | TypeInto _ _
  | Focus _ | KeyboardType _ | KeyboardPress _ | Content | Console_error _ =>
      True
  | _ => False
  end.


(** Anything but closing the page or the browser. *)
Definition keeps_open (a : action) : Prop :=
  match a with
  | ClosePage | CloseBrowser => False
  | _ => True
  end.

(** Whatever has been done before, [m] only adds actions that satisfy
    [P]. *)
Definition does_only {A : Type} (P : action -> Prop) (m : B A) : Prop :=
  forall t, exists w, snd (m t) = t ++ w /\ Forall P w.

(** Whatever has been done before, [m] adds at most [n] clicks. *)
Definition clicks_within {A : Type} (n : nat) (m : B A) : Prop :=
  forall t, exists w,
    snd (m t) = t ++ w /\ length (List.filter is_click w) <= n.


End BrowserWords.

(** ** Test doubles for the browser *)

Module Pages.
Import Browser.

Definition texts_read (h : list action) : nat :=
  length (List.filter (fun a => match a with TextContent _ => true | _ => false end) h).

Definition clicks (h : list action) : nat :=
  length (List.filter BrowserWords.is_click h).

(** A page of the control panel: [status] is what [.ccpState] reads. *)
Definition panel (username password : value)
    (status : list action -> outcome value)
    (close_page : outcome unit) : browser :=
  {| CCP_URL := VStr "https://example.awsapps.com/connect/ccp";
     CCP_USERNAME := username;
     CCP_PASSWORD := password;
     chromium_executablePath := fun _ => Ok (VStr "/opt/chromium");
     puppeteer_launch := fun _ => Ok tt;
     browser_newPage := fun _ => Ok tt;
     page_goto := fun _ _ => Ok tt;
     page_url := fun _ => "https://example.awsapps.com/connect/ccp";
     page_waitForSelector := fun _ _ _ => Ok tt;
     page_textContent := fun h _ => status h;
     page_click := fun _ _ => Ok tt;
     page_type := fun _ _ _ => Ok tt;
     page_focus := fun _ _ => Ok tt;
     keyboard_type := fun _ _ => Ok tt;
     keyboard_press := fun _ _ => Ok tt;
     page_content := fun _ => Ok "<html></html>";
     page_close := fun _ => close_page;
     browser_close := fun _ => Ok tt |}.

(** The agent is on a call. *)
Definition on_call : browser :=
  panel (VStr "agent") (VStr "secret") (fun _ => Ok (VStr "Connected"))
        (Ok tt).

(** The agent is offline until the button is clicked. *)
Definition offline : browser :=
  panel (VStr "agent") (VStr "secret")
        (fun h => if clicks h =? 0 then Ok (VStr "Offline")
                  else Ok (VStr "Available"))
        (Ok tt).

(** The button does not help. *)
Definition stuck : browser :=
  panel (VStr "agent") (VStr "secret") (fun _ => Ok (VStr "Offline")) (Ok tt).

(** No credentials in the environment, and no session. *)
Definition no_credentials : browser :=
  panel VUndefined VUndefined
        (fun _ => Throw (Error "failed to find element matching selector"))
        (Ok tt).

(** The page cannot be closed. *)
Definition page_hangs : browser :=
  panel (VStr "agent") (VStr "secret") (fun _ => Ok (VStr "Available"))
        (Throw (Error "Protocol error: Target closed")).

End Pages.

(** * Properties *)

(** ** The pure helpers on examples *)

Module PureExamples.

Example normalise_1 :
  _normalisedJobName "abc-123_20180619T07:02_UTC_1529391780000"
  = "abc-123_20180619T07_02_UTC_1529391780000".
Proof. vm_compute. reflexivity. Qed.

Example file_parts_doc :
  _getFileParts "some/path/to/file.thing"
  = FileParts (VStr "some/path/to/") (VStr "thing") (VStr "file").
Proof. vm_compute. reflexivity. Qed.

Example file_parts_url :
  _getFileParts "https://b.s3.amazonaws.com/calls/abc-123_20180619T07:02_UTC.wav"
  = FileParts (VStr "https://b.s3.amazonaws.com/calls/") (VStr "wav")
              (VStr "abc-123_20180619T07:02_UTC").
Proof. vm_compute. reflexivity. Qed.

Example file_parts_none :
  _getFileParts "nodot" = FileParts VNull VNull VNull.
Proof. vm_compute. reflexivity. Qed.

Example file_parts_no_dir :
  _getFileParts "a.b.c" = FileParts VUndefined (VStr "c") (VStr "a.b").
Proof. vm_compute. reflexivity. Qed.

Example phone_doc_1 : formatPhoneNumber "+61412345678" = "0412 345 678".
Proof. vm_compute. reflexivity. Qed.

Example phone_doc_2 : formatPhoneNumber "+61812341234" = "08 1234 1234".
Proof. vm_compute. reflexivity. Qed.

Example phone_embedded : formatPhoneNumber "tel:+61412345678;x" = "0412 345 678".
Proof. vm_compute. reflexivity. Qed.

Example contact_id_doc :
  contactIdFromObjectKey
    "some/path/49ff0244-82f5-4c51-83b4-c2b0d7374f3a_20180619T07:02_UTC.wav"
  = Ok "49ff0244-82f5-4c51-83b4-c2b0d7374f3a".
Proof. vm_compute. reflexivity. Qed.

Example contact_id_none :
  contactIdFromObjectKey "no-separator_here.wav"
  = Throw (TypeError "Unexpected objectKey format").
Proof. vm_compute. reflexivity. Qed.

Example subject_with_purpose :
  notificationSubject (VStr "billing") (VStr "0412 345 678")
  = "[ billing] Voice-mail from 0412 345 678".
Proof. vm_compute. reflexivity. Qed.

Example subject_without_purpose :
  notificationSubject VUndefined (VStr "0412 345 678")
  = "[] Voice-mail from 0412 345 678".
Proof. vm_compute. reflexivity. Qed.

End PureExamples.

(** ** Facts about the matcher *)

Module RegExpFacts.

Lemma chars_app (a b : string) :
  list_ascii_of_string (a +:+ b)
  = list_ascii_of_string a ++ list_ascii_of_string b.
Proof. induction a as [|ch a IH]; simpl; [reflexivity | by rewrite IH]. Qed.

Lemma chars_inj (a b : string) :
  list_ascii_of_string a = list_ascii_of_string b -> a = b.
Proof.
  intros H. rewrite <- (string_of_list_ascii_of_string a),
    <- (string_of_list_ascii_of_string b). by rewrite H.
Qed.

Lemma repeat_matcher_S m gs greedy fuel lo hi x c :
  repeat_matcher m gs greedy (S fuel) lo hi x c
  = match hi with
    | Some 0 => c x
    | _ =>
        let d : continuation := fun y =>
          if (lo =? 0) && (m_pos y =? m_pos x) then None
          else repeat_matcher m gs greedy fuel (pred lo) (pred <$> hi) y c in
        let xr := clear_caps gs x in
        if negb (lo =? 0) then m xr d
        else if greedy then
          match m xr d with Some z => Some z | None => c x end
        else
          match c x with Some z => Some z | None => m xr d end
    end.
Proof. reflexivity. Qed.

Lemma matcher_Sym p pos rest caps c :
  matcher (Sym p) (MState pos rest caps) c
  = match rest with
    | ch :: rest' => if p ch then c (MState (S pos) rest' caps) else None
    | [] => None
    end.
Proof. reflexivity. Qed.

Lemma matcher_Cat r1 r2 x c :
  matcher (Cat r1 r2) x c = matcher r1 x (fun y => matcher r2 y c).
Proof. reflexivity. Qed.

Lemma matcher_Rep greedy lo hi r x c :
  matcher (Rep greedy lo hi r) x c
  = repeat_matcher (matcher r) (groups r) greedy
                   (S (lo + length (m_rest x))) lo hi x c.
Proof. reflexivity. Qed.

Lemma matcher_Grp i r x c :
  matcher (Grp i r) x c
  = matcher r x
      (fun y => c (set_cap i (take (m_pos y - m_pos x) (m_rest x)) y)).
Proof. reflexivity. Qed.

Lemma matcher_Bol x c :
  matcher Bol x c = if m_pos x =? 0 then c x else None.
Proof. reflexivity. Qed.

Lemma matcher_Eol x c :
  matcher Eol x c = match m_rest x with [] => c x | _ => None end.
Proof. reflexivity. Qed.

#[global] Arguments matcher : simpl never.
#[global] Arguments repeat_matcher : simpl never.

Lemma succ_eqb_false n : (S n =? n) = false.
Proof. apply Nat.eqb_neq. lia. Qed.

Lemma repeat_star_sym p fuel pos rest caps c :
  length rest < fuel ->
  repeat_matcher (matcher (Sym p)) [] true fuel 0 None (MState pos rest caps) c
  = star_sym p pos rest caps c.
Proof.
  revert fuel pos. induction rest as [|ch rest IH]; intros fuel pos Hfuel.
  - destruct fuel as [|fuel]; [simpl in Hfuel; lia | reflexivity].
  - destruct fuel as [|fuel]; [simpl in Hfuel; lia |].
    rewrite repeat_matcher_S. cbv zeta. cbn [clear_caps].
    change (negb (0 =? 0)) with false. cbv iota.
    rewrite matcher_Sym. cbn [star_sym]. destruct (p ch); [| reflexivity].
    cbn [m_pos]. change (0 =? 0) with true. cbn [andb].
    rewrite succ_eqb_false.
    change (repeat_matcher (matcher (Sym p)) [] true fuel
              (Init.Nat.pred 0) (Init.Nat.pred <$> None))
      with (repeat_matcher (matcher (Sym p)) [] true fuel 0 None).
    rewrite IH by (simpl in Hfuel; lia). reflexivity.
Qed.

Lemma matcher_star_sym p pos rest caps c :
  matcher (star (Sym p)) (MState pos rest caps) c = star_sym p pos rest caps c.
Proof.
  unfold star. rewrite matcher_Rep. cbn [groups m_rest].
  apply repeat_star_sym. lia.
Qed.

Lemma matcher_plus_sym p pos rest caps c :
  matcher (plus (Sym p)) (MState pos rest caps) c
  = match rest with
    | ch :: rest' => if p ch then star_sym p (S pos) rest' caps c else None
    | [] => None
    end.
Proof.
  unfold plus. rewrite matcher_Rep, repeat_matcher_S. cbv zeta.
  cbn [groups m_rest clear_caps]. change (negb (1 =? 0)) with true. cbv iota.
  rewrite matcher_Sym. destruct rest as [|ch rest]; [reflexivity |].
  destruct (p ch); [| reflexivity].
  change (1 =? 0) with false. cbn [andb].
  change (repeat_matcher (matcher (Sym p)) [] true (1 + length (ch :: rest))
            (Init.Nat.pred 1) (Init.Nat.pred <$> None))
    with (repeat_matcher (matcher (Sym p)) [] true (1 + length (ch :: rest))
            0 None).
  apply repeat_star_sym. simpl. lia.
Qed.

(** [p{n}] on one symbol class: exactly [n] symbols of the class. *)
Lemma repeat_times_sym p greedy n fuel pos rest caps c :
  n < fuel ->
  repeat_matcher (matcher (Sym p)) [] greedy fuel n (Some n)
                 (MState pos rest caps) c
  = if (n <=? length rest) && forallb p (take n rest)
    then c (MState (pos + n) (drop n rest) caps) else None.
Proof.
  revert fuel pos rest. induction n as [|n IH]; intros fuel pos rest Hfuel.
  - destruct fuel as [|fuel]; [lia |]. rewrite repeat_matcher_S.
    simpl. rewrite Nat.add_0_r, drop_0. reflexivity.
  - destruct fuel as [|fuel]; [lia |]. rewrite repeat_matcher_S. cbv zeta.
    cbn [clear_caps]. change (negb (S n =? 0)) with true. cbv iota.
    rewrite matcher_Sym. destruct rest as [|ch rest]; [reflexivity |].
    cbn [length take forallb]. change (S n <=? S (length rest))
      with (n <=? length rest).
    destruct (p ch); [| by rewrite andb_false_r].
    change (S n =? 0) with false. cbn [andb].
    change (repeat_matcher (matcher (Sym p)) [] greedy fuel
              (Init.Nat.pred (S n)) (Init.Nat.pred <$> Some (S n)))
      with (repeat_matcher (matcher (Sym p)) [] greedy fuel n (Some n)).
    rewrite IH by lia. replace (S pos + n) with (pos + S n) by lia.
    reflexivity.
Qed.

Lemma matcher_times_sym p n pos rest caps c :
  matcher (times n (Sym p)) (MState pos rest caps) c
  = if (n <=? length rest) && forallb p (take n rest)
    then c (MState (pos + n) (drop n rest) caps) else None.
Proof.
  unfold times. rewrite matcher_Rep. cbn [groups m_rest].
  apply repeat_times_sym. lia.
Qed.

(** A success of [p*] splits the input. *)
Lemma star_sym_sound p pos rest caps c z :
  star_sym p pos rest caps c = Some z ->
  exists a b, rest = a ++ b /\ Forall (fun ch => p ch = true) a
              /\ c (MState (pos + length a) b caps) = Some z.
Proof.
  revert pos. induction rest as [|ch rest IH]; intros pos H; simpl in H.
  - exists [], []. simpl. rewrite Nat.add_0_r. by auto.
  - destruct (p ch) eqn:Hp.
    + destruct (star_sym p (S pos) rest caps c) as [z'|] eqn:Hs.
      * inversion H; subst z'. destruct (IH _ Hs) as (a & b & -> & Ha & Hc).
        exists (ch :: a), b. simpl. split; [reflexivity |].
        split; [by constructor |].
        by replace (pos + S (length a)) with (S pos + length a) by lia.
      * exists [], (ch :: rest). simpl. rewrite Nat.add_0_r. by auto.
    + exists [], (ch :: rest). simpl. rewrite Nat.add_0_r. by auto.
Qed.

(** The longest run is tried first. *)
Lemma star_sym_skip p pos a b caps c z :
  Forall (fun ch => p ch = true) a ->
  star_sym p (pos + length a) b caps c = Some z ->
  star_sym p pos (a ++ b) caps c = Some z.
Proof.
  revert pos. induction a as [|ch a IH]; intros pos Ha H; simpl in *.
  - by rewrite Nat.add_0_r in H.
  - inversion Ha as [|? ? Hch Ha']; subst. rewrite Hch.
    rewrite (IH (S pos) Ha'); [reflexivity |].
    by replace (S pos + length a) with (pos + S (length a)) by lia.
Qed.

(** If the continuation fails at every split, so does [p*]. *)
Lemma star_sym_none p pos rest caps c :
  (forall a b, rest = a ++ b -> c (MState (pos + length a) b caps) = None) ->
  star_sym p pos rest caps c = None.
Proof.
  revert pos. induction rest as [|ch rest IH]; intros pos H; simpl.
  - specialize (H [] [] eq_refl). simpl in H. by rewrite Nat.add_0_r in H.
  - assert (H0 : c (MState pos (ch :: rest) caps) = None).
    { specialize (H [] (ch :: rest) eq_refl). simpl in H.
      by rewrite Nat.add_0_r in H. }
    destruct (p ch); [| exact H0].
    rewrite IH; [exact H0 |].
    intros a b ->. specialize (H (ch :: a) b eq_refl). simpl in H.
    by replace (S pos + length a) with (pos + S (length a)) by lia.
Qed.

(** [p*] at the end of a pattern always succeeds and leaves the captures. *)
Lemma star_sym_last p pos rest caps :
  exists y, star_sym p pos rest caps Some = Some y /\ m_caps y = caps.
Proof.
  revert pos. induction rest as [|ch rest IH]; intros pos; simpl.
  - by eexists.
  - destruct (p ch); [| by eexists].
    destruct (IH (S pos)) as (y & -> & Hy). by eexists.
Qed.

(** [p*] succeeds whenever its continuation cannot fail. *)
Lemma star_sym_total p pos rest caps c :
  (forall y, is_Some (c y)) -> is_Some (star_sym p pos rest caps c).
Proof.
  intros Hc. revert pos. induction rest as [|ch rest IH]; intros pos; simpl.
  - apply Hc.
  - destruct (p ch); [| apply Hc].
    destruct (IH (S pos)) as [z ->]. by eexists.
Qed.

(** The search tries every start position, leftmost first. *)
Lemma exec_from_sound r pos rest m :
  exec_from r pos rest = Some m ->
  exists pre suf, rest = pre ++ suf
    /\ matcher r (MState (pos + length pre) suf []) Some = Some (mr_end m).
Proof.
  revert pos. induction rest as [|ch rest IH]; intros pos H; simpl in H.
  - destruct (matcher r (MState pos [] []) Some) as [y|] eqn:Hm; [| done].
    inversion H; subst. exists [], []. simpl. by rewrite Nat.add_0_r.
  - destruct (matcher r (MState pos (ch :: rest) []) Some) as [y|] eqn:Hm.
    + inversion H; subst. exists [], (ch :: rest). simpl.
      by rewrite Nat.add_0_r.
    + destruct (IH _ H) as (pre & suf & -> & Hs).
      exists (ch :: pre), suf. simpl. split; [reflexivity |].
      by replace (pos + S (length pre)) with (S pos + length pre) by lia.
Qed.

Lemma exec_from_none r pos rest :
  (forall pre suf, rest = pre ++ suf ->
     matcher r (MState (pos + length pre) suf []) Some = None) ->
  exec_from r pos rest = None.
Proof.
  revert pos. induction rest as [|ch rest IH]; intros pos H; simpl.
  - specialize (H [] [] eq_refl). simpl in H. rewrite Nat.add_0_r in H.
    by rewrite H.
  - pose proof (H [] (ch :: rest) eq_refl) as H0. simpl in H0.
    rewrite Nat.add_0_r in H0. rewrite H0. apply IH.
    intros pre suf ->. specialize (H (ch :: pre) suf eq_refl). simpl in H.
    by replace (S pos + length pre) with (pos + S (length pre)) by lia.
Qed.

Lemma exec_from_here r pos rest y :
  matcher r (MState pos rest []) Some = Some y ->
  exec_from r pos rest = Some (MatchResult pos y).
Proof. intros H. destruct rest; simpl; by rewrite H. Qed.

Lemma exec_from_complete r pos pre suf :
  is_Some (matcher r (MState (pos + length pre) suf []) Some) ->
  is_Some (exec_from r pos (pre ++ suf)).
Proof.
  revert pos. induction pre as [|ch pre IH]; intros pos [y Hy].
  - simpl in Hy. rewrite Nat.add_0_r in Hy. cbn [app].
    rewrite (exec_from_here _ _ _ _ Hy). by eexists.
  - cbn [app exec_from].
    destruct (matcher r (MState pos (ch :: pre ++ suf) []) Some);
      [by eexists |].
    apply IH. exists y. rewrite <- Hy. f_equal. f_equal. simpl. lia.
Qed.

(** A pattern that starts with [^] matches at position 0 or nowhere. *)
Lemma exec_from_bol r pos rest :
  exec_from (Cat Bol r) (S pos) rest = None.
Proof. revert pos. induction rest as [|ch rest IH]; intros pos; simpl; auto. Qed.

(** Replacing every symbol of a class by one symbol is a [map]. *)
Lemma replace_loop_sym p by_ fuel pos rest :
  length rest < fuel ->
  replace_loop (Sym p) [by_] fuel pos rest
  = map (fun ch => if p ch then by_ else ch) rest.
Proof.
  revert fuel pos. induction rest as [|ch rest IH]; intros fuel pos Hfuel;
    (destruct fuel as [|fuel]; [simpl in Hfuel; lia |]);
    cbn [replace_loop]; rewrite matcher_Sym.
  - reflexivity.
  - cbn [map]. destruct (p ch).
    + cbn [m_pos m_rest]. rewrite succ_eqb_false.
      rewrite IH by (simpl in Hfuel; lia). reflexivity.
    + rewrite IH by (simpl in Hfuel; lia). reflexivity.
Qed.

End RegExpFacts.

(** ** Job-name sanitization *)

Module JobName.
Import RegExpFacts.

Lemma class_is_complement ch :
  (if none_of [range "0" "9"; range "a" "z"; range "A" "Z";
               Ascii.eqb "."; Ascii.eqb "_"; Ascii.eqb "-"] ch
   then "_"%char else ch) = sanitize_char ch.
Proof. destruct ch as [[] [] [] [] [] [] [] []]; vm_compute; reflexivity. Qed.

Lemma sanitize_char_in ch :
  ch ∈ chars job_name_alphabet -> sanitize_char ch = ch.
Proof. intros H. unfold sanitize_char. by rewrite bool_decide_eq_true_2. Qed.

Lemma sanitize_char_out ch :
  ch ∉ chars job_name_alphabet -> sanitize_char ch = "_"%char.
Proof. intros H. unfold sanitize_char. by rewrite bool_decide_eq_false_2. Qed.

Lemma sanitize_char_idem ch : sanitize_char (sanitize_char ch) = sanitize_char ch.
Proof. destruct ch as [[] [] [] [] [] [] [] []]; vm_compute; reflexivity. Qed.

Lemma normalised_chars s :
  chars (_normalisedJobName s) = map sanitize_char (chars s).
Proof.
  unfold _normalisedJobName, replace_all, re_not_job_name_char.
  rewrite list_ascii_of_string_of_list_ascii.
  change (chars "_") with ["_"%char].
  rewrite replace_loop_sym by lia.
  apply map_ext. intros ch. apply class_is_complement.
Qed.

(** C9.  [_normalisedJobName] rewrites its argument character by character:
    a character of [0-9A-Za-z._-] is kept, any other becomes ['_']; applying
    it twice is the same as applying it once. *)
Theorem normalisedJobName_sanitizes_idempotent :
  (forall s, chars (_normalisedJobName s) = map sanitize_char (chars s))
  /\ (forall s,
        _normalisedJobName (_normalisedJobName s) = _normalisedJobName s).
Proof.
  split; [exact normalised_chars |].
  intros s. apply chars_inj. rewrite !normalised_chars, map_map.
  apply map_ext. intros ch. apply sanitize_char_idem.
Qed.

End JobName.

(** ** Phone numbers *)

Module Phone.
Import RegExpFacts.

Ltac step_matcher :=
  repeat (first [ rewrite matcher_Cat | rewrite matcher_Bol
                | rewrite matcher_Eol | rewrite matcher_Grp
                | rewrite matcher_times_sym | rewrite matcher_plus_sym
                | rewrite matcher_star_sym | rewrite matcher_Sym ];
          unfold set_cap; cbn beta iota delta [m_pos m_rest m_caps]).

Lemma digit_decide ch : digit ch = bool_decide (ch ∈ chars "0123456789").
Proof. destruct ch as [[] [] [] [] [] [] [] []]; vm_compute; reflexivity. Qed.

Lemma digit_spec ch : digit ch = true <-> ch ∈ chars "0123456789".
Proof. rewrite digit_decide. apply bool_decide_eq_true. Qed.

Lemma exec_anchored r l :
  exec_from (Cat Bol r) 0 l
  = match matcher (Cat Bol r) (MState 0 l []) Some with
    | Some y => Some (MatchResult 0 y)
    | None => None
    end.
Proof.
  destruct l as [|ch l]; cbn [exec_from];
    destruct (matcher (Cat Bol r) _ Some); try reflexivity.
  apply exec_from_bol.
Qed.

Lemma forallb_take_drop {A} (p : A -> bool) n (l : list A) :
  forallb p (take n l) = true -> forallb p (drop n l) = true ->
  forallb p l = true.
Proof.
  intros H1 H2. rewrite <- (take_drop n l), forallb_app. by rewrite H1, H2.
Qed.

Lemma ten_digits_forallb s :
  length (chars s) = 10 -> forallb digit (chars s) = true -> ten_digits s.
Proof.
  intros Hlen Hall. split; [exact Hlen |].
  intros ch Hin. apply digit_spec.
  rewrite forallb_forall in Hall. apply Hall. by apply list_elem_of_In.
Qed.

Lemma national_sound l z :
  matcher re_national (MState 0 l []) Some = Some z ->
  length l = 10 /\ forallb digit l = true.
Proof.
  unfold re_national. cbn [cat]. step_matcher. cbn [Nat.eqb Nat.add].
  destruct ((2 <=? length l) && forallb digit (take 2 l)) eqn:H1;
    [| discriminate].
  step_matcher.
  destruct ((4 <=? length (drop 2 l)) && forallb digit (take 4 (drop 2 l)))
    eqn:H2; [| discriminate].
  step_matcher.
  destruct ((4 <=? length (drop 4 (drop 2 l)))
            && forallb digit (take 4 (drop 4 (drop 2 l)))) eqn:H3;
    [| discriminate].
  step_matcher.
  destruct (drop 4 (drop 4 (drop 2 l))) eqn:H4; [| discriminate].
  intros _.
  apply andb_true_iff in H1 as [L1 D1], H2 as [L2 D2], H3 as [L3 D3].
  apply Nat.leb_le in L1, L2, L3.
  pose proof (f_equal length H4) as H5.
  rewrite !length_drop in *. simpl in H5.
  split; [lia |].
  apply (forallb_take_drop _ 2); [exact D1 |].
  apply (forallb_take_drop _ 4); [exact D2 |].
  apply (forallb_take_drop _ 4); [exact D3 |].
  by rewrite H4.
Qed.

Lemma mobile_sound l z :
  matcher re_mobile (MState 0 l []) Some = Some z ->
  length l = 10 /\ forallb digit l = true.
Proof.
  unfold re_mobile, chr. cbn [cat]. step_matcher. cbn [Nat.eqb].
  destruct l as [|c0 l]; [discriminate |].
  destruct (Ascii.eqb_spec "0" c0) as [<-|]; [| discriminate].
  step_matcher.
  destruct l as [|c1 l]; [discriminate |].
  destruct (Ascii.eqb_spec "4" c1) as [<-|]; [| discriminate].
  step_matcher.
  destruct ((2 <=? length l) && forallb digit (take 2 l)) eqn:H1;
    [| discriminate].
  step_matcher.
  destruct ((3 <=? length (drop 2 l)) && forallb digit (take 3 (drop 2 l)))
    eqn:H2; [| discriminate].
  step_matcher.
  destruct ((3 <=? length (drop 3 (drop 2 l)))
            && forallb digit (take 3 (drop 3 (drop 2 l)))) eqn:H3;
    [| discriminate].
  step_matcher.
  destruct (drop 3 (drop 3 (drop 2 l))) eqn:H4; [| discriminate].
  intros _.
  apply andb_true_iff in H1 as [L1 D1], H2 as [L2 D2], H3 as [L3 D3].
  apply Nat.leb_le in L1, L2, L3.
  pose proof (f_equal length H4) as H5.
  rewrite !length_drop in *. simpl in H5.
  split; [simpl; lia |].
  change (forallb digit l = true).
  apply (forallb_take_drop _ 2); [exact D1 |].
  apply (forallb_take_drop _ 3); [exact D2 |].
  apply (forallb_take_drop _ 3); [exact D3 |].
  by rewrite H4.
Qed.

Lemma exec_mobile_none s : ~ ten_digits s -> exec re_mobile s = None.
Proof.
  intros Hn. unfold exec. change re_mobile with (Cat Bol (cat
    [Grp 1 (cat [chr "0"; chr "4"; times 2 (Sym digit)]);
     Grp 2 (times 3 (Sym digit)); Grp 3 (times 3 (Sym digit)); Eol])).
  rewrite exec_anchored.
  destruct (matcher _ _ Some) as [z|] eqn:Hm; [| reflexivity].
  destruct Hn. apply mobile_sound in Hm as [? ?]. by apply ten_digits_forallb.
Qed.

Lemma exec_national_none s : ~ ten_digits s -> exec re_national s = None.
Proof.
  intros Hn. unfold exec. change re_national with (Cat Bol (cat
    [Grp 1 (times 2 (Sym digit)); Grp 2 (times 4 (Sym digit));
     Grp 3 (times 4 (Sym digit)); Eol])).
  rewrite exec_anchored.
  destruct (matcher _ _ Some) as [z|] eqn:Hm; [| reflexivity].
  destruct Hn. apply national_sound in Hm as [? ?]. by apply ten_digits_forallb.
Qed.

(** Where [/\+61(\d+)/] matches: at a [+61] that a digit follows. *)
Lemma plus61_here pos suf :
  is_Some (matcher re_plus61 (MState pos suf []) Some)
  <-> exists d post,
        suf = "+"%char :: "6"%char :: "1"%char :: d :: post
        /\ d ∈ chars "0123456789".
Proof.
  unfold re_plus61, chr. cbn [cat]. step_matcher.
  destruct suf as [|c0 suf]; [split; [by intros [? ?] | by intros (?&?&?&?)] |].
  destruct (Ascii.eqb_spec "+" c0) as [<-|];
    [| split; [by intros [? ?] | intros (?&?&?&?); congruence]].
  step_matcher.
  destruct suf as [|c1 suf]; [split; [by intros [? ?] | by intros (?&?&?&?)] |].
  destruct (Ascii.eqb_spec "6" c1) as [<-|];
    [| split; [by intros [? ?] | intros (?&?&?&?); congruence]].
  step_matcher.
  destruct suf as [|c2 suf]; [split; [by intros [? ?] | by intros (?&?&?&?)] |].
  destruct (Ascii.eqb_spec "1" c2) as [<-|];
    [| split; [by intros [? ?] | intros (?&?&?&?); congruence]].
  step_matcher.
  destruct suf as [|d suf]; [split; [by intros [? ?] | by intros (?&?&?&?)] |].
  destruct (digit d) eqn:Hd.
  - split; [intros _; exists d, suf; split; [done | by apply digit_spec] |].
    intros _. apply star_sym_total. intros y. by eexists.
  - split; [by intros [? ?] |].
    intros (d' & post & Heq & Hin). inversion Heq; subst.
    apply digit_spec in Hin. congruence.
Qed.

Lemma exec_plus61_none s : exec re_plus61 s = None <-> ~ has_plus61 s.
Proof.
  split.
  - intros Hnone (pre & d & post & -> & Hd).
    assert (Hs : is_Some (exec re_plus61 (pre +:+ "+61" +:+ String d post))).
    { unfold exec. rewrite chars_app. apply exec_from_complete.
      apply plus61_here. exists d, (chars post). split; [| exact Hd].
      reflexivity. }
    rewrite Hnone in Hs. by destruct Hs.
  - intros Hn. destruct (exec re_plus61 s) as [m|] eqn:Hm; [| reflexivity].
    destruct Hn. unfold exec in Hm.
    apply exec_from_sound in Hm as (pre & suf & Hs & Hm).
    assert (Hsome : is_Some (matcher re_plus61
                               (MState (0 + length pre) suf []) Some))
      by (by eexists).
    apply plus61_here in Hsome as (d & post & -> & Hd).
    exists (string_of_list_ascii pre), d, (string_of_list_ascii post).
    split; [| exact Hd]. apply chars_inj.
    rewrite Hs, !chars_app. simpl.
    by rewrite !list_ascii_of_string_of_list_ascii.
Qed.

End Phone.

Module PhoneClaims.
Import RegExpFacts Phone.

(** C6, as stated, fails: a ten-digit local number does not contain the
    international prefix, yet it is regrouped. *)
Lemma formatPhoneNumber_regroups_local_number :
  exec re_plus61 "0412345678" = None
  /\ formatPhoneNumber "0412345678" = "0412 345 678"
  /\ formatPhoneNumber "0412345678" <> "0412345678".
Proof. split; [| split]; [vm_compute; reflexivity .. | discriminate]. Qed.

(** C6, amended.  [formatPhoneNumber] maps "+61412345678" to "0412 345 678"
    and "+61812341234" to "08 1234 1234"; an input that the international
    prefix pattern does not match and that is not a string of exactly ten
    digits passes through unchanged. *)
Theorem formatPhoneNumber_examples_passthrough (s : string) :
  exec re_plus61 s = None ->
  ~ ten_digits s ->
  formatPhoneNumber "+61412345678" = "0412 345 678"
  /\ formatPhoneNumber "+61812341234" = "08 1234 1234"
  /\ formatPhoneNumber s = s.
Proof.
  intros Hprefix Hten.
  split; [vm_compute; reflexivity |].
  split; [vm_compute; reflexivity |].
  unfold formatPhoneNumber. rewrite Hprefix.
  by rewrite exec_mobile_none, exec_national_none.
Qed.

Lemma formatPhoneNumber_examples_passthrough_witness :
  exec re_plus61 "1300 655 506" = None
  /\ ~ ten_digits "1300 655 506"
  /\ formatPhoneNumber "+61412345678" = "0412 345 678"
  /\ formatPhoneNumber "+61812341234" = "08 1234 1234"
  /\ formatPhoneNumber "1300 655 506" = "1300 655 506".
Proof.
  assert (H1 : exec re_plus61 "1300 655 506" = None)
    by (vm_compute; reflexivity).
  assert (H2 : ~ ten_digits "1300 655 506")
    by (intros [Hlen _]; vm_compute in Hlen; lia).
  split; [exact H1 |]. split; [exact H2 |].
  exact (formatPhoneNumber_examples_passthrough "1300 655 506" H1 H2).
Defined.

End PhoneClaims.

(** ** Contact ids *)

Module ContactId.
Import RegExpFacts Phone.

Lemma contact_id_char_decide ch :
  contact_id_char ch = bool_decide (ch ∈ chars contact_id_alphabet).
Proof. destruct ch as [[] [] [] [] [] [] [] []]; vm_compute; reflexivity. Qed.

Lemma contact_id_char_spec ch :
  contact_id_char ch = true <-> ch ∈ chars contact_id_alphabet.
Proof. rewrite contact_id_char_decide. apply bool_decide_eq_true. Qed.

Lemma is_contact_id_check id :
  id <> "" -> forallb contact_id_char (chars id) = true -> is_contact_id id.
Proof.
  intros Hne Hall. split; [exact Hne |]. intros ch Hin.
  apply contact_id_char_spec. rewrite forallb_forall in Hall.
  apply Hall. by apply list_elem_of_In.
Qed.

Lemma dot_decide ch :
  dot ch = bool_decide (ch ∉ ["010"%char; "013"%char]).
Proof. destruct ch as [[] [] [] [] [] [] [] []]; vm_compute; reflexivity. Qed.

Lemma dot_spec ch : dot ch = true <-> ~ line_terminator ch.
Proof.
  rewrite dot_decide, bool_decide_eq_true. unfold line_terminator.
  rewrite !not_elem_of_cons. split; [intros (?&?&_) [?|?]; done |].
  intros H. split; [| split]; [intros ->; apply H; by left
    | intros ->; apply H; by right | apply not_elem_of_nil].
Qed.

Lemma matcher_contact_id pos rest c :
  matcher re_contact_id (MState pos rest []) c
  = star_sym dot pos rest [] (fun y => matcher re_tail y c).
Proof.
  change re_contact_id with (Cat (star (Sym dot)) re_tail).
  rewrite matcher_Cat. apply matcher_star_sym.
Qed.

Lemma tail_head pos rest caps c :
  head rest <> Some "/"%char ->
  matcher re_tail (MState pos rest caps) c = None.
Proof.
  intros H. unfold re_tail, chr. cbn [cat]. step_matcher.
  destruct rest as [|ch rest]; [reflexivity |].
  destruct (Ascii.eqb_spec "/" ch) as [<-|]; [by destruct H | reflexivity].
Qed.

Lemma tail_sound pos rest caps z :
  matcher re_tail (MState pos rest caps) Some = Some z ->
  exists id s,
    rest = "/"%char :: id ++ "_"%char :: s
    /\ id <> [] /\ Forall (fun ch => contact_id_char ch = true) id.
Proof.
  unfold re_tail, chr. cbn [cat]. step_matcher.
  destruct rest as [|c0 rest]; [discriminate |].
  destruct (Ascii.eqb_spec "/" c0) as [<-|]; [| discriminate].
  step_matcher.
  destruct rest as [|c1 rest]; [discriminate |].
  destruct (contact_id_char c1) eqn:Hc1; [| discriminate].
  intros H. apply star_sym_sound in H as (a & b & -> & Ha & H).
  revert H. step_matcher.
  destruct b as [|c2 b]; [discriminate |].
  destruct (Ascii.eqb_spec "_" c2) as [<-|]; [| discriminate].
  intros _. exists (c1 :: a), b. split; [reflexivity |].
  split; [discriminate | by constructor].
Qed.

Lemma tail_ok pos id s caps :
  id <> [] -> Forall (fun ch => contact_id_char ch = true) id ->
  exists z,
    matcher re_tail (MState pos ("/"%char :: id ++ "_"%char :: s) caps) Some
      = Some z
    /\ m_caps z = (1, string_of_list_ascii id) :: del_cap 1 caps.
Proof.
  intros Hne Hid. destruct id as [|c1 id]; [done |].
  inversion Hid as [|? ? Hc1 Hid']; subst.
  unfold re_tail, chr. cbn [cat]. step_matcher.
  cbn [app]. change (Ascii.eqb "/" "/") with true. cbv iota.
  step_matcher. rewrite Hc1.
  destruct (star_sym_last dot (S (S (S pos) + length id)) s
              ((1, string_of_list_ascii (c1 :: id)) :: del_cap 1 caps))
    as (y & Hy & Hcaps).
  exists y. split; [| exact Hcaps].
  apply star_sym_skip; [exact Hid' |].
  cbn [star_sym]. change (contact_id_char "_") with false. cbv iota.
  step_matcher. change (Ascii.eqb "_" "_") with true. cbv iota.
  step_matcher.
  replace (S (S pos) + length id - S pos) with (S (length id)) by lia.
  change (c1 :: id ++ "_"%char :: s) with ((c1 :: id) ++ "_"%char :: s).
  rewrite take_app_length'; [| reflexivity].
  exact Hy.
Qed.

Lemma suffix_head_not_slash (l a b : list ascii) :
  "/"%char ∉ l -> l = a ++ b -> head b <> Some "/"%char.
Proof.
  intros Hl -> Hb. destruct b as [|ch b]; [discriminate |].
  simpl in Hb. inversion Hb; subst. apply Hl.
  apply elem_of_app. right. by left.
Qed.

Lemma capture_first i s caps pos y :
  m_caps y = (i, s) :: caps ->
  capture (MatchResult pos y) i = VStr s.
Proof.
  intros H. unfold capture. cbn [mr_end]. rewrite H.
  by rewrite filter_cons_True.
Qed.

Lemma contact_id_found (p id s : list ascii) :
  Forall (fun ch => dot ch = true) p ->
  id <> [] -> Forall (fun ch => contact_id_char ch = true) id ->
  "/"%char ∉ s ->
  exists z,
    exec_from re_contact_id 0 (p ++ "/"%char :: id ++ "_"%char :: s)
      = Some (MatchResult 0 z)
    /\ m_caps z = [(1, string_of_list_ascii id)].
Proof.
  intros Hp Hne Hid Hs.
  destruct (tail_ok (0 + length p) id s [] Hne Hid) as (z & Hz & Hcaps).
  exists z. split; [| exact Hcaps].
  apply exec_from_here. rewrite matcher_contact_id.
  apply star_sym_skip; [exact Hp |].
  cbn [star_sym]. change (dot "/") with true. cbv iota.
  rewrite star_sym_none; [exact Hz |].
  intros a b Hab. apply tail_head.
  apply (suffix_head_not_slash (id ++ "_"%char :: s) a b); [| exact Hab].
  rewrite elem_of_app, elem_of_cons. intros [Hin | [Heq | Hin]];
    [| discriminate | by apply Hs].
  rewrite Forall_forall in Hid. specialize (Hid _ Hin). discriminate Hid.
Qed.

Lemma contact_id_sound (l : list ascii) m :
  exec_from re_contact_id 0 l = Some m ->
  exists p id s,
    l = p ++ "/"%char :: id ++ "_"%char :: s
    /\ id <> [] /\ Forall (fun ch => contact_id_char ch = true) id.
Proof.
  intros H. apply exec_from_sound in H as (pre & suf & -> & H).
  rewrite matcher_contact_id in H.
  apply star_sym_sound in H as (a & b & -> & _ & H).
  apply tail_sound in H as (id & s & -> & Hne & Hid).
  exists (pre ++ a), id, s. by rewrite <- app_assoc.
Qed.

Lemma is_contact_id_chars id :
  is_contact_id id ->
  chars id <> [] /\ Forall (fun ch => contact_id_char ch = true) (chars id).
Proof.
  intros [Hne Hall]. split.
  - intros Hnil. apply Hne. apply chars_inj. by rewrite Hnil.
  - apply Forall_forall. intros ch Hin.
    apply contact_id_char_spec. by apply Hall.
Qed.

Lemma chars_key prefix id suffix :
  chars (prefix +:+ "/" +:+ id +:+ "_" +:+ suffix)
  = chars prefix ++ "/"%char :: chars id ++ "_"%char :: chars suffix.
Proof. by rewrite !chars_app. Qed.

(** A key may be read as [<prefix>/<contactId>_<suffix>] in more than one
    way: of the segments of that shape on one line, the last one gives the
    contact id. *)
Lemma contactId_takes_last_segment :
  "a/abc_d/xyz_1" = "a" +:+ "/" +:+ "abc" +:+ "_" +:+ "d/xyz_1"
  /\ is_contact_id "abc"
  /\ contactIdFromObjectKey "a/abc_d/xyz_1" = Ok "xyz"
  /\ contactIdFromObjectKey "a/abc_d/xyz_1" <> Ok "abc".
Proof.
  split; [reflexivity |]. split; [| split; [vm_compute; reflexivity |]].
  - by apply is_contact_id_check.
  - vm_compute. discriminate.
Qed.

(** The pattern is not anchored and [.] stops at a line terminator: of a key
    of several lines, the first line that holds a contact id gives it. *)
Example contactId_first_line :
  contactIdFromObjectKey ("x/aa_b" +:+ newline +:+ "y/cc_d") = Ok "aa".
Proof. vm_compute. reflexivity. Qed.

(** The keys that Amazon Connect writes: for a key
    [<prefix>/<contactId>_<suffix>] whose [<contactId>] is a non-empty string
    over [A-Za-z0-9-], whose [<prefix>] holds no line terminator and whose
    [<suffix>] holds no ['/'], so that [<contactId>_<suffix>] is the last
    path segment, extraction returns exactly [<contactId>]; for a key that is
    not of the form [<prefix>/<contactId>_<suffix>] for any such
    [<contactId>], extraction throws the format error. *)
Lemma contactId_path_like :
  (forall prefix id suffix,
     is_contact_id id ->
     (forall ch, ch ∈ chars prefix -> ~ line_terminator ch) ->
     "/"%char ∉ chars suffix ->
     contactIdFromObjectKey (prefix +:+ "/" +:+ id +:+ "_" +:+ suffix) = Ok id)
  /\ (forall key,
        ~ (exists prefix id suffix,
             key = prefix +:+ "/" +:+ id +:+ "_" +:+ suffix
             /\ is_contact_id id) ->
        contactIdFromObjectKey key
        = Throw (TypeError "Unexpected objectKey format")).
Proof.
  split.
  - intros prefix id suffix Hid Hprefix Hsuffix.
    apply is_contact_id_chars in Hid as [Hne Hid].
    assert (Hp : Forall (fun ch => dot ch = true) (chars prefix)).
    { apply Forall_forall. intros ch Hin. apply dot_spec. by apply Hprefix. }
    destruct (contact_id_found _ _ _ Hp Hne Hid Hsuffix) as (z & Hz & Hcaps).
    unfold contactIdFromObjectKey, exec. rewrite chars_key, Hz.
    rewrite (capture_first _ _ _ _ _ Hcaps).
    by rewrite string_of_list_ascii_of_string.
  - intros key Hnone. unfold contactIdFromObjectKey, exec.
    destruct (exec_from re_contact_id 0 (chars key)) as [m|] eqn:Hm;
      [| reflexivity].
    destruct Hnone. apply contact_id_sound in Hm as (p & id & s & Hkey & Hne & Hid).
    exists (string_of_list_ascii p), (string_of_list_ascii id),
      (string_of_list_ascii s).
    split.
    + apply chars_inj.
      by rewrite chars_key, !list_ascii_of_string_of_list_ascii.
    + split.
      * intros Heq. apply Hne.
        by rewrite <- (list_ascii_of_string_of_list_ascii id), Heq.
      * intros ch Hin. rewrite list_ascii_of_string_of_list_ascii in Hin.
        apply contact_id_char_spec.
        rewrite Forall_forall in Hid. by apply Hid.
Qed.

Lemma contactId_path_like_examples :
  contactIdFromObjectKey
    ("calls/2018/06" +:+ "/" +:+ "abc-123" +:+ "_" +:+ "20180619T07:02_UTC.wav")
  = Ok "abc-123"
  /\ contactIdFromObjectKey "voicemail.wav"
     = Throw (TypeError "Unexpected objectKey format").
Proof.
  split.
  - apply (proj1 contactId_path_like).
    + by apply is_contact_id_check.
    + intros ch Hin. apply dot_spec. revert ch Hin. apply Forall_forall.
      by repeat constructor.
    + apply (bool_decide_unpack _). vm_compute. exact I.
  - apply (proj2 contactId_path_like).
    intros (prefix & id & suffix & Hkey & _).
    apply (f_equal chars) in Hkey. rewrite chars_key in Hkey.
    assert (Hin : "/"%char ∈ chars "voicemail.wav").
    { rewrite Hkey. apply elem_of_app. right. by left. }
    apply (bool_decide_pack _) in Hin. vm_compute in Hin. exact Hin.
Defined.

End ContactId.

(** ** Polling *)

Module AwaitJob.

Lemma poll_S E jobName w n job t :
  poll E jobName w (S n) job t
  = match Transcribe_getTranscriptionJob E t jobName with
    | Ok j =>
        if negb (String.eqb TRANSCRIBE_PENDING (TranscriptionJobStatus j))
        then (Ok (Some j), t ++ [TranscribeGetJob jobName])
        else poll E jobName w n (Some j)
                  ((t ++ [TranscribeGetJob jobName]) ++ [Wait w])
    | Throw e => (Throw e, t ++ [TranscribeGetJob jobName])
    end.
Proof.
  cbn [poll]. unfold bind, getTranscriptionJob, request, _wait, emit, ret.
  destruct (Transcribe_getTranscriptionJob E t jobName) as [j|e];
    [| reflexivity].
  destruct (negb _); reflexivity.
Qed.

Lemma awaitJob_unfold E jobName waitSeconds t :
  awaitJob E jobName waitSeconds t
  = match poll E jobName (waitBetweenRetries waitSeconds) TRIES None
                (t ++ [Wait INITIAL_WAIT_MS]) with
    | (Ok job, t') => transcriptOf E job t'
    | (Throw e, t') => (Throw e, t')
    end.
Proof. reflexivity. Qed.

Lemma waits_app t1 t2 : waits (t1 ++ t2) = waits t1 ++ waits t2.
Proof. apply omap_app. Qed.

Lemma turns_S (t : list call) jobName w i :
  (t ++ pending_turn jobName w) ++ concat (replicate i (pending_turn jobName w))
  = t ++ concat (replicate (S i) (pending_turn jobName w)).
Proof. by rewrite <- app_assoc. Qed.

(** While the job stays pending the loop runs to its end. *)
Lemma poll_pending E jobName w n : forall job t,
  (forall i, i < n ->
     pending_at E jobName (t ++ concat (replicate i (pending_turn jobName w)))) ->
  exists job',
    poll E jobName w n job t
    = (Ok job', t ++ concat (replicate n (pending_turn jobName w)))
    /\ (n = 0 /\ job' = job
        \/ exists j, job' = Some j
                     /\ TranscriptionJobStatus j = TRANSCRIBE_PENDING).
Proof.
  induction n as [|n IH]; intros job t H.
  - exists job. simpl. rewrite app_nil_r. split; [reflexivity | by left].
  - rewrite poll_S.
    destruct (H 0) as (j & Hget & Hj); [lia |]. simpl in Hget.
    rewrite app_nil_r in Hget. rewrite Hget, Hj.
    change (negb (TRANSCRIBE_PENDING =? TRANSCRIBE_PENDING)%string) with false.
    cbv iota. rewrite <- app_assoc. change ([TranscribeGetJob jobName] ++ [Wait w])
      with (pending_turn jobName w).
    destruct (IH (Some j) (t ++ pending_turn jobName w))
      as (job' & Hpoll & Hjob).
    { intros i Hi. rewrite turns_S. apply H. lia. }
    exists job'. rewrite Hpoll, turns_S. split; [reflexivity |]. right.
    destruct Hjob as [[_ ->]|Hjob]; [by exists j | exact Hjob].
Qed.

(** A job found failed at check [k] ends the loop there. *)
Lemma poll_fails E jobName w n k reason : forall job t,
  k < n ->
  (forall i, i < k ->
     pending_at E jobName (t ++ concat (replicate i (pending_turn jobName w)))) ->
  failed_at E jobName (t ++ concat (replicate k (pending_turn jobName w)))
            reason ->
  exists j,
    poll E jobName w n job t
    = (Ok (Some j),
       t ++ concat (replicate k (pending_turn jobName w))
         ++ [TranscribeGetJob jobName])
    /\ TranscriptionJobStatus j = TRANSCRIBE_FAILED
    /\ FailureReason j = reason.
Proof.
  revert k. induction n as [|n IH]; intros k job t Hk Hpend Hfail; [lia |].
  rewrite poll_S. destruct k as [|k].
  - destruct Hfail as (j & Hj & Hst & Hr). simpl in Hj.
    rewrite app_nil_r in Hj. rewrite Hj, Hst.
    exists j. split; [reflexivity | done].
  - destruct (Hpend 0) as (j & Hj & Hst); [lia |]. simpl in Hj.
    rewrite app_nil_r in Hj. rewrite Hj, Hst.
    change (negb (TRANSCRIBE_PENDING =? TRANSCRIBE_PENDING)%string) with false.
    cbv iota. rewrite <- app_assoc. change ([TranscribeGetJob jobName] ++ [Wait w])
      with (pending_turn jobName w).
    destruct (IH k (Some j) (t ++ pending_turn jobName w)) as (j' & Hp & Hj').
    + lia.
    + intros i Hi. rewrite turns_S. apply Hpend. lia.
    + by rewrite turns_S.
    + exists j'. rewrite Hp. split; [| exact Hj'].
      f_equal. rewrite <- !app_assoc. reflexivity.
Qed.

(** Whatever the collaborator answers, the loop sends a first status check,
    waits the same delay after each check that finds the job pending, and
    does not end with [job] unset. *)
Lemma poll_shape E jobName w n : forall job t,
  exists k r rest,
    k <= S n
    /\ poll E jobName w (S n) job t = (r, t ++ TranscribeGetJob jobName :: rest)
    /\ waits rest = replicate k w
    /\ r <> Ok None.
Proof.
  induction n as [|n IH]; intros job t; rewrite poll_S.
  - destruct (Transcribe_getTranscriptionJob E t jobName) as [j|e].
    + destruct (negb _).
      * exists 0, (Ok (Some j)), []. split; [lia |]. by repeat split.
      * exists 1. cbn [poll]. unfold ret. eexists _, [Wait w].
        split; [lia |]. split; [by rewrite <- app_assoc |].
        split; [reflexivity | discriminate].
    + exists 0, (Throw e), []. split; [lia |]. by repeat split.
  - destruct (Transcribe_getTranscriptionJob E t jobName) as [j|e].
    + destruct (negb _).
      * exists 0, (Ok (Some j)), []. split; [lia |]. by repeat split.
      * destruct (IH (Some j) ((t ++ [TranscribeGetJob jobName]) ++ [Wait w]))
          as (k & r & rest & Hk & Hp & Hw & Hr).
        exists (S k), r, (Wait w :: TranscribeGetJob jobName :: rest).
        split; [lia |]. split; [| split; [| exact Hr]].
        -- rewrite Hp. f_equal. rewrite <- !app_assoc. reflexivity.
        -- cbn. f_equal. exact Hw.
    + exists 0, (Throw e), []. split; [lia |]. by repeat split.
Qed.

End AwaitJob.

Module AwaitJobClaims.
Import AwaitJob Harness.

Lemma transcriptOf_waits E job t :
  waits (snd (transcriptOf E job t)) = waits t.
Proof.
  unfold transcriptOf. destruct job as [j|]; [| reflexivity].
  destruct (String.eqb TRANSCRIBE_COMPLETED (TranscriptionJobStatus j)).
  - unfold bind, lift, request, ret.
    destruct (get_prop (Transcript j) "TranscriptFileUri") as [url|e];
      [| reflexivity].
    destruct (axios_get_transcripts E t url) as [[|first l]|e]; cbn [snd];
      try (destruct (get_prop first "transcript"); cbn [snd]);
      rewrite waits_app; cbn; by rewrite app_nil_r.
  - destruct (String.eqb TRANSCRIBE_FAILED (TranscriptionJobStatus j));
      reflexivity.
Qed.

(** Whatever the job does, every delay after the first is the one value
    computed before the loop, and there are at most [TRIES] of them. *)
Lemma awaitJob_delays E jobName waitSeconds t :
  exists k, k <= TRIES
    /\ waits (snd (awaitJob E jobName waitSeconds t))
       = waits t ++ INITIAL_WAIT_MS
           :: replicate k (waitBetweenRetries waitSeconds).
Proof.
  rewrite awaitJob_unfold.
  destruct (poll_shape E jobName (waitBetweenRetries waitSeconds) 5 None
              (t ++ [Wait INITIAL_WAIT_MS])) as (k & r & rest & Hk & Hp & Hw & _).
  exists k. split; [exact Hk |].
  change TRIES with 6. rewrite Hp.
  assert (Hwaits :
    waits ((t ++ [Wait INITIAL_WAIT_MS]) ++ TranscribeGetJob jobName :: rest)
    = waits t ++ INITIAL_WAIT_MS :: replicate k (waitBetweenRetries waitSeconds)).
  { rewrite !waits_app.
    change (waits (TranscribeGetJob jobName :: rest)) with (waits rest).
    change (waits [Wait INITIAL_WAIT_MS]) with [INITIAL_WAIT_MS].
    rewrite Hw, <- app_assoc. reflexivity. }
  destruct r as [job|e]; [| exact Hwaits].
  by rewrite transcriptOf_waits.
Qed.

Lemma awaitJob_all_pending E jobName waitSeconds t :
  every_check_pending E jobName waitSeconds t ->
  awaitJob E jobName waitSeconds t
  = (Ok VUndefined,
     history_before_check t jobName (waitBetweenRetries waitSeconds) TRIES).
Proof.
  intros H. rewrite awaitJob_unfold.
  destruct (poll_pending E jobName (waitBetweenRetries waitSeconds) TRIES None
              (t ++ [Wait INITIAL_WAIT_MS])) as (job & Hp & Hjob).
  { intros i Hi. specialize (H i Hi). unfold history_before_check in H.
    by rewrite <- app_assoc. }
  rewrite Hp. destruct Hjob as [[Hn _]|(j & -> & Hj)]; [discriminate Hn |].
  unfold transcriptOf. rewrite Hj. cbn.
  unfold history_before_check. by rewrite <- app_assoc.
Qed.

(** C3.  With the handler's budget of 240 seconds, the delay after a status
    check is (240000 - 60000) / 6 milliseconds; whatever the job does,
    [awaitJob] waits the initial 60000 ms and then that one delay, computed
    before the loop, after each of at most 6 checks; and when every check
    finds the job pending, the delays are the initial one and six of those,
    and they add up to no more than the 240000 ms of the budget. *)
Theorem awaitJob_wait_schedule E jobName t :
  (waitBetweenRetries TRANSCRIBE_WAIT_SECONDS == (240000 - 60000) / 6)%Q
  /\ (exists k, k <= 6
        /\ waits (snd (awaitJob E jobName TRANSCRIBE_WAIT_SECONDS t))
           = waits t ++ INITIAL_WAIT_MS
               :: replicate k (waitBetweenRetries TRANSCRIBE_WAIT_SECONDS))
  /\ (every_check_pending E jobName TRANSCRIBE_WAIT_SECONDS t ->
      waits (snd (awaitJob E jobName TRANSCRIBE_WAIT_SECONDS t))
      = waits t ++ INITIAL_WAIT_MS
          :: replicate 6 (waitBetweenRetries TRANSCRIBE_WAIT_SECONDS)
      /\ (Qsum (INITIAL_WAIT_MS
                  :: replicate 6 (waitBetweenRetries TRANSCRIBE_WAIT_SECONDS))
          <= TRANSCRIBE_WAIT_SECONDS * 1000)%Q).
Proof.
  split; [vm_compute; reflexivity |].
  split; [apply awaitJob_delays |].
  intros H. split; [| vm_compute; discriminate].
  rewrite (awaitJob_all_pending _ _ _ _ H). cbn [snd].
  unfold history_before_check. rewrite waits_app. reflexivity.
Qed.

Lemma always_pending_every_check jobName waitSeconds t publish logs :
  every_check_pending (surroundings publish logs always_pending) jobName
                      waitSeconds t.
Proof. intros i _. by eexists. Qed.

Lemma awaitJob_wait_schedule_witness :
  waits (snd (awaitJob (surroundings publish_ok voicemail_logs always_pending)
                       "job-1" TRANSCRIBE_WAIT_SECONDS []))
  = INITIAL_WAIT_MS :: replicate 6 (waitBetweenRetries TRANSCRIBE_WAIT_SECONDS)
  /\ (Qsum (INITIAL_WAIT_MS
              :: replicate 6 (waitBetweenRetries TRANSCRIBE_WAIT_SECONDS))
      <= TRANSCRIBE_WAIT_SECONDS * 1000)%Q.
Proof.
  exact (proj2 (proj2 (awaitJob_wait_schedule
                         (surroundings publish_ok voicemail_logs always_pending)
                         "job-1" []))
               (always_pending_every_check "job-1" TRANSCRIBE_WAIT_SECONDS []
                                           publish_ok voicemail_logs)).
Defined.

(** C4.  When every status check finds the job pending, [awaitJob] makes its
    six checks and returns [undefined]; it throws nothing. *)
Theorem awaitJob_budget_exhausted E jobName waitSeconds t :
  every_check_pending E jobName waitSeconds t ->
  awaitJob E jobName waitSeconds t
  = (Ok VUndefined,
     t ++ Wait INITIAL_WAIT_MS
       :: concat (replicate 6 [TranscribeGetJob jobName;
                               Wait (waitBetweenRetries waitSeconds)])).
Proof. apply awaitJob_all_pending. Qed.

Lemma awaitJob_budget_exhausted_witness :
  awaitJob (surroundings publish_ok voicemail_logs always_pending)
           "job-1" TRANSCRIBE_WAIT_SECONDS []
  = (Ok VUndefined,
     Wait INITIAL_WAIT_MS
       :: concat (replicate 6
                    [TranscribeGetJob "job-1";
                     Wait (waitBetweenRetries TRANSCRIBE_WAIT_SECONDS)])).
Proof.
  exact (awaitJob_budget_exhausted
           (surroundings publish_ok voicemail_logs always_pending)
           "job-1" TRANSCRIBE_WAIT_SECONDS []
           (always_pending_every_check "job-1" TRANSCRIBE_WAIT_SECONDS []
                                       publish_ok voicemail_logs)).
Defined.

(** C10.  In every run of [awaitJob] the loop sends at least one status
    check, and when the loop ends normally the variable [job] holds a job:
    the code after the loop never reads the status of [null]. *)
Theorem awaitJob_job_is_set E jobName waitSeconds t :
  exists r rest,
    poll E jobName (waitBetweenRetries waitSeconds) TRIES None
         (t ++ [Wait INITIAL_WAIT_MS])
    = (r, (t ++ [Wait INITIAL_WAIT_MS]) ++ TranscribeGetJob jobName :: rest)
    /\ r <> Ok None
    /\ awaitJob E jobName waitSeconds t
       = match r with
         | Ok job =>
             transcriptOf E job
               ((t ++ [Wait INITIAL_WAIT_MS])
                  ++ TranscribeGetJob jobName :: rest)
         | Throw e =>
             (Throw e,
              (t ++ [Wait INITIAL_WAIT_MS]) ++ TranscribeGetJob jobName :: rest)
         end.
Proof.
  destruct (poll_shape E jobName (waitBetweenRetries waitSeconds) 5 None
              (t ++ [Wait INITIAL_WAIT_MS])) as (k & r & rest & _ & Hp & _ & Hr).
  exists r, rest. change TRIES with 6. split; [exact Hp |].
  split; [exact Hr |]. rewrite awaitJob_unfold. change TRIES with 6.
  rewrite Hp. by destruct r.
Qed.

End AwaitJobClaims.

(** ** The handler *)

Module HandlerFacts.
Import AwaitJob.

(** Awaiting a call at once is running it: [await f(x)] is [f x]. *)
Lemma await_spawn {A : Type} (m : M A) t :
  bind (spawn m) await t = m t.
Proof. unfold bind, spawn, await, lift. by destruct (m t) as [[a|e] t']. Qed.

(** A call that is not awaited throws nothing to its caller. *)
Lemma spawn_never_throws {A : Type} (m : M A) t :
  exists p, spawn m t = (Ok p, snd (m t)).
Proof. unfold spawn. destruct (m t) as [r t']. by exists r. Qed.

Lemma loginSignal_run E t : loginSignal E t = (Ok tt, t ++ login_calls E).
Proof.
  unfold loginSignal, try_catch, bind, spawn, sendLoginEvent, sns_publish,
    login_calls, login_message, request, throw, ret.
  destruct (truthy _); cbn; [reflexivity | by rewrite app_nil_r].
Qed.

Lemma process_unfold E event t :
  process E event t
  = match pipeline E event (t ++ login_calls E) with
    | (Ok v, t1) => (Ok v, t1)
    | (Throw err, t1) => escalate E err t1
    end.
Proof.
  unfold process, bind, try_catch. by rewrite loginSignal_run.
Qed.

Lemma pipeline_unfold E event t :
  pipeline E event t
  = match enrich E event t with
    | (Ok v, t1) => deliver E v t1
    | (Throw e, t1) => (Throw e, t1)
    end.
Proof. reflexivity. Qed.

Lemma alertMessage_truthy err : truthy (VStr (alertMessage err)) = true.
Proof. reflexivity. Qed.

Lemma escalate_run E err t :
  escalate E err t
  = (match SNS_publish E (t ++ [ConsoleError err]) (NOTIFICATION_TOPIC E)
                       (VStr ALERT_SUBJECT) (alertMessage err) with
     | Ok _ => Throw err
     | Throw err' => Throw err'
     end,
     t ++ [ConsoleError err; alert_call E err]).
Proof.
  unfold escalate, bind, emit, sns_publish, request, throw, alert_call.
  rewrite alertMessage_truthy. cbn [negb].
  destruct (SNS_publish E _ _ _ _); by rewrite <- app_assoc.
Qed.

Lemma parseCallAttribute_trace E event attributes t :
  snd (parseCallAttribute E event attributes t) = t.
Proof.
  unfold parseCallAttribute, bind, lift, ret.
  destruct (JSON_parse E event) as [message|e]; [| reflexivity].
  destruct (get_prop message "Parameters") as [parameters|e]; [| reflexivity].
  assert (Hd : snd (destructure_Key_Value parameters t) = t).
  { unfold destructure_Key_Value, bind, lift, ret, throw.
    destruct parameters; try reflexivity;
      destruct (assoc "Key" _); reflexivity. }
  destruct (destructure_Key_Value parameters t) as [[[Key Value]|e] t'];
    cbn [snd] in Hd; subst t'; [| reflexivity].
  unfold formatAttribute, throw, ret.
  destruct (is_string Key "callingNumber"); [| reflexivity].
  by destruct Value.
Qed.

Lemma parseCallAttributes_from_trace E events : forall attributes t,
  snd (parseCallAttributes_from E events attributes t) = t.
Proof.
  induction events as [|event events IH]; intros attributes t; [reflexivity |].
  cbn [parseCallAttributes_from]. unfold bind at 1.
  pose proof (parseCallAttribute_trace E event attributes t) as Hp.
  destruct (parseCallAttribute E event attributes t) as [[a|e] t'];
    cbn [snd] in Hp; subst t'; [apply IH | reflexivity].
Qed.

(** Enrichment asks one thing of the outside world: the log search. *)
Lemma enrich_trace E event t voicemail t1 :
  enrich E event t = (Ok voicemail, t1) ->
  exists pattern start,
    t1 = t ++ [CwlFilterLogEvents (CONNECT_LOG_GROUP E) pattern start].
Proof.
  unfold enrich, bind at 1, getS3ObjectInfo.
  destruct (head event) as [record|]; [| discriminate].
  unfold bind at 1, lift at 1.
  destruct (decodeURIComponent E _) as [objectKey|e]; [| discriminate].
  unfold ret at 1. unfold bind at 1, lift at 1.
  destruct (contactIdFromObjectKey _) as [contactId|e]; [| discriminate].
  unfold addCallAttributes, bind at 1, getContactFlowLogs, bind at 1, history,
    cwl_filterLogEvents, request.
  destruct (CWL_filterLogEvents E _ _ _ _) as [events|e]; [| discriminate].
  unfold bind at 1, parseCallAttributes.
  match goal with
  | |- context [parseCallAttributes_from E events ∅ ?t0] =>
      pose proof (parseCallAttributes_from_trace E events ∅ t0) as Htrace
  end.
  destruct (parseCallAttributes_from E events ∅ _) as [[attributes|e] t'];
    [| discriminate].
  cbn [snd] in Htrace. subst t'. unfold ret. intros H. inversion H; subst.
  by eexists _, _.
Qed.

Lemma deliver_skip E voicemail t :
  truthy (field voicemail "voicemail") = false ->
  deliver E voicemail t = (Ok success, t).
Proof. intros H. unfold deliver. by rewrite H. Qed.

(** A job found failed makes [awaitJob] throw, with the reported reason. *)
Lemma awaitJob_fails E jobName waitSeconds t k reason :
  check_fails E jobName waitSeconds t k reason ->
  awaitJob E jobName waitSeconds t
  = (Throw (TranscriptionFailure reason),
     history_before_check t jobName (waitBetweenRetries waitSeconds) k
       ++ [TranscribeGetJob jobName]).
Proof.
  intros (Hk & Hpend & Hfail). rewrite awaitJob_unfold.
  destruct (poll_fails E jobName (waitBetweenRetries waitSeconds) TRIES k reason
              None (t ++ [Wait INITIAL_WAIT_MS]) Hk) as (j & Hp & Hst & Hr).
  - intros i Hi. specialize (Hpend i Hi). unfold history_before_check in Hpend.
    by rewrite <- app_assoc.
  - unfold history_before_check in Hfail. by rewrite <- app_assoc.
  - rewrite Hp. unfold transcriptOf. rewrite Hst, Hr.
    unfold history_before_check. cbn. by rewrite <- !app_assoc.
Qed.

Lemma startJob_trace E uri format t job t' :
  startJob E uri format t = (Ok job, t') ->
  exists c, t' = t ++ [c] /\ is_alert c = false /\ is_console_log c = false.
Proof.
  unfold startJob, bind at 1.
  destruct uri; unfold throw, ret; try discriminate.
  unfold bind, history, request. intros H. inversion H; subst.
  by eexists.
Qed.

Lemma filter_turns (f : call -> bool) jobName w k :
  f (TranscribeGetJob jobName) = false -> f (Wait w) = false ->
  List.filter f (concat (replicate k (pending_turn jobName w))) = [].
Proof.
  intros H1 H2. induction k as [|k IH]; [reflexivity |].
  cbn [replicate concat pending_turn app List.filter]. by rewrite H1, H2.
Qed.

End HandlerFacts.

Module HandlerClaims.
Import AwaitJob HandlerFacts Harness Scenario.

Lemma deliver_job_fails E voicemail t1 job t2 err t3 :
  truthy (field voicemail "voicemail") = true ->
  startJob E (field voicemail "objectUrl") VUndefined t1 = (Ok job, t2) ->
  awaitJob E (TranscriptionJobName job) TRANSCRIBE_WAIT_SECONDS t2
  = (Throw err, t3) ->
  deliver E voicemail t1 = (Throw err, t3).
Proof.
  intros Hv Hstart Hawait. unfold deliver. rewrite Hv. cbn [negb].
  unfold bind at 1, transcribeRecording, bind at 1.
  by rewrite Hstart, Hawait.
Qed.

Lemma sendNotification_run E voicemail h :
  sendNotification E voicemail h
  = let subject :=
      VStr (notificationSubject (field voicemail "purpose")
                                (field voicemail "callingNumber")) in
    let message :=
      notificationText voicemail
        (DateTime_fromISO_format E (NOTIFICATION_TIMEZONE E)
                                 (field voicemail "creationDate"))
        (DateTime_local_plus_days_format E h (NOTIFICATION_TIMEZONE E)
                                         (LINK_EXPIRY_IN_DAYS E)) in
    (SNS_publish E h (NOTIFICATION_TOPIC E) subject message,
     h ++ [SnsPublish (NOTIFICATION_TOPIC E) subject message]).
Proof. reflexivity. Qed.

Lemma published_one h topic subject message :
  published (drop (length h) (h ++ [SnsPublish topic subject message]))
  = [(topic, subject)].
Proof. by rewrite drop_app_length. Qed.

Lemma login_calls_no_alert E : List.filter is_alert (login_calls E) = [].
Proof. unfold login_calls. by destruct (truthy _). Qed.

Lemma login_calls_no_log E : List.filter is_console_log (login_calls E) = [].
Proof. unfold login_calls. by destruct (truthy _). Qed.

(** C1, as stated, fails: the alert about a failed job is published to the
    topic of the end-user notifications, and nothing is published to any
    topic but that one and the agent-login one; and when the alert publish
    fails, the error of the job is not the one rethrown. *)
Lemma alert_shares_topic_and_may_mask :
  published (snd (process job_fails event []))
  = [("arn:aws:sns:ap-southeast-2:1:agent-login", VUndefined);
     ("arn:aws:sns:ap-southeast-2:1:voicemail",
      VStr "Voicemail processing failure")]
  /\ published (snd (process login_succeeds event []))
     = [("arn:aws:sns:ap-southeast-2:1:agent-login", VUndefined);
        ("arn:aws:sns:ap-southeast-2:1:voicemail",
         VStr "[ billing] Voice-mail from 0412 345 678")]
  /\ fst (process alert_fails event [])
     = Throw (Exn "AuthorizationError" "not authorized to publish").
Proof. repeat split; vm_compute; reflexivity. Qed.

(** C1, amended.  When the transcription job reports [FAILED] with a reason,
    [awaitJob] throws the error "Transcription failure: <reason>"; the handler
    publishes exactly one alert, to [NOTIFICATION_TOPIC], which is also the
    topic of the end-user notifications; and, the alert publish succeeding,
    the handler rethrows that error. *)
Theorem failed_job_alerts_and_rethrows
    E event t voicemail t1 job t2 k reason receipt :
  enrich E event (t ++ login_calls E) = (Ok voicemail, t1) ->
  truthy (field voicemail "voicemail") = true ->
  startJob E (field voicemail "objectUrl") VUndefined t1 = (Ok job, t2) ->
  check_fails E (TranscriptionJobName job) TRANSCRIBE_WAIT_SECONDS t2 k reason ->
  SNS_publish E
    (history_at_failure t2 (TranscriptionJobName job) k
       ++ [ConsoleError (TranscriptionFailure reason)])
    (NOTIFICATION_TOPIC E) (VStr ALERT_SUBJECT)
    (alertMessage (TranscriptionFailure reason)) = Ok receipt ->
  awaitJob E (TranscriptionJobName job) TRANSCRIBE_WAIT_SECONDS t2
  = (Throw (TranscriptionFailure reason),
     history_at_failure t2 (TranscriptionJobName job) k)
  /\ (exists calls,
        process E event t = (Throw (TranscriptionFailure reason), t ++ calls)
        /\ List.filter is_alert calls
           = [SnsPublish (NOTIFICATION_TOPIC E) (VStr ALERT_SUBJECT)
                (alertMessage (TranscriptionFailure reason))])
  /\ (forall v h,
        published (drop (length h) (snd (sendNotification E v h)))
        = [(NOTIFICATION_TOPIC E,
            VStr (notificationSubject (field v "purpose")
                                      (field v "callingNumber")))]).
Proof.
  intros Henrich Hv Hstart Hfail Hpublish.
  pose proof (awaitJob_fails _ _ _ _ _ _ Hfail) as Hawait.
  fold (history_at_failure t2 (TranscriptionJobName job) k) in Hawait.
  split; [exact Hawait |]. split.
  - destruct (enrich_trace _ _ _ _ _ Henrich) as (pattern & start & Ht1).
    destruct (startJob_trace _ _ _ _ _ _ Hstart) as (c & Ht2 & Hc & _).
    eexists. split.
    + rewrite process_unfold, pipeline_unfold, Henrich.
      rewrite (deliver_job_fails _ _ _ _ _ _ _ Hv Hstart Hawait).
      rewrite escalate_run, Hpublish.
      unfold history_at_failure, history_before_check. subst t2 t1.
      rewrite <- !app_assoc. reflexivity.
    + rewrite !List.filter_app, login_calls_no_alert. cbn [List.filter app].
      rewrite Hc, filter_turns by reflexivity. reflexivity.
  - intros v h. rewrite sendNotification_run. cbv zeta. cbn [snd].
    apply published_one.
Qed.

Lemma failed_job_alerts_and_rethrows_witness :
  exists calls,
    process job_fails event []
    = (Throw (TranscriptionFailure (VStr "Unsupported media format")), calls)
    /\ List.filter is_alert calls
       = [SnsPublish "arn:aws:sns:ap-southeast-2:1:voicemail"
            (VStr ALERT_SUBJECT)
            (alertMessage
               (TranscriptionFailure (VStr "Unsupported media format")))].
Proof.
  refine (proj1 (proj2 (failed_job_alerts_and_rethrows
    job_fails event [] (returned ∅ job_fails_enriched)
    (snd job_fails_enriched) (returned no_job job_fails_started)
    (snd job_fails_started) 1 (VStr "Unsupported media format") receipt
    _ _ _ _ _))).
  - vm_compute. reflexivity.
  - vm_compute. reflexivity.
  - vm_compute. reflexivity.
  - split; [unfold TRIES; lia |]. split.
    + intros i Hi. destruct i as [|i]; [| lia].
      eexists. split; vm_compute; reflexivity.
    + eexists. split; [| split]; vm_compute; reflexivity.
  - reflexivity.
Defined.

(** C2.  When the record that enrichment returns has a falsy [voicemail]
    attribute, the handler returns [{success: true}] at once: beyond the
    agent-login signal and the log search of the enrichment it calls nothing,
    so it submits no transcription job, asks for no signed URL and publishes
    no notification. *)
Theorem non_voicemail_call_is_skipped E event t voicemail t1 :
  enrich E event (t ++ login_calls E) = (Ok voicemail, t1) ->
  truthy (field voicemail "voicemail") = false ->
  exists pattern start,
    process E event t
    = (Ok success,
       t ++ login_calls E
         ++ [CwlFilterLogEvents (CONNECT_LOG_GROUP E) pattern start]).
Proof.
  intros Henrich Hv.
  destruct (enrich_trace _ _ _ _ _ Henrich) as (pattern & start & Ht1).
  exists pattern, start.
  rewrite process_unfold, pipeline_unfold, Henrich.
  rewrite (deliver_skip _ _ _ Hv). by rewrite Ht1, <- app_assoc.
Qed.

Lemma non_voicemail_call_is_skipped_witness :
  exists pattern start,
    process no_attributes event []
    = (Ok success,
       [SnsPublish "arn:aws:sns:ap-southeast-2:1:agent-login" VUndefined
          (login_message no_attributes);
        CwlFilterLogEvents "/aws/connect/demo" pattern start]).
Proof.
  refine (non_voicemail_call_is_skipped
            no_attributes event [] (returned ∅ no_attributes_enriched)
            (snd no_attributes_enriched) _ _).
  - vm_compute. reflexivity.
  - vm_compute. reflexivity.
Defined.

(** C7, as stated, fails: the job fails, the alert publish fails too, and the
    handler ends with the error of the publish, not with that of the job. *)
Lemma alert_failure_replaces_job_error :
  fst (pipeline alert_fails event (login_calls alert_fails))
  = Throw (TranscriptionFailure (VStr "Unsupported media format"))
  /\ fst (process alert_fails event [])
     = Throw (Exn "AuthorizationError" "not authorized to publish").
Proof. split; vm_compute; reflexivity. Qed.

(** C7, amended.  When a stage throws and the alert publish that follows
    fails, the handler ends with the error of the alert publish; the error of
    the stage has been written to the console before the alert was tried and
    is not rethrown. *)
Theorem alert_failure_is_what_surfaces E event t err t1 err' :
  pipeline E event (t ++ login_calls E) = (Throw err, t1) ->
  SNS_publish E (t1 ++ [ConsoleError err]) (NOTIFICATION_TOPIC E)
              (VStr ALERT_SUBJECT) (alertMessage err) = Throw err' ->
  process E event t
  = (Throw err',
     t1 ++ [ConsoleError err;
            SnsPublish (NOTIFICATION_TOPIC E) (VStr ALERT_SUBJECT)
                       (alertMessage err)]).
Proof.
  intros Hpipeline Hpublish.
  by rewrite process_unfold, Hpipeline, escalate_run, Hpublish.
Qed.

Lemma alert_failure_is_what_surfaces_witness :
  exists t1,
    process alert_fails event []
    = (Throw (Exn "AuthorizationError" "not authorized to publish"),
       t1 ++ [ConsoleError
                (TranscriptionFailure (VStr "Unsupported media format"));
              SnsPublish "arn:aws:sns:ap-southeast-2:1:voicemail"
                (VStr ALERT_SUBJECT)
                (alertMessage
                   (TranscriptionFailure (VStr "Unsupported media format")))]).
Proof.
  exists (snd (pipeline alert_fails event ([] ++ login_calls alert_fails))).
  refine (alert_failure_is_what_surfaces
            alert_fails event []
            (TranscriptionFailure (VStr "Unsupported media format"))
            (snd (pipeline alert_fails event ([] ++ login_calls alert_fails)))
            (Exn "AuthorizationError" "not authorized to publish") _ _).
  - vm_compute. reflexivity.
  - reflexivity.
Defined.

(** The run of the specification's end-to-end scenario: one notification,
    with the formatted number in its subject. *)
Example end_to_end :
  fst (process login_succeeds event []) = Ok success
  /\ published (snd (process login_succeeds event []))
     = [("arn:aws:sns:ap-southeast-2:1:agent-login", VUndefined);
        ("arn:aws:sns:ap-southeast-2:1:voicemail",
         VStr "[ billing] Voice-mail from 0412 345 678")].
Proof. split; vm_compute; reflexivity. Qed.

(** The first [try] block throws nothing and logs nothing, whatever the SNS
    client answers: its [catch] block is never entered. *)
Lemma loginSignal_never_logs E t :
  loginSignal E t = (Ok tt, t ++ login_calls E)
  /\ List.filter is_console_log (login_calls E) = [].
Proof. split; [apply loginSignal_run | apply login_calls_no_log]. Qed.

Section LoginOutcome.

Variable E : env.
Variable publish : list call -> string -> value -> string -> outcome value.

(** [publish] answers as the client of [E] does, but for publishes without
    a subject: the agent-login signal is the only such publish. *)
Hypothesis same_but_login :
  forall h topic subject message,
    subject <> VUndefined ->
    publish h topic subject message = SNS_publish E h topic subject message.

Lemma sendNotification_with_publish voicemail t :
  sendNotification (with_publish E publish) voicemail t
  = sendNotification E voicemail t.
Proof.
  rewrite !sendNotification_run. cbv zeta.
  cbn [with_publish NOTIFICATION_TOPIC SNS_publish NOTIFICATION_TIMEZONE
       LINK_EXPIRY_IN_DAYS DateTime_fromISO_format
       DateTime_local_plus_days_format].
  by rewrite same_but_login.
Qed.

Lemma escalate_with_publish err t :
  escalate (with_publish E publish) err t = escalate E err t.
Proof.
  rewrite !escalate_run. unfold alert_call.
  cbn [with_publish NOTIFICATION_TOPIC SNS_publish].
  by rewrite same_but_login.
Qed.

Lemma deliver_with_publish voicemail t :
  deliver (with_publish E publish) voicemail t = deliver E voicemail t.
Proof.
  unfold deliver. destruct (negb _); [reflexivity |].
  unfold bind.
  change (transcribeRecording (with_publish E publish) voicemail t)
    with (transcribeRecording E voicemail t).
  destruct (transcribeRecording E voicemail t) as [[transcript|e] t1];
    [| reflexivity].
  change (getPresignedS3Url (with_publish E publish))
    with (getPresignedS3Url E).
  destruct (getPresignedS3Url E _ t1) as [[url|e] t2]; [| reflexivity].
  by rewrite sendNotification_with_publish.
Qed.

(** The outcome of the agent-login signal has no part in what the handler
    returns, throws or calls. *)
Lemma process_ignores_login_outcome event t :
  process (with_publish E publish) event t = process E event t.
Proof.
  rewrite !process_unfold, !pipeline_unfold.
  change (login_calls (with_publish E publish)) with (login_calls E).
  change (enrich (with_publish E publish)) with (enrich E).
  destruct (enrich E event _) as [[voicemail|e] t1].
  - rewrite deliver_with_publish.
    destruct (deliver E voicemail t1) as [[v|e] t2]; [reflexivity |].
    apply escalate_with_publish.
  - apply escalate_with_publish.
Qed.

End LoginOutcome.

(** C8.  The agent-login signal fails, and the handler goes on: it returns
    what it returns when the signal succeeds, and makes the same calls.  No
    [console.log] of the failure is among them: the send is not awaited, so
    the [catch] block that would log it is not entered. *)
Theorem login_failure_is_swallowed_unlogged :
  SNS_publish login_fails [] (AGENT_LOGIN_TOPIC login_fails) VUndefined
              (login_message login_fails)
  = Throw (Exn "InternalFailure" "SNS is unavailable")
  /\ process login_fails event [] = process login_succeeds event []
  /\ fst (process login_fails event []) = Ok success
  /\ List.filter is_console_log (snd (process login_fails event [])) = [].
Proof. repeat split; vm_compute; reflexivity. Qed.

End HandlerClaims.

(** ** The matcher only moves forward *)

Module MatcherProgress.
Import RegExpFacts.

Lemma matcher_Alt r1 r2 x c :
  matcher (Alt r1 r2) x c
  = match matcher r1 x c with Some z => Some z | None => matcher r2 x c end.
Proof. reflexivity. Qed.

Lemma matcher_Eps x c : matcher Eps x c = c x.
Proof. reflexivity. Qed.

Lemma ahead_refl x : ahead x x.
Proof. exists []. simpl. split; [reflexivity | lia]. Qed.

Lemma ahead_trans x y z : ahead x y -> ahead y z -> ahead x z.
Proof.
  intros (p1 & H1 & P1) (p2 & H2 & P2). exists (p1 ++ p2).
  rewrite H1, H2, P2, P1, length_app, <- app_assoc. split; [reflexivity | lia].
Qed.

Lemma ahead_clear_caps gs x y : ahead (clear_caps gs x) y -> ahead x y.
Proof. by destruct gs. Qed.

Lemma ahead_set_cap i s x y : ahead x y -> ahead x (set_cap i s y).
Proof. done. Qed.

Lemma repeat_matcher_forward m gs greedy :
  forward m ->
  forall fuel lo hi, forward (fun x c => repeat_matcher m gs greedy fuel lo hi x c).
Proof.
  intros Hm fuel. induction fuel as [|fuel IH]; intros lo hi x c z H;
    [discriminate |].
  rewrite repeat_matcher_S in H.
  assert (Hd : forall y,
    ahead x y ->
    (if (lo =? 0) && (m_pos y =? m_pos x) then None
     else repeat_matcher m gs greedy fuel (Init.Nat.pred lo)
            (Init.Nat.pred <$> hi) y c) = Some z ->
    exists y', ahead x y' /\ c y' = Some z).
  { intros y Hxy Hy. destruct ((lo =? 0) && (m_pos y =? m_pos x));
      [discriminate |].
    apply IH in Hy as (y' & Hyy' & Hc). exists y'.
    split; [by eapply ahead_trans | exact Hc]. }
  assert (Hiter :
    m (clear_caps gs x)
      (fun y => if (lo =? 0) && (m_pos y =? m_pos x) then None
                else repeat_matcher m gs greedy fuel (Init.Nat.pred lo)
                       (Init.Nat.pred <$> hi) y c) = Some z ->
    exists y', ahead x y' /\ c y' = Some z).
  { intros Hi. apply Hm in Hi as (y & Hxy & Hy).
    apply (Hd y); [by apply (ahead_clear_caps gs) | exact Hy]. }
  assert (Hc : c x = Some z -> exists y', ahead x y' /\ c y' = Some z).
  { intros Hx. exists x. split; [apply ahead_refl | exact Hx]. }
  destruct hi as [[|h]|]; cbv zeta in H.
  - by apply Hc.
  - destruct (negb (lo =? 0)); [by apply Hiter |].
    destruct greedy.
    + destruct (m (clear_caps gs x) _) eqn:Hi; [| by apply Hc].
      inversion H; subst. by apply Hiter.
    + destruct (c x) eqn:Hx; [inversion H; subst; by apply Hc |].
      by apply Hiter.
  - destruct (negb (lo =? 0)); [by apply Hiter |].
    destruct greedy.
    + destruct (m (clear_caps gs x) _) eqn:Hi; [| by apply Hc].
      inversion H; subst. by apply Hiter.
    + destruct (c x) eqn:Hx; [inversion H; subst; by apply Hc |].
      by apply Hiter.
Qed.

(** Every pattern moves forward: when a match succeeds, the continuation
    succeeded on a state further on in the input. *)
Lemma matcher_forward r : forward (matcher r).
Proof.
  induction r as [|p|r1 IH1 r2 IH2|r1 IH1 r2 IH2|g lo hi r IH|i r IH| |];
    intros x c z H.
  - exists x. split; [apply ahead_refl | exact H].
  - destruct x as [pos rest caps]. rewrite matcher_Sym in H.
    destruct rest as [|ch rest]; [discriminate |].
    destruct (p ch); [| discriminate].
    eexists. split; [| exact H]. exists [ch]. simpl. split; [reflexivity | lia].
  - rewrite matcher_Cat in H. apply IH1 in H as (y1 & H1 & H).
    apply IH2 in H as (y2 & H2 & H). exists y2.
    split; [by eapply ahead_trans | exact H].
  - rewrite matcher_Alt in H. destruct (matcher r1 x c) eqn:H1.
    + inversion H; subst. by apply IH1.
    + by apply IH2.
  - rewrite matcher_Rep in H.
    by apply (repeat_matcher_forward _ _ _ IH) in H.
  - rewrite matcher_Grp in H. apply IH in H as (y & Hxy & H).
    eexists. split; [| exact H]. by apply ahead_set_cap.
  - rewrite matcher_Bol in H. destruct (m_pos x =? 0); [| discriminate].
    exists x. split; [apply ahead_refl | exact H].
  - rewrite matcher_Eol in H. destruct (m_rest x); [| discriminate].
    exists x. split; [apply ahead_refl | exact H].
Qed.

End MatcherProgress.

(** ** File parts *)

Module FileParts.
Import RegExpFacts Phone MatcherProgress.

Lemma re_file_parts_eq : re_file_parts = Cat (opt re_directory) re_name_on.
Proof. reflexivity. Qed.

Lemma repeat_lazy_star_sym p fuel pos rest caps c :
  length rest < fuel ->
  repeat_matcher (matcher (Sym p)) [] false fuel 0 None (MState pos rest caps) c
  = lazy_star_sym p pos rest caps c.
Proof.
  revert fuel pos. induction rest as [|ch rest IH]; intros fuel pos Hfuel;
    (destruct fuel as [|fuel]; [simpl in Hfuel; lia |]);
    rewrite repeat_matcher_S; cbv zeta; cbn [clear_caps];
    change (negb (0 =? 0)) with false; cbv iota; rewrite matcher_Sym;
    cbn [lazy_star_sym]; destruct (c _); try reflexivity.
  destruct (p ch); [| reflexivity].
  cbn [m_pos]. change (0 =? 0) with true. cbn [andb].
  rewrite succ_eqb_false.
  change (repeat_matcher (matcher (Sym p)) [] false fuel
            (Init.Nat.pred 0) (Init.Nat.pred <$> None))
    with (repeat_matcher (matcher (Sym p)) [] false fuel 0 None).
  apply IH. simpl in Hfuel. lia.
Qed.

Lemma matcher_lazy_plus_sym p pos rest caps c :
  matcher (lazy_plus (Sym p)) (MState pos rest caps) c
  = match rest with
    | ch :: rest' => if p ch then lazy_star_sym p (S pos) rest' caps c else None
    | [] => None
    end.
Proof.
  unfold lazy_plus. rewrite matcher_Rep, repeat_matcher_S. cbv zeta.
  cbn [groups m_rest clear_caps]. change (negb (1 =? 0)) with true. cbv iota.
  rewrite matcher_Sym. destruct rest as [|ch rest]; [reflexivity |].
  destruct (p ch); [| reflexivity].
  change (1 =? 0) with false. cbn [andb].
  change (repeat_matcher (matcher (Sym p)) [] false (1 + length (ch :: rest))
            (Init.Nat.pred 1) (Init.Nat.pred <$> None))
    with (repeat_matcher (matcher (Sym p)) [] false (1 + length (ch :: rest))
            0 None).
  apply repeat_lazy_star_sym. simpl. lia.
Qed.

(** The shortest run that lets the rest succeed is the one taken. *)
Lemma lazy_star_sym_first p pos a b caps c z :
  Forall (fun ch => p ch = true) a ->
  (forall a1 a2, a = a1 ++ a2 -> a2 <> [] ->
     c (MState (pos + length a1) (a2 ++ b) caps) = None) ->
  c (MState (pos + length a) b caps) = Some z ->
  lazy_star_sym p pos (a ++ b) caps c = Some z.
Proof.
  revert pos. induction a as [|ch a IH]; intros pos Ha Hfail Hok.
  - simpl in *. rewrite Nat.add_0_r in Hok.
    destruct b; simpl; by rewrite Hok.
  - inversion Ha as [|? ? Hch Ha']; subst.
    pose proof (Hfail [] (ch :: a) eq_refl) as H0. simpl in H0.
    rewrite Nat.add_0_r in H0. cbn [app lazy_star_sym].
    rewrite H0 by discriminate. rewrite Hch. apply IH; [exact Ha' | |].
    + intros a1 a2 -> Hne. specialize (Hfail (ch :: a1) a2 eq_refl Hne).
      simpl in Hfail.
      by replace (S pos + length a1) with (pos + S (length a1)) by lia.
    + by replace (S pos + length a) with (pos + S (length (a))) by lia.
Qed.

(** [r?]: try [r], which must consume something, else go on without it. *)
Lemma matcher_opt r x c :
  matcher (opt r) x c
  = match matcher r (clear_caps (groups r) x)
            (fun y => if m_pos y =? m_pos x then None
                      else repeat_matcher (matcher r) (groups r) true
                             (length (m_rest x)) 0 (Some 0) y c) with
    | Some z => Some z
    | None => c x
    end.
Proof. reflexivity. Qed.

Lemma repeat_matcher_done m gs greedy fuel lo x c :
  repeat_matcher m gs greedy (S fuel) lo (Some 0) x c = c x.
Proof. reflexivity. Qed.

Lemma extension_ok pos ext caps :
  Forall (fun ch => not_dot ch = true) ext ->
  matcher re_extension (MState pos ext caps) Some
  = Some (MState (pos + length ext) []
                 ((3, string_of_list_ascii ext) :: del_cap 3 caps)).
Proof.
  intros Hext. unfold re_extension. rewrite matcher_Grp, matcher_Alt.
  cbn [cat]. rewrite matcher_Cat, matcher_star_sym.
  rewrite <- (app_nil_r ext) at 1.
  erewrite star_sym_skip; [reflexivity | exact Hext |].
  cbn [star_sym]. rewrite matcher_Eol. cbn [m_rest m_pos]. unfold set_cap.
  cbn [m_pos m_rest m_caps].
  replace (pos + length ext - pos) with (length ext) by lia.
  by rewrite firstn_all.
Qed.

Lemma extension_fails pos rest caps c :
  "."%char ∈ rest ->
  matcher re_extension (MState pos rest caps) c = None.
Proof.
  intros Hin. unfold re_extension. rewrite matcher_Grp, matcher_Alt.
  cbn [cat]. rewrite matcher_Cat, matcher_star_sym.
  destruct (star_sym _ _ _ _ _) as [z|] eqn:Hs.
  - apply star_sym_sound in Hs as (a & b & -> & Ha & Hs).
    rewrite matcher_Eol in Hs. cbn [m_rest] in Hs.
    destruct b; [| discriminate]. rewrite app_nil_r in Hin.
    rewrite Forall_forall in Ha. specialize (Ha _ Hin). discriminate Ha.
  - rewrite matcher_Eol. cbn [m_rest].
    destruct rest; [by apply elem_of_nil in Hin | reflexivity].
Qed.

(** From the file name on. *)
Lemma name_on_ok pos name ext caps :
  name <> [] ->
  Forall (fun ch => dot ch = true) name ->
  Forall (fun ch => not_dot ch = true) ext ->
  matcher re_name_on (MState pos (name ++ "."%char :: ext) caps) Some
  = Some (MState (pos + length name + 1 + length ext) []
            ((3, string_of_list_ascii ext)
               :: del_cap 3 ((2, string_of_list_ascii name) :: del_cap 2 caps))).
Proof.
  intros Hne Hname Hext. destruct name as [|n0 name]; [done |].
  inversion Hname as [|? ? Hn0 Hname']; subst.
  unfold re_name_on. cbn [cat]. rewrite matcher_Cat, matcher_Grp.
  cbn [app]. rewrite matcher_lazy_plus_sym, Hn0.
  apply lazy_star_sym_first; [exact Hname' | |].
  - intros a1 a2 -> Hne2. rewrite matcher_Cat. unfold chr, set_cap.
    cbn [m_rest m_pos m_caps]. rewrite matcher_Sym.
    destruct a2 as [|ch a2]; [done |]. cbn [app].
    destruct (Ascii.eqb_spec "." ch) as [<-|]; [| reflexivity].
    apply extension_fails. rewrite elem_of_app. right. by left.
  - rewrite matcher_Cat. unfold chr, set_cap. cbn [m_rest m_pos m_caps].
    rewrite matcher_Sym. change (Ascii.eqb "." ".") with true. cbv iota.
    rewrite extension_ok by exact Hext.
    replace (S pos + length name - pos) with (length (n0 :: name))
      by (simpl; lia).
    change (n0 :: name ++ "."%char :: ext)
      with ((n0 :: name) ++ "."%char :: ext).
    rewrite take_app_length. do 2 f_equal. simpl. lia.
Qed.

Lemma directory_none pos rest caps c :
  Forall (fun ch => slash ch = false) rest ->
  matcher re_directory (MState pos rest caps) c = None.
Proof.
  intros Hrest. unfold re_directory. rewrite matcher_Grp. cbn [cat].
  rewrite matcher_Cat, matcher_star_sym. apply star_sym_none.
  intros a b ->. rewrite matcher_Sym.
  destruct b as [|ch b]; [reflexivity |].
  apply Forall_app in Hrest as [_ Hb]. inversion Hb as [|? ? Hch _]; subst.
  by rewrite Hch.
Qed.

End FileParts.

Module FilePartsFacts.
Import RegExpFacts Phone ContactId MatcherProgress FileParts.

Lemma not_dot_spec ch : not_dot ch = true <-> ch <> "."%char.
Proof.
  unfold not_dot, none_of, one_of. cbn [existsb].
  rewrite orb_false_r, negb_true_iff, Ascii.eqb_neq.
  split; intros H Heq; apply H; by symmetry.
Qed.

Lemma slash_false ch :
  ch <> "/"%char -> ch <> "\"%char -> slash ch = false.
Proof.
  intros H1 H2. unfold slash, one_of. cbn [existsb].
  destruct (Ascii.eqb_spec "\" ch) as [<-|]; [done |].
  destruct (Ascii.eqb_spec "/" ch) as [<-|]; done.
Qed.

Lemma capture_of i caps pos rest :
  capture (MatchResult 0 (MState pos rest caps)) i
  = match filter (fun kv => fst kv = i) caps with
    | (_, s) :: _ => VStr s
    | [] => VUndefined
    end.
Proof. reflexivity. Qed.

(** Without a directory part. *)
Lemma file_parts_bare name ext :
  name <> [] ->
  Forall (fun ch => dot ch = true) name ->
  Forall (fun ch => slash ch = false) name ->
  Forall (fun ch => not_dot ch = true) ext ->
  Forall (fun ch => slash ch = false) ext ->
  exec_from re_file_parts 0 (name ++ "."%char :: ext)
  = Some (MatchResult 0
      (MState (0 + length name + 1 + length ext) []
         [(3, string_of_list_ascii ext); (2, string_of_list_ascii name)])).
Proof.
  intros Hne Hdot Hname Hext Hext'. apply exec_from_here.
  rewrite re_file_parts_eq, matcher_Cat, matcher_opt.
  cbn [groups re_directory cat clear_caps foldr m_caps m_pos m_rest app].
  change (del_cap 1 []) with (@nil (nat * string)).
  rewrite directory_none.
  - by rewrite name_on_ok.
  - apply Forall_app. split; [exact Hname |]. constructor; [reflexivity | exact Hext'].
Qed.

(** With a directory part [d0 ++ [sep]]. *)
Lemma file_parts_in_directory d0 sep name ext :
  Forall (fun ch => dot ch = true) d0 ->
  slash sep = true ->
  name <> [] ->
  Forall (fun ch => dot ch = true) name ->
  Forall (fun ch => slash ch = false) name ->
  Forall (fun ch => not_dot ch = true) ext ->
  Forall (fun ch => slash ch = false) ext ->
  exec_from re_file_parts 0 ((d0 ++ [sep]) ++ name ++ "."%char :: ext)
  = Some (MatchResult 0
      (MState (length (d0 ++ [sep]) + length name + 1 + length ext) []
         [(3, string_of_list_ascii ext); (2, string_of_list_ascii name);
          (1, string_of_list_ascii (d0 ++ [sep]))])).
Proof.
  intros Hd0 Hsep Hne Hdot Hname Hext Hext'. apply exec_from_here.
  assert (Htail : Forall (fun ch => slash ch = false)
                         (name ++ "."%char :: ext)).
  { apply Forall_app. split; [exact Hname |].
    constructor; [reflexivity | exact Hext']. }
  assert (Hsepdot : dot sep = true).
  { revert Hsep. unfold slash, one_of. cbn [existsb].
    destruct (Ascii.eqb_spec "\" sep) as [<-|]; [reflexivity |].
    destruct (Ascii.eqb_spec "/" sep) as [<-|]; [reflexivity | discriminate]. }
  rewrite re_file_parts_eq, matcher_Cat, matcher_opt.
  cbn [groups re_directory cat clear_caps foldr m_caps m_pos m_rest app].
  change (del_cap 1 []) with (@nil (nat * string)).
  unfold re_directory at 1. rewrite matcher_Grp. cbn [cat].
  rewrite matcher_Cat, matcher_star_sym, <- app_assoc.
  erewrite star_sym_skip; [reflexivity | exact Hd0 |].
  cbn [app star_sym]. rewrite Hsepdot.
  rewrite star_sym_none.
  - rewrite matcher_Sym, Hsep. unfold set_cap. cbn [m_pos m_rest m_caps].
    replace (S (0 + length d0) =? 0) with false by (symmetry; by apply Nat.eqb_neq).
    rewrite length_app. cbn [length].
    replace (length d0 + S (length (name ++ "."%char :: ext)))
      with (S (length d0 + length (name ++ "."%char :: ext))) by lia.
    rewrite repeat_matcher_done.
    replace (S (0 + length d0) - 0) with (length (d0 ++ [sep]))
      by (rewrite length_app; simpl; lia).
    replace (d0 ++ sep :: name ++ "."%char :: ext)
      with ((d0 ++ [sep]) ++ name ++ "."%char :: ext)
      by (by rewrite <- app_assoc).
    rewrite take_app_length, name_on_ok by done.
    do 3 f_equal. rewrite length_app. simpl. lia.
  - intros a b Hab. rewrite matcher_Sym.
    destruct b as [|ch b]; [reflexivity |].
    rewrite Hab in Htail. apply Forall_app in Htail as [_ Hb].
    inversion Hb as [|? ? Hch _]; subst. by rewrite Hch.
Qed.

End FilePartsFacts.

Module FilePartsSplit.
Import RegExpFacts Phone ContactId MatcherProgress FileParts FilePartsFacts.

Lemma string_of_chars_app (a b : list ascii) :
  string_of_list_ascii (a ++ b)
  = string_of_list_ascii a +:+ string_of_list_ascii b.
Proof. induction a as [|ch a IH]; simpl; [reflexivity | by rewrite IH]. Qed.

Lemma file_name_chars name :
  is_file_name name ->
  chars name <> []
  /\ Forall (fun ch => dot ch = true) (chars name)
  /\ Forall (fun ch => slash ch = false) (chars name).
Proof.
  intros [Hne Hall]. split; [| split].
  - intros Hnil. apply Hne. apply chars_inj. by rewrite Hnil.
  - apply Forall_forall. intros ch Hin. apply dot_spec. by apply Hall.
  - apply Forall_forall. intros ch Hin.
    destruct (Hall ch Hin) as (_ & H1 & H2). by apply slash_false.
Qed.

Lemma extension_chars ext :
  is_extension ext ->
  Forall (fun ch => not_dot ch = true) (chars ext)
  /\ Forall (fun ch => slash ch = false) (chars ext).
Proof.
  intros Hall. split; apply Forall_forall; intros ch Hin;
    destruct (Hall ch Hin) as (H0 & H1 & H2).
  - by apply not_dot_spec.
  - by apply slash_false.
Qed.

Lemma file_parts_split dir name ext :
  is_directory dir -> is_file_name name -> is_extension ext ->
  _getFileParts (dir +:+ name +:+ "." +:+ ext)
  = FileParts (if String.eqb dir "" then VUndefined else VStr dir)
              (VStr ext) (VStr name).
Proof.
  intros Hdir Hname Hext.
  apply file_name_chars in Hname as (Hne & Hdot & Hslash).
  apply extension_chars in Hext as (Hext & Hext').
  unfold _getFileParts, exec. rewrite !chars_app.
  change (chars "." ++ chars ext) with ("."%char :: chars ext).
  destruct Hdir as [->|(d0 & sep & -> & Hsep & Hd0)].
  - cbn [chars app]. rewrite file_parts_bare by done.
    rewrite !capture_of. cbn.
    by rewrite !string_of_list_ascii_of_string.
  - rewrite chars_app. change (chars (String sep "")) with [sep].
    rewrite file_parts_in_directory; try done.
    + rewrite !capture_of. cbn.
      rewrite string_of_chars_app, !string_of_list_ascii_of_string.
      replace ((d0 +:+ String sep "" =? "")%string) with false; [reflexivity |].
      symmetry. apply String.eqb_neq. by destruct d0.
    + apply Forall_forall. intros ch Hin. apply dot_spec. by apply Hd0.
    + by destruct Hsep as [-> | ->].
Qed.

Lemma file_parts_without_dot fileUri :
  "."%char ∉ chars fileUri ->
  _getFileParts fileUri = FileParts VNull VNull VNull.
Proof.
  intros Hno. unfold _getFileParts, exec.
  rewrite exec_from_none; [reflexivity |].
  intros pre suf Hsplit.
  destruct (matcher re_file_parts _ Some) as [z|] eqn:Hm; [| reflexivity].
  destruct Hno. rewrite Hsplit, elem_of_app. right.
  rewrite re_file_parts_eq, matcher_Cat in Hm.
  apply matcher_forward in Hm as (y1 & (p1 & Hp1 & _) & Hm).
  unfold re_name_on in Hm. cbn [cat] in Hm. rewrite matcher_Cat in Hm.
  apply matcher_forward in Hm as (y2 & (p2 & Hp2 & _) & Hm).
  rewrite matcher_Cat in Hm. unfold chr in Hm.
  destruct y2 as [pos2 rest2 caps2]. rewrite matcher_Sym in Hm.
  destruct rest2 as [|ch rest2]; [discriminate |].
  destruct (Ascii.eqb_spec "." ch) as [<-|]; [| discriminate].
  cbn [m_rest] in *. rewrite Hp1, Hp2, !elem_of_app. right. right. by left.
Qed.

End FilePartsSplit.

Module FilePartsClaims.
Import RegExpFacts Phone ContactId MatcherProgress FileParts FilePartsFacts
  FilePartsSplit.

(** X1.  [_getFileParts] splits [<dir><name>.<ext>] as its documentation shows:
    the directory with its last separator ([undefined] when there is none),
    the name up to the last dot, the extension after it. *)
Theorem getFileParts_splits dir name ext :
  is_directory dir -> is_file_name name -> is_extension ext ->
  _getFileParts (dir +:+ name +:+ "." +:+ ext)
  = FileParts (if String.eqb dir "" then VUndefined else VStr dir)
              (VStr ext) (VStr name).
Proof. intros Hdir Hname Hext. by apply file_parts_split. Qed.

Lemma getFileParts_splits_witness :
  _getFileParts ("some/path/to/" +:+ "file.tar" +:+ "." +:+ "gz")
  = FileParts (VStr "some/path/to/") (VStr "gz") (VStr "file.tar").
Proof.
  apply (getFileParts_splits "some/path/to/" "file.tar" "gz").
  - right. exists "some/path/to", "/"%char. split; [reflexivity |].
    split; [by left |]. intros ch Hin. apply dot_spec. revert ch Hin.
    apply Forall_forall. by repeat constructor.
  - split; [discriminate |]. intros ch Hin. revert ch Hin.
    apply Forall_forall.
    repeat (constructor;
            [split; [apply dot_spec; reflexivity | split; discriminate] |]).
    constructor.
  - intros ch Hin. revert ch Hin. apply Forall_forall.
    repeat (constructor; [repeat split; discriminate |]). constructor.
Defined.

(** X2.  A URI without any dot has no parts: the three are [null]. *)
Theorem getFileParts_without_dot fileUri :
  "."%char ∉ chars fileUri ->
  _getFileParts fileUri = FileParts VNull VNull VNull.
Proof. intros Hno. by apply file_parts_without_dot. Qed.

Lemma getFileParts_without_dot_witness :
  _getFileParts "recordings/voicemail" = FileParts VNull VNull VNull.
Proof.
  apply getFileParts_without_dot. apply (bool_decide_unpack _).
  vm_compute. exact I.
Defined.

End FilePartsClaims.

(** ** Starting a job *)

Module StartJob.
Import RegExpFacts JobName FilePartsSplit.

Lemma sanitize_char_allowed ch : sanitize_char ch ∈ chars job_name_alphabet.
Proof.
  unfold sanitize_char. case_bool_decide as Hin; [exact Hin |].
  apply (bool_decide_unpack _). vm_compute. exact I.
Qed.

Lemma normalised_allowed s ch :
  ch ∈ chars (_normalisedJobName s) -> ch ∈ chars job_name_alphabet.
Proof.
  rewrite normalised_chars. intros (ch' & -> & _)%list_elem_of_fmap.
  apply sanitize_char_allowed.
Qed.

Lemma normalised_length s :
  length (chars (_normalisedJobName s)) = length (chars s).
Proof. by rewrite normalised_chars, length_map. Qed.

(** X3.  Whatever it is given, [startJob] either throws a [TypeError] before it
    calls anything (the URI is not a string) or sends exactly one request,
    for the language en-US, whose job name holds only characters that
    Transcribe accepts, [0-9A-Za-z._-], and returns what the service
    answers. *)
Theorem startJob_sends_valid_name E mediaFileUri mediaFormat t :
  (exists msg, startJob E mediaFileUri mediaFormat t = (Throw (TypeError msg), t)
               /\ forall uri, mediaFileUri <> VStr uri)
  \/ (exists format jobName,
        startJob E mediaFileUri mediaFormat t
        = (Transcribe_startTranscriptionJob E t "en-US" mediaFileUri format
                                            jobName,
           t ++ [TranscribeStartJob "en-US" mediaFileUri format jobName])
        /\ jobName <> ""
        /\ forall ch, ch ∈ chars jobName -> ch ∈ chars job_name_alphabet).
Proof.
  destruct mediaFileUri as [| |b|n|uri|fields];
    try (left; eexists; split; [reflexivity | discriminate]).
  right. unfold startJob, bind, ret, history, request. cbn beta iota zeta.
  eexists _, _. split; [reflexivity |]. split.
  - intros Heq. apply (f_equal (fun s => length (chars s))) in Heq.
    rewrite normalised_length, !chars_app, !length_app in Heq.
    simpl in Heq. lia.
  - intros ch. apply normalised_allowed.
Qed.

(** X4.  For a URI [<dir><name>.<ext>] and no format given, the format asked for
    is the extension, wav when the extension is empty, and the job name is
    the sanitized [<name>_<milliseconds now>]. *)
Theorem startJob_of_file E dir name ext mediaFormat t :
  is_directory dir -> is_file_name name -> is_extension ext ->
  truthy mediaFormat = false ->
  let uri := VStr (dir +:+ name +:+ "." +:+ ext) in
  let format := if String.eqb ext "" then VStr "wav" else VStr ext in
  let jobName :=
    _normalisedJobName
      (name +:+ "_" +:+ number_toString (DateTime_local_toMillis E t)) in
  startJob E uri mediaFormat t
  = (Transcribe_startTranscriptionJob E t "en-US" uri format jobName,
     t ++ [TranscribeStartJob "en-US" uri format jobName]).
Proof.
  intros Hdir Hname Hext Hformat. cbv zeta.
  unfold startJob, bind at 1, ret.
  rewrite (file_parts_split _ _ _ Hdir Hname Hext), Hformat.
  cbn [negb fp_extension fp_filename truthy toString].
  unfold bind, history, request. by destruct (String.eqb ext "").
Qed.

Lemma startJob_of_file_witness :
  startJob Scenario.job_fails
           (VStr ("https://b.s3.amazonaws.com/calls/" +:+ "abc-123_07:02"
                    +:+ "." +:+ "wav"))
           VUndefined []
  = (Ok (TranscriptionJob "abc-123_07_02_1529391780000" "IN_PROGRESS"
                          VUndefined VUndefined),
     [TranscribeStartJob "en-US"
        (VStr "https://b.s3.amazonaws.com/calls/abc-123_07:02.wav")
        (VStr "wav") "abc-123_07_02_1529391780000"]).
Proof.
  refine (startJob_of_file Scenario.job_fails
            "https://b.s3.amazonaws.com/calls/" "abc-123_07:02" "wav"
            VUndefined [] _ _ _ _).
  - right. exists "https://b.s3.amazonaws.com/calls", "/"%char.
    split; [reflexivity |]. split; [by left |].
    intros ch Hin. apply ContactId.dot_spec. revert ch Hin.
    apply Forall_forall. by repeat constructor.
  - split; [discriminate |]. intros ch Hin. revert ch Hin.
    apply Forall_forall.
    repeat (constructor;
            [split; [apply ContactId.dot_spec; reflexivity
                    | split; discriminate] |]).
    constructor.
  - intros ch Hin. revert ch Hin. apply Forall_forall.
    repeat (constructor; [repeat split; discriminate |]). constructor.
  - reflexivity.
Defined.

(** X5.  For a URI without any dot and no format given, the format asked for is
    wav and the job name is [null_<milliseconds now>]: the name of the file
    is not used. *)
Theorem startJob_of_dotless_uri E fileUri mediaFormat t :
  "."%char ∉ chars fileUri ->
  truthy mediaFormat = false ->
  let jobName :=
    "null_" +:+ number_toString (DateTime_local_toMillis E t) in
  startJob E (VStr fileUri) mediaFormat t
  = (Transcribe_startTranscriptionJob E t "en-US" (VStr fileUri) (VStr "wav")
                                      (_normalisedJobName jobName),
     t ++ [TranscribeStartJob "en-US" (VStr fileUri) (VStr "wav")
             (_normalisedJobName jobName)]).
Proof.
  intros Hno Hformat. cbv zeta. unfold startJob, bind at 1, ret.
  rewrite (file_parts_without_dot _ Hno), Hformat. reflexivity.
Qed.

Lemma startJob_of_dotless_uri_witness :
  startJob Scenario.job_fails (VStr "s3://b/calls/abc-123") VUndefined []
  = (Ok (TranscriptionJob "null_1529391780000" "IN_PROGRESS"
                          VUndefined VUndefined),
     [TranscribeStartJob "en-US" (VStr "s3://b/calls/abc-123") (VStr "wav")
        "null_1529391780000"]).
Proof.
  refine (startJob_of_dotless_uri Scenario.job_fails "s3://b/calls/abc-123"
            VUndefined [] _ _).
  - apply (bool_decide_unpack _). vm_compute. exact I.
  - reflexivity.
Defined.

End StartJob.

(** ** Polling: how the loop ends *)

Module AwaitJobMore.
Import AwaitJob AwaitJobClaims HandlerFacts.

Lemma poll_ends E jobName w n k j : forall job t,
  k < n ->
  (forall i, i < k ->
     pending_at E jobName (t ++ concat (replicate i (pending_turn jobName w)))) ->
  Transcribe_getTranscriptionJob E
    (t ++ concat (replicate k (pending_turn jobName w))) jobName = Ok j ->
  TranscriptionJobStatus j <> TRANSCRIBE_PENDING ->
  poll E jobName w n job t
  = (Ok (Some j),
     t ++ concat (replicate k (pending_turn jobName w))
       ++ [TranscribeGetJob jobName]).
Proof.
  revert k. induction n as [|n IH]; intros k job t Hk Hpend Hend Hst; [lia |].
  rewrite poll_S. destruct k as [|k].
  - simpl in Hend. rewrite app_nil_r in Hend. rewrite Hend.
    replace (TRANSCRIBE_PENDING =? TranscriptionJobStatus j)%string with false;
      [reflexivity |].
    symmetry. apply String.eqb_neq. intros Heq. by apply Hst.
  - destruct (Hpend 0) as (j0 & Hj0 & Hst0); [lia |]. simpl in Hj0.
    rewrite app_nil_r in Hj0. rewrite Hj0, Hst0.
    change (negb (TRANSCRIBE_PENDING =? TRANSCRIBE_PENDING)%string) with false.
    cbv iota. rewrite <- app_assoc.
    change ([TranscribeGetJob jobName] ++ [Wait w])
      with (pending_turn jobName w).
    rewrite (IH k (Some j0) (t ++ pending_turn jobName w)).
    + f_equal. rewrite <- !app_assoc. reflexivity.
    + lia.
    + intros i Hi. rewrite turns_S. apply Hpend. lia.
    + by rewrite turns_S.
    + exact Hst.
Qed.

Lemma poll_throws E jobName w n k e : forall job t,
  k < n ->
  (forall i, i < k ->
     pending_at E jobName (t ++ concat (replicate i (pending_turn jobName w)))) ->
  Transcribe_getTranscriptionJob E
    (t ++ concat (replicate k (pending_turn jobName w))) jobName = Throw e ->
  poll E jobName w n job t
  = (Throw e,
     t ++ concat (replicate k (pending_turn jobName w))
       ++ [TranscribeGetJob jobName]).
Proof.
  revert k. induction n as [|n IH]; intros k job t Hk Hpend Hend; [lia |].
  rewrite poll_S. destruct k as [|k].
  - simpl in Hend. rewrite app_nil_r in Hend. by rewrite Hend.
  - destruct (Hpend 0) as (j0 & Hj0 & Hst0); [lia |]. simpl in Hj0.
    rewrite app_nil_r in Hj0. rewrite Hj0, Hst0.
    change (negb (TRANSCRIBE_PENDING =? TRANSCRIBE_PENDING)%string) with false.
    cbv iota. rewrite <- app_assoc.
    change ([TranscribeGetJob jobName] ++ [Wait w])
      with (pending_turn jobName w).
    rewrite (IH k (Some j0) (t ++ pending_turn jobName w)).
    + f_equal. rewrite <- !app_assoc. reflexivity.
    + lia.
    + intros i Hi. rewrite turns_S. apply Hpend. lia.
    + by rewrite turns_S.
Qed.

Lemma awaitJob_ends E jobName waitSeconds t k j :
  check_ends E jobName waitSeconds t k j ->
  awaitJob E jobName waitSeconds t
  = transcriptOf E (Some j)
      (history_before_check t jobName (waitBetweenRetries waitSeconds) k
         ++ [TranscribeGetJob jobName]).
Proof.
  intros (Hk & Hpend & Hend & Hst). rewrite awaitJob_unfold.
  rewrite (poll_ends E jobName _ TRIES k j None (t ++ [Wait INITIAL_WAIT_MS]));
    try done.
  - unfold history_before_check. by rewrite <- !app_assoc.
  - intros i Hi. specialize (Hpend i Hi). unfold history_before_check in Hpend.
    by rewrite <- app_assoc.
  - unfold history_before_check in Hend. by rewrite <- app_assoc.
Qed.


End AwaitJobMore.

Module AwaitJobOutcomes.
Import AwaitJob AwaitJobClaims HandlerFacts AwaitJobMore Harness Runs.

(** X6.  When a status check finds the job completed, [awaitJob] stops checking,
    downloads the transcript file named by the job, once, and returns the
    text of the first transcript of the file; further transcripts are
    ignored, and an empty list gives [undefined]. *)
Theorem awaitJob_completed E jobName waitSeconds t k j url transcripts :
  check_ends E jobName waitSeconds t k j ->
  TranscriptionJobStatus j = TRANSCRIBE_COMPLETED ->
  get_prop (Transcript j) "TranscriptFileUri" = Ok url ->
  axios_get_transcripts E
    (history_before_check t jobName (waitBetweenRetries waitSeconds) k
       ++ [TranscribeGetJob jobName]) url = Ok transcripts ->
  awaitJob E jobName waitSeconds t
  = (match transcripts with
     | first :: _ => get_prop first "transcript"
     | [] => Ok VUndefined
     end,
     history_before_check t jobName (waitBetweenRetries waitSeconds) k
       ++ [TranscribeGetJob jobName; AxiosGet url]).
Proof.
  intros Hends Hst Hurl Hget. rewrite (awaitJob_ends _ _ _ _ _ _ Hends).
  unfold transcriptOf. rewrite Hst.
  change (TRANSCRIBE_COMPLETED =? TRANSCRIBE_COMPLETED)%string with true.
  cbv iota. unfold bind, lift, request, ret. rewrite Hurl, Hget.
  rewrite <- app_assoc.
  change ([TranscribeGetJob jobName] ++ [AxiosGet url])
    with [TranscribeGetJob jobName; AxiosGet url].
  destruct transcripts as [|first ?]; [reflexivity |].
  by destruct (get_prop first "transcript").
Qed.

Lemma job_completes_check_ends :
  check_ends job_completes "job-1" TRANSCRIBE_WAIT_SECONDS [] 2
             (completed "job-1").
Proof.
  split; [unfold TRIES; lia |]. split; [| split; [reflexivity | discriminate]].
  intros [|[|i]] Hi; [| | lia]; by eexists.
Qed.

Lemma awaitJob_completed_witness :
  awaitJob job_completes "job-1" TRANSCRIBE_WAIT_SECONDS []
  = (Ok (VStr "hello"),
     history_before_check [] "job-1"
       (waitBetweenRetries TRANSCRIBE_WAIT_SECONDS) 2
       ++ [TranscribeGetJob "job-1";
           AxiosGet (VStr "https://transcripts/1.json")]).
Proof.
  exact (awaitJob_completed job_completes "job-1" TRANSCRIBE_WAIT_SECONDS [] 2
           (completed "job-1") (VStr "https://transcripts/1.json")
           [VObj [("transcript", VStr "hello")]]
           job_completes_check_ends eq_refl eq_refl eq_refl).
Defined.

(** X7.  When a status check finds the job in a status that is none of
    IN_PROGRESS, COMPLETED and FAILED (QUEUED, say), [awaitJob] stops checking
    at once and returns [undefined]: it neither waits for the job to start nor
    reports an error. *)
Theorem awaitJob_other_status E jobName waitSeconds t k j :
  check_ends E jobName waitSeconds t k j ->
  TranscriptionJobStatus j <> TRANSCRIBE_COMPLETED ->
  TranscriptionJobStatus j <> TRANSCRIBE_FAILED ->
  awaitJob E jobName waitSeconds t
  = (Ok VUndefined,
     history_before_check t jobName (waitBetweenRetries waitSeconds) k
       ++ [TranscribeGetJob jobName]).
Proof.
  intros Hends Hc Hf. rewrite (awaitJob_ends _ _ _ _ _ _ Hends).
  unfold transcriptOf.
  replace (TRANSCRIBE_COMPLETED =? TranscriptionJobStatus j)%string with false
    by (symmetry; apply String.eqb_neq; congruence).
  replace (TRANSCRIBE_FAILED =? TranscriptionJobStatus j)%string with false
    by (symmetry; apply String.eqb_neq; congruence).
  reflexivity.
Qed.

Lemma job_queued_check_ends :
  check_ends job_queued "job-1" TRANSCRIBE_WAIT_SECONDS [] 1 (queued "job-1").
Proof.
  split; [unfold TRIES; lia |]. split; [| split; [reflexivity | discriminate]].
  intros [|i] Hi; [| lia]; by eexists.
Qed.

Lemma awaitJob_other_status_witness :
  awaitJob job_queued "job-1" TRANSCRIBE_WAIT_SECONDS []
  = (Ok VUndefined,
     history_before_check [] "job-1"
       (waitBetweenRetries TRANSCRIBE_WAIT_SECONDS) 1
       ++ [TranscribeGetJob "job-1"]).
Proof.
  refine (awaitJob_other_status job_queued "job-1" TRANSCRIBE_WAIT_SECONDS [] 1
            (queued "job-1") job_queued_check_ends _ _); discriminate.
Defined.

(** X8.  When a status check throws, [awaitJob] throws that error: the check is
    not retried, although tries are left, and no transcript is downloaded. *)
Theorem awaitJob_check_throws E jobName waitSeconds t k e :
  check_throws E jobName waitSeconds t k e ->
  awaitJob E jobName waitSeconds t
  = (Throw e,
     history_before_check t jobName (waitBetweenRetries waitSeconds) k
       ++ [TranscribeGetJob jobName]).
Proof.
  intros (Hk & Hpend & Hthrow). rewrite awaitJob_unfold.
  rewrite (poll_throws E jobName _ TRIES k e None (t ++ [Wait INITIAL_WAIT_MS]));
    try done.
  - unfold history_before_check. by rewrite <- !app_assoc.
  - intros i Hi. specialize (Hpend i Hi). unfold history_before_check in Hpend.
    by rewrite <- app_assoc.
  - unfold history_before_check in Hthrow. by rewrite <- app_assoc.
Qed.

Lemma check_throttled_throws :
  check_throws check_throttled "job-1" TRANSCRIBE_WAIT_SECONDS [] 1 throttled.
Proof.
  split; [unfold TRIES; lia |]. split; [| reflexivity].
  intros [|i] Hi; [| lia]; by eexists.
Qed.

Lemma awaitJob_check_throws_witness :
  awaitJob check_throttled "job-1" TRANSCRIBE_WAIT_SECONDS []
  = (Throw throttled,
     history_before_check [] "job-1"
       (waitBetweenRetries TRANSCRIBE_WAIT_SECONDS) 1
       ++ [TranscribeGetJob "job-1"]).
Proof.
  exact (awaitJob_check_throws check_throttled "job-1" TRANSCRIBE_WAIT_SECONDS
           [] 1 throttled check_throttled_throws).
Defined.








(** X30.  With a budget below a minute the first wait alone, which is always
    60000 ms, is longer than the budget, and the delay asked for between two
    status checks is negative. *)
Theorem awaitJob_small_budget E jobName waitSeconds t :
  (waitSeconds < 60)%Q ->
  (waitSeconds * 1000 < INITIAL_WAIT_MS)%Q
  /\ (waitBetweenRetries waitSeconds < 0)%Q
  /\ exists k,
       k <= TRIES
       /\ waits (snd (awaitJob E jobName waitSeconds t))
          = waits t ++ INITIAL_WAIT_MS
              :: replicate k (waitBetweenRetries waitSeconds).
Proof.
  intros Hsmall. split; [unfold INITIAL_WAIT_MS; lra |].
  split; [| apply awaitJob_delays].
  unfold waitBetweenRetries, INITIAL_WAIT_MS.
  change (inject_Z (Z.of_nat TRIES)) with 6%Q.
  apply Qlt_shift_div_r; [reflexivity | lra].
Qed.

Lemma awaitJob_small_budget_witness :
  (30 * 1000 < INITIAL_WAIT_MS)%Q
  /\ (waitBetweenRetries 30 < 0)%Q
  /\ exists k,
       k <= TRIES
       /\ waits (snd (awaitJob job_queued "job-1" 30 []))
          = waits [] ++ INITIAL_WAIT_MS :: replicate k (waitBetweenRetries 30).
Proof.
  refine (awaitJob_small_budget job_queued "job-1" 30 [] _). reflexivity.
Defined.

End AwaitJobOutcomes.

(** ** Phone numbers: grouping, prefix, idempotence *)

Module PhoneFormat.
Import RegExpFacts Phone.

(** The mobile pattern needs the leading 04. *)
Lemma exec_mobile_first c0 c1 s :
  c0 <> "0"%char \/ c1 <> "4"%char ->
  exec re_mobile (String c0 (String c1 s)) = None.
Proof.
  intros Hc. unfold exec. change re_mobile with (Cat Bol (cat
    [Grp 1 (cat [chr "0"; chr "4"; times 2 (Sym digit)]);
     Grp 2 (times 3 (Sym digit)); Grp 3 (times 3 (Sym digit)); Eol])).
  rewrite exec_anchored. unfold chr. cbn [cat list_ascii_of_string].
  step_matcher. cbn [Nat.eqb].
  destruct (Ascii.eqb_spec "0" c0) as [<-|]; [| reflexivity].
  step_matcher.
  destruct (Ascii.eqb_spec "4" c1) as [<-|]; [| reflexivity].
  by destruct Hc.
Qed.

Lemma formatPhoneNumber_regroup s :
  formatPhoneNumber s
  = regroup match exec re_plus61 s with
            | Some m => "0" +:+ toString (capture m 1)
            | None => s
            end.
Proof. reflexivity. Qed.

Lemma no_plus_no_prefix s : "+"%char ∉ chars s -> exec re_plus61 s = None.
Proof.
  intros Hno. apply exec_plus61_none. intros (pre & d & post & -> & _).
  apply Hno. rewrite chars_app. apply elem_of_app. right. by left.
Qed.

Lemma digits_no_plus s : digits s -> "+"%char ∉ chars s.
Proof.
  intros Hd Hin. apply Hd in Hin.
  by apply (bool_decide_eq_false_1 ("+"%char ∈ chars "0123456789")).
Qed.


(** A string of ten digits is regrouped: 4-3-3 when it starts with 04, else
    2-4-4. *)
Lemma regroup_ten_digits s :
  ten_digits s ->
  regroup s = if String.prefix "04" s then grouped 4 3 s else grouped 2 4 s.
Proof.
  intros [Hlen Hd].
  destruct s as [|c0 [|c1 [|c2 [|c3 [|c4 [|c5 [|c6 [|c7 [|c8 [|c9 [|]]]]]]]]]]];
    try discriminate Hlen.
  assert (H0 : digit c0 = true) by (apply digit_spec, Hd; cbn [list_ascii_of_string]; repeat (first [by left | right])).
  assert (H1 : digit c1 = true) by (apply digit_spec, Hd; cbn [list_ascii_of_string]; repeat (first [by left | right])).
  assert (H2 : digit c2 = true) by (apply digit_spec, Hd; cbn [list_ascii_of_string]; repeat (first [by left | right])).
  assert (H3 : digit c3 = true) by (apply digit_spec, Hd; cbn [list_ascii_of_string]; repeat (first [by left | right])).
  assert (H4 : digit c4 = true) by (apply digit_spec, Hd; cbn [list_ascii_of_string]; repeat (first [by left | right])).
  assert (H5 : digit c5 = true) by (apply digit_spec, Hd; cbn [list_ascii_of_string]; repeat (first [by left | right])).
  assert (H6 : digit c6 = true) by (apply digit_spec, Hd; cbn [list_ascii_of_string]; repeat (first [by left | right])).
  assert (H7 : digit c7 = true) by (apply digit_spec, Hd; cbn [list_ascii_of_string]; repeat (first [by left | right])).
  assert (H8 : digit c8 = true) by (apply digit_spec, Hd; cbn [list_ascii_of_string]; repeat (first [by left | right])).
  assert (H9 : digit c9 = true) by (apply digit_spec, Hd; cbn [list_ascii_of_string]; repeat (first [by left | right])).
  clear Hlen Hd.
  assert (Hnat : exec re_national
                   (String c0 (String c1 (String c2 (String c3 (String c4
                      (String c5 (String c6 (String c7 (String c8
                         (String c9 "")))))))))) 
          = Some (MatchResult 0 (MState 10 []
              [(3, String c6 (String c7 (String c8 (String c9 ""))));
               (2, String c2 (String c3 (String c4 (String c5 ""))));
               (1, String c0 (String c1 ""))]))).
  { unfold exec. change re_national with (Cat Bol (cat
      [Grp 1 (times 2 (Sym digit)); Grp 2 (times 4 (Sym digit));
       Grp 3 (times 4 (Sym digit)); Eol])).
    rewrite exec_anchored. cbn [cat list_ascii_of_string]. step_matcher.
    cbn [Nat.eqb length Nat.leb take drop forallb andb Nat.add Nat.sub
         del_cap filter list_filter].
    rewrite H0, H1. cbn [andb]. step_matcher.
    cbn [Nat.eqb length Nat.leb take drop forallb andb Nat.add Nat.sub].
    rewrite H2, H3, H4, H5. cbn [andb]. step_matcher.
    cbn [Nat.eqb length Nat.leb take drop forallb andb Nat.add Nat.sub].
    rewrite H6, H7, H8, H9. cbn [andb]. step_matcher.
    reflexivity. }
  unfold regroup.
  destruct (Ascii.eqb_spec "0" c0) as [<-|Hc0].
  - destruct (Ascii.eqb_spec "4" c1) as [<-|Hc1].
    + assert (Hmob : exec re_mobile
                   (String "0" (String "4" (String c2 (String c3 (String c4
                      (String c5 (String c6 (String c7 (String c8
                         (String c9 "")))))))))) 
          = Some (MatchResult 0 (MState 10 []
              [(3, String c7 (String c8 (String c9 "")));
               (2, String c4 (String c5 (String c6 "")));
               (1, String "0" (String "4" (String c2 (String c3 ""))))]))).
      { unfold exec. change re_mobile with (Cat Bol (cat
          [Grp 1 (cat [chr "0"; chr "4"; times 2 (Sym digit)]);
           Grp 2 (times 3 (Sym digit)); Grp 3 (times 3 (Sym digit)); Eol])).
        rewrite exec_anchored. unfold chr. cbn [cat list_ascii_of_string].
        step_matcher.
        cbn [Nat.eqb length Nat.leb take drop forallb andb Nat.add Nat.sub].
        change (Ascii.eqb "0" "0") with true. cbv iota. step_matcher.
        change (Ascii.eqb "4" "4") with true. cbv iota. step_matcher.
        cbn [Nat.eqb length Nat.leb take drop forallb andb Nat.add Nat.sub].
        rewrite H2, H3. cbn [andb]. step_matcher.
        cbn [Nat.eqb length Nat.leb take drop forallb andb Nat.add Nat.sub].
        rewrite H4, H5, H6. cbn [andb]. step_matcher.
        cbn [Nat.eqb length Nat.leb take drop forallb andb Nat.add Nat.sub].
        rewrite H7, H8, H9. cbn [andb]. step_matcher.
        reflexivity. }
      rewrite Hmob. reflexivity.
    + rewrite exec_mobile_first by (right; congruence).
      rewrite Hnat. cbn [String.prefix].
      destruct (ascii_dec "0" "0"); [| done].
      destruct (ascii_dec "4" c1); [congruence | reflexivity].
  - rewrite exec_mobile_first by (left; congruence).
    rewrite Hnat. cbn [String.prefix].
    destruct (ascii_dec "0" c0); [congruence | reflexivity].
Qed.


(** What the prefix pattern captures where it matches: the digits that
    follow [+61], up to the text [post]. *)
Lemma plus61_capture pos d n post z :
  matcher re_plus61
    (MState pos ("+"%char :: "6"%char :: "1"%char :: d :: n ++ post) []) Some
  = Some z ->
  digit d = true -> Forall (fun ch => digit ch = true) n ->
  match post with ch :: _ => digit ch = false | [] => True end ->
  m_caps z = [(1, string_of_list_ascii (d :: n))].
Proof.
  unfold re_plus61, chr. cbn [cat]. step_matcher.
  change (Ascii.eqb "+" "+") with true. cbv iota. step_matcher.
  change (Ascii.eqb "6" "6") with true. cbv iota. step_matcher.
  change (Ascii.eqb "1" "1") with true. cbv iota. step_matcher.
  intros Hm Hd Hn Hpost. rewrite Hd in Hm.
  assert (Hend : forall c,
    star_sym digit (S (S (S (S pos))) + length n) post [] c
    = c (MState (S (S (S (S pos))) + length n) post [])).
  { intros c. destruct post as [|ch post]; [reflexivity |].
    cbn [star_sym]. by rewrite Hpost. }
  destruct (star_sym digit (S (S (S (S pos))) + length n) post []
              (fun y => Some (MState (m_pos y) (m_rest y)
                 ((1, string_of_list_ascii
                        (take (m_pos y - S (S (S pos))) (d :: n ++ post)))
                    :: del_cap 1 (m_caps y))))) as [z'|] eqn:Hs.
  - rewrite (star_sym_skip _ _ _ _ _ _ _ Hn Hs) in Hm.
    inversion Hm; subst z'. rewrite Hend in Hs. inversion Hs; subst z.
    cbn [m_caps m_pos]. f_equal. f_equal. f_equal.
    match goal with
    | |- context [take ?k _] =>
        replace k with (S (length n)) by (cbn; lia)
    end.
    cbn [take]. f_equal. by rewrite take_app_length.
  - by rewrite Hend in Hs.
Qed.

Lemma exec_from_skip r pos pre suf y :
  (forall a ch b, pre = a ++ ch :: b ->
     matcher r (MState (pos + length a) (ch :: b ++ suf) []) Some = None) ->
  matcher r (MState (pos + length pre) suf []) Some = Some y ->
  exec_from r pos (pre ++ suf) = Some (MatchResult (pos + length pre) y).
Proof.
  revert pos. induction pre as [|ch pre IH]; intros pos Hnone Hy.
  - simpl in *. rewrite Nat.add_0_r in *. by apply exec_from_here.
  - cbn [app exec_from].
    pose proof (Hnone [] ch pre eq_refl) as H0. simpl in H0.
    rewrite Nat.add_0_r in H0. rewrite H0.
    replace (pos + length (ch :: pre)) with (S pos + length pre) in *
      by (simpl; lia).
    apply IH; [| exact Hy].
    intros a ch' b ->. specialize (Hnone (ch :: a) ch' b eq_refl).
    by replace (S pos + length a) with (pos + length (ch :: a)) by (simpl; lia).
Qed.

Lemma plus61_needs_plus pos ch rest :
  ch <> "+"%char -> matcher re_plus61 (MState pos (ch :: rest) []) Some = None.
Proof.
  intros Hch. unfold re_plus61, chr. cbn [cat]. step_matcher.
  destruct (Ascii.eqb_spec "+" ch); [congruence | reflexivity].
Qed.

Lemma digits_Forall s :
  digits s <-> Forall (fun ch => digit ch = true) (chars s).
Proof.
  rewrite Forall_forall. unfold digits. by setoid_rewrite digit_spec.
Qed.

Lemma capture_one m s :
  m_caps (mr_end m) = [(1, s)] -> capture m 1 = VStr s.
Proof. intros H. unfold capture. by rewrite H. Qed.

(** The prefix pattern on a number in international form, with text around
    it. *)
Lemma exec_plus61_international pre n post :
  "+"%char ∉ chars pre -> n <> "" -> digits n ->
  match chars post with ch :: _ => digit ch = false | [] => True end ->
  exists m, exec re_plus61 (pre +:+ "+61" +:+ n +:+ post) = Some m
            /\ capture m 1 = VStr n.
Proof.
  intros Hpre Hn Hd Hpost. destruct n as [|d n]; [done |].
  apply digits_Forall in Hd. cbn [list_ascii_of_string] in Hd.
  apply Forall_cons in Hd as [Hd0 Hd].
  unfold exec. rewrite !chars_app. cbn [list_ascii_of_string app].
  destruct (matcher re_plus61
              (MState (0 + length (chars pre))
                 ("+"%char :: "6"%char :: "1"%char :: d
                    :: chars n ++ chars post) []) Some) as [z|] eqn:Hz.
  - exists (MatchResult (0 + length (chars pre)) z). split.
    + apply exec_from_skip; [| exact Hz].
      intros a ch b Heq. apply plus61_needs_plus. intros ->.
      apply Hpre. rewrite Heq. apply elem_of_app. right. by left.
    + apply capture_one. cbn [mr_end].
      rewrite (plus61_capture _ _ _ _ _ Hz Hd0 Hd Hpost).
      cbn [string_of_list_ascii]. by rewrite string_of_list_ascii_of_string.
  - assert (Hs : is_Some (matcher re_plus61
              (MState (0 + length (chars pre))
                 ("+"%char :: "6"%char :: "1"%char :: d
                    :: chars n ++ chars post) []) Some)).
    { apply plus61_here. exists d, (chars n ++ chars post).
      split; [reflexivity | by apply digit_spec]. }
    rewrite Hz in Hs. by destruct Hs.
Qed.


Lemma digit_run l :
  exists n post,
    l = n ++ post /\ Forall (fun ch => digit ch = true) n
    /\ match post with ch :: _ => digit ch = false | [] => True end.
Proof.
  induction l as [|ch l (n & post & -> & Hn & Hpost)]; [by exists [], [] |].
  destruct (digit ch) eqn:Hch.
  - exists (ch :: n), post. by repeat constructor.
  - by exists [], (ch :: n ++ post).
Qed.

(** Whatever the prefix pattern matches, its group holds digits, at least
    one. *)
Lemma plus61_captures_digits s m :
  exec re_plus61 s = Some m ->
  exists n, capture m 1 = VStr n /\ n <> "" /\ digits n.
Proof.
  unfold exec. intros Hm.
  apply exec_from_sound in Hm as (pre & suf & Hs & Hm).
  assert (Hsome : is_Some (matcher re_plus61
                             (MState (0 + length pre) suf []) Some))
    by (by eexists).
  apply plus61_here in Hsome as (d & rest & -> & Hd).
  destruct (digit_run rest) as (n & post & -> & Hn & Hpost).
  apply digit_spec in Hd.
  exists (string_of_list_ascii (d :: n)). split; [| split].
  - apply capture_one. by apply (plus61_capture _ _ _ _ _ Hm).
  - done.
  - apply digits_Forall. rewrite list_ascii_of_string_of_list_ascii.
    by constructor.
Qed.

Lemma substring_chars ch n m s :
  ch ∈ chars (substring n m s) -> ch ∈ chars s.
Proof.
  revert n m. induction s as [|c s IH]; intros n m.
  - by destruct n, m.
  - destruct n as [|n]; cbn [substring list_ascii_of_string].
    + destruct m as [|m]; [by intros ?%elem_of_nil |].
      cbn [list_ascii_of_string]. intros [->|H]%elem_of_cons; [by left |].
      right. by apply (IH 0 m).
    + intros H. right. by apply (IH n m).
Qed.

Lemma grouped_elem ch a b s :
  ch ∈ chars (grouped a b s) -> ch = " "%char \/ ch ∈ chars s.
Proof.
  unfold grouped. rewrite !chars_app, !elem_of_app.
  cbn [list_ascii_of_string].
  intros [H|[H|[H|[H|H]]]];
    try (right; exact (substring_chars _ _ _ _ H));
    apply list_elem_of_singleton in H; by left.
Qed.

Lemma grouped_has_space a b s : " "%char ∈ chars (grouped a b s).
Proof.
  unfold grouped. rewrite !chars_app, !elem_of_app. right. left. by left.
Qed.

Lemma grouped_not_ten_digits a b s : ~ ten_digits (grouped a b s).
Proof.
  intros [_ Hd]. specialize (Hd _ (grouped_has_space a b s)).
  by apply (bool_decide_eq_false_1 (" "%char ∈ chars "0123456789")).
Qed.

Lemma ten_digits_dec s : ten_digits s \/ ~ ten_digits s.
Proof.
  destruct (decide (length (chars s) = 10)) as [Hlen|Hlen];
    [| right; by intros [? _]].
  destruct (forallb digit (chars s)) eqn:Hall.
  - left. by apply ten_digits_forallb.
  - right. intros [_ Hd].
    assert (forallb digit (chars s) = true); [| congruence].
    apply forallb_forall. intros ch Hin. apply digit_spec, Hd.
    by apply list_elem_of_In.
Qed.

Lemma regroup_other s : ~ ten_digits s -> regroup s = s.
Proof.
  intros H. unfold regroup. by rewrite exec_mobile_none, exec_national_none.
Qed.

Lemma regroup_fixed x :
  exec re_plus61 x = None -> formatPhoneNumber (regroup x) = regroup x.
Proof.
  intros Hx. destruct (ten_digits_dec x) as [Hten|Hten].
  - rewrite (regroup_ten_digits x Hten).
    assert (Hy : forall a b, formatPhoneNumber (grouped a b x) = grouped a b x).
    { intros a b. rewrite formatPhoneNumber_regroup, no_plus_no_prefix.
      - apply regroup_other, grouped_not_ten_digits.
      - intros [H|H]%grouped_elem; [discriminate |].
        by apply (digits_no_plus x (proj2 Hten)). }
    by destruct (String.prefix "04" x).
  - rewrite (regroup_other x Hten), formatPhoneNumber_regroup, Hx.
    by apply regroup_other.
Qed.

End PhoneFormat.

Module PhoneFormatClaims.
Import RegExpFacts Phone PhoneFormat.

(** X10.  A string of ten digits is regrouped whether or not it came with the
    international prefix: as 4-3-3 when it starts with 04, else as 2-4-4. *)
Theorem formatPhoneNumber_ten_digits s :
  ten_digits s ->
  formatPhoneNumber s
  = if String.prefix "04" s then grouped 4 3 s else grouped 2 4 s.
Proof.
  intros Hten. rewrite formatPhoneNumber_regroup.
  rewrite (no_plus_no_prefix s (digits_no_plus s (proj2 Hten))).
  by apply regroup_ten_digits.
Qed.

Lemma formatPhoneNumber_ten_digits_witness :
  formatPhoneNumber "0893211234" = "08 9321 1234".
Proof.
  refine (formatPhoneNumber_ten_digits "0893211234" _).
  apply ten_digits_forallb; reflexivity.
Defined.

(** X11.  Of a number in international form only the digits after [+61] are kept,
    behind a 0: text before the prefix and text after the digits is dropped,
    and the result is formatted as the local number is. *)
Theorem formatPhoneNumber_international pre n post :
  "+"%char ∉ chars pre -> n <> "" -> digits n ->
  match chars post with ch :: _ => digit ch = false | [] => True end ->
  formatPhoneNumber (pre +:+ "+61" +:+ n +:+ post)
  = formatPhoneNumber ("0" +:+ n).
Proof.
  intros Hpre Hn Hd Hpost.
  destruct (exec_plus61_international pre n post Hpre Hn Hd Hpost)
    as (m & Hm & Hcap).
  rewrite !formatPhoneNumber_regroup, Hm, Hcap.
  rewrite (no_plus_no_prefix ("0" +:+ n)); [reflexivity |].
  intros [H|H]%elem_of_cons; [discriminate |].
  by apply (digits_no_plus n Hd).
Qed.

Lemma formatPhoneNumber_international_witness :
  formatPhoneNumber ("tel:" +:+ "+61" +:+ "412345678" +:+ ";ext=5")
  = formatPhoneNumber ("0" +:+ "412345678").
Proof.
  refine (formatPhoneNumber_international "tel:" "412345678" ";ext=5"
            _ _ _ _).
  - by apply (bool_decide_eq_false_1 ("+"%char ∈ chars "tel:")).
  - discriminate.
  - apply digits_Forall. repeat constructor.
  - reflexivity.
Defined.

(** X12.  Formatting a formatted number changes nothing. *)
Theorem formatPhoneNumber_idempotent s :
  formatPhoneNumber (formatPhoneNumber s) = formatPhoneNumber s.
Proof.
  rewrite (formatPhoneNumber_regroup s).
  destruct (exec re_plus61 s) as [m|] eqn:Hm; [| by apply regroup_fixed].
  destruct (plus61_captures_digits s m Hm) as (n & -> & _ & Hd).
  apply regroup_fixed, no_plus_no_prefix.
  intros [H|H]%elem_of_cons; [discriminate |].
  by apply (digits_no_plus n Hd).
Qed.

End PhoneFormatClaims.

(** ** The handler: classes of calls and the error boundary *)

Module Traces.
Import AwaitJob HandlerFacts.

Section Emits.
Context (P : call -> Prop).









Lemma emits_spawn {A} (m : M A) : emits_only P m -> emits_only P (spawn m).
Proof.
  intros Hm t. unfold spawn. destruct (Hm t) as (w & Hw & HP).
  destruct (m t) as [r t1]. by exists w.
Qed.

End Emits.









Lemma notificationSubject_no_alert purpose callingNumber :
  (notificationSubject purpose callingNumber =? ALERT_SUBJECT)%string = false.
Proof. reflexivity. Qed.









End Traces.

Module ProcessClaims.
Import AwaitJob HandlerFacts HandlerClaims Traces.


End ProcessClaims.

(** ** The handler: delivery *)

Module DeliverClaims.
Import RegExpFacts AwaitJob HandlerFacts HandlerClaims Harness MoreRuns.

Lemma append_assoc (a b c : string) : (a +:+ b) +:+ c = a +:+ (b +:+ c).
Proof.
  induction a as [|ch a IH]; [reflexivity |].
  change (String ch ((a +:+ b) +:+ c) = String ch (a +:+ (b +:+ c))).
  by f_equal.
Qed.

Lemma notificationText_transcript voicemail creationDate expiryDate :
  exists before after,
    notificationText voicemail creationDate expiryDate
    = before +:+ transcript_section (field voicemail "transcript") +:+ after.
Proof.
  exists (newline
            +:+ "Caller: " +:+ toString (field voicemail "callingNumber")
            +:+ newline
            +:+ "Called at: " +:+ creationDate +:+ newline
            +:+ "Purpose: " +:+ toString (field voicemail "purpose")
            +:+ newline +:+ newline).
  eexists. unfold notificationText, transcript_section.
  rewrite !append_assoc. reflexivity.
Qed.

Lemma getPresignedS3Url_run E voicemail t :
  getPresignedS3Url E voicemail t
  = match S3_getSignedUrl E t "getObject" (field voicemail "bucketName")
                          (field voicemail "objectKey")
                          (LINK_EXPIRY_IN_SECONDS E) with
    | Ok url => (Ok url, t ++ [link_call E voicemail])
    | Throw e => (Throw e, t ++ [link_call E voicemail; ConsoleError e])
    end.
Proof.
  unfold getPresignedS3Url, s3_getSignedUrl, try_catch, request, link_call.
  destruct (S3_getSignedUrl E t _ _ _ _); [reflexivity |].
  unfold bind, emit, throw. by rewrite <- app_assoc.
Qed.

(** The second half of the [try] block, once the job has been started, the
    wait for it has returned and the link has been signed. *)
Lemma deliver_run E voicemail t job t1 transcript t2 url :
  truthy (field voicemail "voicemail") = true ->
  startJob E (field voicemail "objectUrl") VUndefined t = (Ok job, t1) ->
  awaitJob E (TranscriptionJobName job) TRANSCRIBE_WAIT_SECONDS t1
  = (Ok transcript, t2) ->
  S3_getSignedUrl E t2 "getObject" (field voicemail "bucketName")
                  (field voicemail "objectKey") (LINK_EXPIRY_IN_SECONDS E)
  = Ok url ->
  exists message before after,
    let subject :=
      VStr (notificationSubject (field voicemail "purpose")
                                (field voicemail "callingNumber")) in
    deliver E voicemail t
    = (match SNS_publish E (t2 ++ [link_call E voicemail])
                         (NOTIFICATION_TOPIC E) subject message with
       | Ok _ => Ok success
       | Throw e => Throw e
       end,
       t2 ++ [link_call E voicemail;
              SnsPublish (NOTIFICATION_TOPIC E) subject message])
    /\ message = before +:+ transcript_section transcript +:+ after.
Proof.
  intros Hv Hstart Hawait Hurl.
  set (sent := <["preSignedUrl" := url]>
                 (<["transcript" := transcript]> voicemail)).
  destruct (notificationText_transcript sent
              (DateTime_fromISO_format E (NOTIFICATION_TIMEZONE E)
                 (field sent "creationDate"))
              (DateTime_local_plus_days_format E
                 (t2 ++ [link_call E voicemail]) (NOTIFICATION_TIMEZONE E)
                 (LINK_EXPIRY_IN_DAYS E)))
    as (before & after & Htext).
  assert (Ht : field sent "transcript" = transcript).
  { unfold field, sent. rewrite lookup_insert_ne by done.
    by rewrite lookup_insert. }
  rewrite Ht in Htext.
  eexists _, before, after. cbv zeta. split; [| exact Htext].
  unfold deliver. rewrite Hv. cbn [negb].
  unfold bind at 1, transcribeRecording, bind at 1.
  rewrite Hstart, Hawait.
  unfold bind at 1. rewrite getPresignedS3Url_run.
  assert (Hfield : forall k, k <> "transcript" -> k <> "preSignedUrl" ->
            field sent k = field voicemail k).
  { intros k H1 H2. unfold field, sent.
    by rewrite !lookup_insert_ne. }
  assert (Hfield' : forall k, k <> "transcript" ->
            field (<["transcript" := transcript]> voicemail) k
            = field voicemail k).
  { intros k H1. unfold field. by rewrite lookup_insert_ne. }
  unfold link_call at 1. rewrite !Hfield' by done. rewrite Hurl.
  fold (link_call E voicemail).
  unfold bind at 1. fold sent. rewrite sendNotification_run. cbv zeta.
  rewrite !Hfield by done.
  destruct (SNS_publish E _ _ _ _); unfold ret; rewrite <- app_assoc;
    reflexivity.
Qed.

(** X14.  For a voicemail call whose job was started: whatever [awaitJob]
    returns, [undefined] included (a job that did not finish in time, or one
    in an unexpected status), and provided the download link is signed,
    [process] publishes the notification, whose transcript section holds
    that value as a string.  When that publish succeeds [process] returns
    [{success: true}].  When it throws, [process] goes through its [catch]:
    it writes the error to [console.error], publishes the alert, and throws
    the error of the notification publish, or that of the alert publish. *)
Theorem process_notifies E event t voicemail t1 job t2 transcript t3 url :
  enrich E event (t ++ login_calls E) = (Ok voicemail, t1) ->
  truthy (field voicemail "voicemail") = true ->
  startJob E (field voicemail "objectUrl") VUndefined t1 = (Ok job, t2) ->
  awaitJob E (TranscriptionJobName job) TRANSCRIBE_WAIT_SECONDS t2
  = (Ok transcript, t3) ->
  S3_getSignedUrl E t3 "getObject" (field voicemail "bucketName")
                  (field voicemail "objectKey") (LINK_EXPIRY_IN_SECONDS E)
  = Ok url ->
  exists message before after,
    let subject :=
      VStr (notificationSubject (field voicemail "purpose")
                                (field voicemail "callingNumber")) in
    let asked := t3 ++ [link_call E voicemail] in
    let notified :=
      t3 ++ [link_call E voicemail;
             SnsPublish (NOTIFICATION_TOPIC E) subject message] in
    message = before +:+ transcript_section transcript +:+ after
    /\ process E event t
       = match SNS_publish E asked (NOTIFICATION_TOPIC E) subject message with
         | Ok _ => (Ok success, notified)
         | Throw e =>
             (match SNS_publish E (notified ++ [ConsoleError e])
                                (NOTIFICATION_TOPIC E) (VStr ALERT_SUBJECT)
                                (alertMessage e) with
              | Ok _ => Throw e
              | Throw e' => Throw e'
              end,
              notified ++ [ConsoleError e; alert_call E e])
         end.
Proof.
  intros Henrich Hv Hstart Hawait Hurl.
  destruct (deliver_run E voicemail t1 job t2 transcript t3 url
              Hv Hstart Hawait Hurl) as (message & before & after & Hrun & Htext).
  exists message, before, after. cbv zeta in *. split; [exact Htext |].
  rewrite process_unfold, pipeline_unfold, Henrich, Hrun.
  destruct (SNS_publish E (t3 ++ [link_call E voicemail]) _ _ _) as [r|e];
    [reflexivity |].
  by rewrite escalate_run.
Qed.

Lemma process_notifies_witness :
  exists message before after,
    let subject :=
      VStr (notificationSubject
              (field (returned ∅ never_finishes_enriched) "purpose")
              (field (returned ∅ never_finishes_enriched) "callingNumber")) in
    message = before +:+ transcript_section VUndefined +:+ after
    /\ process never_finishes event []
       = (Ok success,
          snd never_finishes_waited
            ++ [link_call never_finishes (returned ∅ never_finishes_enriched);
                SnsPublish (NOTIFICATION_TOPIC never_finishes) subject
                           message]).
Proof.
  refine (process_notifies never_finishes event []
            (returned ∅ never_finishes_enriched)
            (snd never_finishes_enriched)
            (returned no_job never_finishes_started)
            (snd never_finishes_started) VUndefined
            (snd never_finishes_waited) (VStr "https://signed/url")
            _ _ _ _ _).
  - vm_compute. reflexivity.
  - vm_compute. reflexivity.
  - vm_compute. reflexivity.
  - vm_compute. reflexivity.
  - reflexivity.
Defined.

(** X15.  A recording whose key holds no contact id is rejected before anything is
    asked of CloudWatch, Transcribe or S3: the error is written to
    [console.error], one alert is published, and the handler throws. *)
Theorem process_rejects_bad_key E record rest t objectKey e :
  decodeURIComponent E (replace_all re_plus_sign " " (s3_object_key record))
  = Ok objectKey ->
  contactIdFromObjectKey objectKey = Throw e ->
  e = TypeError "Unexpected objectKey format"
  /\ process E (record :: rest) t
     = (match SNS_publish E (t ++ login_calls E ++ [ConsoleError e])
                          (NOTIFICATION_TOPIC E) (VStr ALERT_SUBJECT)
                          (alertMessage e) with
        | Ok _ => Throw e
        | Throw e' => Throw e'
        end,
        t ++ login_calls E ++ [ConsoleError e; alert_call E e]).
Proof.
  intros Hdecode Hid. split.
  - unfold contactIdFromObjectKey in Hid.
    destruct (match exec re_contact_id objectKey with
              | Some m => capture m 1
              | None => VUndefined
              end); congruence.
  - rewrite process_unfold, pipeline_unfold.
    unfold enrich, bind at 1, getS3ObjectInfo. cbn [head].
    unfold bind at 1, lift at 1. rewrite Hdecode.
    unfold ret at 1, bind at 1, lift at 1.
    assert (Hkey : forall (m : gmap string value),
              field (<["objectKey" := VStr objectKey]> m) "objectKey"
              = VStr objectKey).
    { intros m. unfold field. by rewrite lookup_insert. }
    match goal with
    | |- context [contactIdFromObjectKey (toString (field ?m "objectKey"))] =>
        replace (field m "objectKey") with (VStr objectKey)
    end.
    + cbn [toString]. rewrite Hid, escalate_run.
      rewrite <- !app_assoc. reflexivity.
    + unfold field. symmetry.
      rewrite !insert_union_singleton_l.
      repeat (rewrite lookup_union_r
                by (by apply lookup_singleton_None)).
      rewrite lookup_union_l'; by rewrite lookup_singleton.
Qed.

Lemma process_rejects_bad_key_witness :
  TypeError "Unexpected objectKey format"
  = TypeError "Unexpected objectKey format"
  /\ process never_finishes stray_upload []
     = (Throw (TypeError "Unexpected objectKey format"),
        [] ++ login_calls never_finishes
          ++ [ConsoleError (TypeError "Unexpected objectKey format");
              alert_call never_finishes
                (TypeError "Unexpected objectKey format")]).
Proof.
  refine (process_rejects_bad_key never_finishes
            (S3EventRecord "b" (VStr "2018-06-19T07:03:00.000Z")
                           "calls/greeting.wav")
            [] [] "calls/greeting.wav"
            (TypeError "Unexpected objectKey format") _ _).
  - vm_compute. reflexivity.
  - vm_compute. reflexivity.
Defined.

End DeliverClaims.

(** ** The handler: enrichment *)

Module EnrichClaims.
Import RegExpFacts HandlerFacts Harness.

Lemma parseCallAttributes_from_app E good events : forall attributes t,
  parseCallAttributes_from E (good ++ events) attributes t
  = match parseCallAttributes_from E good attributes t with
    | (Ok attributes', t') => parseCallAttributes_from E events attributes' t'
    | (Throw e, t') => (Throw e, t')
    end.
Proof.
  induction good as [|event good IH]; intros attributes t; [reflexivity |].
  cbn [app parseCallAttributes_from]. unfold bind.
  destruct (parseCallAttribute E event attributes t) as [[a|e] t'];
    [apply IH | reflexivity].
Qed.

(** X16.  One log line that is not JSON makes the whole parse throw: the attributes
    read from the lines before it are lost, and the lines after it are not
    read. *)
Theorem parseCallAttributes_aborts E good bad rest t attributes t' e :
  parseCallAttributes E good t = (Ok attributes, t') ->
  JSON_parse E bad = Throw e ->
  parseCallAttributes E (good ++ bad :: rest) t = (Throw e, t).
Proof.
  unfold parseCallAttributes. intros Hgood Hbad.
  rewrite parseCallAttributes_from_app, Hgood.
  pose proof (parseCallAttributes_from_trace E good ∅ t) as Ht.
  rewrite Hgood in Ht. cbn [snd] in Ht. subst t'.
  cbn [parseCallAttributes_from]. unfold bind at 1, parseCallAttribute.
  unfold bind at 1, lift at 1. by rewrite Hbad.
Qed.

Lemma parseCallAttributes_aborts_witness :
  parseCallAttributes (surroundings publish_ok voicemail_logs always_pending)
    (["voicemail=true"] ++ "<html>" :: ["purpose=billing"]) []
  = (Throw (Exn "SyntaxError" "Unexpected token in JSON"), []).
Proof.
  refine (parseCallAttributes_aborts
            (surroundings publish_ok voicemail_logs always_pending)
            ["voicemail=true"] "<html>" ["purpose=billing"] []
            {[ "voicemail" := VStr "true" ]} []
            (Exn "SyntaxError" "Unexpected token in JSON") _ _).
  - vm_compute. reflexivity.
  - reflexivity.
Defined.

Lemma replace_plus_sign key :
  replace_all re_plus_sign " " key
  = string_of_list_ascii (map plus_to_space (chars key)).
Proof.
  unfold replace_all, re_plus_sign, chr. f_equal.
  change (chars " ") with [" "%char].
  by rewrite replace_loop_sym by lia.
Qed.

(** X17.  [getS3ObjectInfo] asks nothing of the outside world.  It turns every [+]
    of the key into a space, and nothing else, before it decodes the key; the
    bucket name and the event time are taken as they are, and both URLs are
    built from the decoded key. *)
Theorem getS3ObjectInfo_decodes_key E record t :
  getS3ObjectInfo E (Some record) t
  = (match decodeURIComponent E
             (string_of_list_ascii
                (map plus_to_space (chars (s3_object_key record)))) with
     | Ok objectKey =>
         Ok ({[ "bucketName" := VStr (s3_bucket_name record);
                "creationDate" := eventTime record;
                "objectKey" := VStr objectKey;
                "objectUrl" :=
                  VStr ("https://" +:+ s3_bucket_name record
                          +:+ ".s3.amazonaws.com/" +:+ objectKey);
                "consoleUrl" :=
                  VStr ("https://s3.console.aws.amazon.com/s3/object/"
                          +:+ s3_bucket_name record +:+ "/" +:+ objectKey) ]}
             : gmap string value)
     | Throw e => Throw e
     end, t).
Proof.
  unfold getS3ObjectInfo, bind, lift, ret. rewrite replace_plus_sign.
  by destruct (decodeURIComponent E _).
Qed.

End EnrichClaims.

Module ContactIdMore.
Import RegExpFacts Phone ContactId.



End ContactIdMore.

Module ContactIdSegments.
Import RegExpFacts Phone ContactId ContactIdMore FilePartsSplit.









End ContactIdSegments.

Module ContactIdClaim.
Import RegExpFacts ContactId ContactIdSegments.



End ContactIdClaim.

Module EnrichSearch.
Import RegExpFacts HandlerFacts ContactIdMore Harness.


End EnrichSearch.

(** ** agent.js: triggering the login *)

Module LoginAsync.
Import HandlerFacts Harness AgentRuns.

Lemma get_prop_throws v k e :
  get_prop v k = Throw e ->
  nullish v = true
  /\ e = TypeError ("Cannot read property '" +:+ k +:+ "' of " +:+ toString v).
Proof. destruct v; try discriminate; intros [= <-]; by split. Qed.

Lemma loginAsync_unfold E event t :
  loginAsync E event t
  = match contact_of event with
    | Ok (contactId, parameters) =>
        (Ok deferred, t ++ trigger_calls E contactId parameters)
    | Throw err =>
        (match SNS_publish E (t ++ [ConsoleError err]) (NOTIFICATION_TOPIC E)
                           (VStr ALERT_SUBJECT) (triggerFailureMessage err) with
         | Ok _ => Throw err
         | Throw err' => Throw err'
         end,
         t ++ [ConsoleError err;
               SnsPublish (NOTIFICATION_TOPIC E) (VStr ALERT_SUBJECT)
                          (triggerFailureMessage err)])
    end.
Proof.
  assert (Hcatch : forall err,
    (do_ emit (ConsoleError err);
     do_ sns_publish E (NOTIFICATION_TOPIC E) (triggerFailureMessage err)
                     (VStr ALERT_SUBJECT);
     throw err) t
    = (match SNS_publish E (t ++ [ConsoleError err]) (NOTIFICATION_TOPIC E)
                         (VStr ALERT_SUBJECT) (triggerFailureMessage err) with
       | Ok _ => Throw err
       | Throw err' => Throw err'
       end,
       t ++ [ConsoleError err;
             SnsPublish (NOTIFICATION_TOPIC E) (VStr ALERT_SUBJECT)
                        (triggerFailureMessage err)]) :> outcome value * _).
  { intros err. unfold bind, emit, sns_publish, request, throw.
    change (negb (truthy (VStr (triggerFailureMessage err)))) with false.
    cbv iota. cbn beta iota. destruct (SNS_publish E _ _ _ _); by rewrite <- app_assoc. }
  unfold loginAsync, try_catch, contact_of.
  unfold bind at 1, lift at 1.
  destruct (get_prop event "Details") as [Details|e]; [| apply Hcatch].
  unfold bind at 1, lift at 1.
  destruct (get_prop Details "ContactData") as [ContactData|e];
    [| apply Hcatch].
  unfold bind at 1, lift at 1.
  destruct (get_prop ContactData "ContactId") as [contactId|e].
  - unfold bind at 1, lift at 1. unfold bind at 1, lift at 1.
    destruct (get_prop Details "Parameters") as [parameters|e];
      [| apply Hcatch].
    unfold bind, spawn, sendLoginEvent, sns_publish, trigger_calls,
      trigger_message, request, throw, ret.
    destruct (truthy _); cbn; [reflexivity | by rewrite app_nil_r].
  - destruct (get_prop Details "Parameters"); apply Hcatch.
Qed.

End LoginAsync.

Module LoginAsyncClaims.
Import HandlerFacts Harness AgentRuns LoginAsync.

(** X19.  When the event has contact data, [loginAsync] returns
    [{success: null, deferred: true}] whatever SNS answers to the login
    event: the publish is not awaited, so its failure is neither logged nor
    alerted nor thrown. *)
Theorem loginAsync_defers E event t contactId parameters :
  contact_of event = Ok (contactId, parameters) ->
  loginAsync E event t
  = (Ok deferred, t ++ trigger_calls E contactId parameters).
Proof. intros H. by rewrite loginAsync_unfold, H. Qed.

Lemma loginAsync_defers_witness :
  loginAsync sns_down contact_flow_event []
  = (Ok deferred,
     [] ++ trigger_calls sns_down (VStr "abc-123") (VObj [])).
Proof.
  exact (loginAsync_defers sns_down contact_flow_event []
           (VStr "abc-123") (VObj []) eq_refl).
Defined.

(** X20.  When the event has no contact data (the event, its [Details] or their
    [ContactData] is [null] or [undefined]), [loginAsync] sends no login
    event: it writes the [TypeError] to [console.error], publishes one alert
    to NOTIFICATION_TOPIC and throws the [TypeError], or the error of the
    alert publish when that fails. *)
Theorem loginAsync_without_contact E event t err :
  contact_of event = Throw err ->
  (exists v k,
     nullish v = true
     /\ err = TypeError ("Cannot read property '" +:+ k +:+ "' of "
                           +:+ toString v))
  /\ loginAsync E event t
     = (match SNS_publish E (t ++ [ConsoleError err]) (NOTIFICATION_TOPIC E)
                          (VStr ALERT_SUBJECT) (triggerFailureMessage err) with
        | Ok _ => Throw err
        | Throw err' => Throw err'
        end,
        t ++ [ConsoleError err;
              SnsPublish (NOTIFICATION_TOPIC E) (VStr ALERT_SUBJECT)
                         (triggerFailureMessage err)]).
Proof.
  intros H. split; [| by rewrite loginAsync_unfold, H].
  unfold contact_of in H.
  destruct (get_prop event "Details") as [Details|e] eqn:H1;
    [| injection H as <-; apply get_prop_throws in H1 as [? ->];
       by eexists _, _].
  destruct (get_prop Details "ContactData") as [ContactData|e] eqn:H2;
    [| injection H as <-; apply get_prop_throws in H2 as [? ->];
       by eexists _, _].
  destruct (get_prop ContactData "ContactId") as [contactId|e] eqn:H3.
  - destruct (get_prop Details "Parameters") as [parameters|e] eqn:H4;
      [discriminate |].
    injection H as <-. apply get_prop_throws in H4 as [? ->].
    by eexists _, _.
  - assert (e = err) as ->.
    { destruct (get_prop Details "Parameters"); congruence. }
    apply get_prop_throws in H3 as [? ->]. by eexists _, _.
Qed.

Lemma loginAsync_without_contact_witness :
  loginAsync sns_down (VObj [("Details", VObj [])]) []
  = (Throw (Exn "InternalFailure" "SNS is unavailable"),
     [ConsoleError
        (TypeError "Cannot read property 'ContactId' of undefined");
      SnsPublish (NOTIFICATION_TOPIC sns_down) (VStr ALERT_SUBJECT)
        (triggerFailureMessage
           (TypeError "Cannot read property 'ContactId' of undefined"))]).
Proof.
  exact (proj2 (loginAsync_without_contact sns_down
                  (VObj [("Details", VObj [])]) []
                  (TypeError "Cannot read property 'ContactId' of undefined")
                  eq_refl)).
Defined.

End LoginAsyncClaims.

(** ** agent.js: the status words *)

Module StatusWords.
Import RegExpFacts MatcherProgress FilePartsSplit Browser.

Lemma matcher_cat_cons r rs x c :
  matcher (cat (r :: rs)) x c = matcher r x (fun y => matcher (cat rs) y c).
Proof. by destruct rs. Qed.

Lemma matcher_letters ps : forall pos rest caps c,
  matcher (cat (map (fun p => letter p.1 p.2) ps)) (MState pos rest caps) c
  = if spelled ps rest
    then c (MState (pos + length ps) (drop (length ps) rest) caps)
    else None.
Proof.
  induction ps as [|[a b] ps IH]; intros pos rest caps c.
  - cbn [map cat spelled length drop]. rewrite matcher_Eps.
    by rewrite Nat.add_0_r.
  - cbn [map]. rewrite matcher_cat_cons. unfold letter at 1. cbn [fst snd].
    rewrite matcher_Sym. destruct rest as [|ch rest]; [reflexivity |].
    cbn [spelled]. destruct (one_of _ ch); [| reflexivity].
    rewrite IH. cbn [andb length drop].
    by replace (S pos + length ps) with (pos + S (length ps)) by lia.
Qed.

Lemma letter_case a ch :
  bool_decide (a ∈ chars "abcdefghijklmnopqrstuvwxyz") = true ->
  one_of [Ascii.eqb a; Ascii.eqb (ascii_of_nat (nat_of_ascii a - 32))] ch
  = Ascii.eqb (lower ch) a.
Proof.
  destruct a as [[] [] [] [] [] [] [] []];
    try (intros H; vm_compute in H; discriminate H);
    intros _; destruct ch as [[] [] [] [] [] [] [] []]; reflexivity.
Qed.

Lemma spelled_letters word : forall l,
  Forall (fun a => bool_decide (a ∈ chars "abcdefghijklmnopqrstuvwxyz") = true)
         (chars word) ->
  spelled (letters word) l = true
  <-> exists w post, l = w ++ post /\ map lower w = chars word.
Proof.
  unfold letters. induction word as [|a word IH]; intros l Hword.
  - split; [intros _; by exists [], l | done].
  - cbn [list_ascii_of_string] in Hword. apply Forall_cons in Hword as [Ha Hw].
    cbn [list_ascii_of_string map spelled].
    destruct l as [|ch l].
    + split; [done | intros ([|??] & post & ? & ?); done].
    + rewrite (letter_case a ch Ha), andb_true_iff, (IH l Hw). split.
      * intros [Hch (w & post & -> & Hlow)]. exists (ch :: w), post.
        split; [reflexivity |]. cbn [map]. f_equal; [| exact Hlow].
        by apply Ascii.eqb_eq.
      * intros ([|ch' w] & post & Heq & Hlow); [done |].
        injection Heq as -> ->. injection Hlow as Hch Hlow.
        split; [by apply Ascii.eqb_eq | by exists w, post].
Qed.

(** A pattern that is one word matches the strings that contain the word,
    whatever the case of their letters. *)
Lemma exec_word word s :
  Forall (fun a => bool_decide (a ∈ chars "abcdefghijklmnopqrstuvwxyz") = true)
         (chars word) ->
  is_Some (exec (cat (map (fun p => letter p.1 p.2) (letters word))) s)
  <-> mentions word s.
Proof.
  intros Hword. unfold exec. split.
  - intros [m Hm]. apply exec_from_sound in Hm as (pre & suf & Hs & Hm).
    rewrite matcher_letters in Hm.
    destruct (spelled (letters word) suf) eqn:Hsp; [| discriminate].
    apply (spelled_letters word suf Hword) in Hsp as (w & post & -> & Hlow).
    exists (string_of_list_ascii pre), (string_of_list_ascii w),
           (string_of_list_ascii post).
    split; [| by rewrite list_ascii_of_string_of_list_ascii].
    rewrite <- !string_of_chars_app, <- Hs.
    by rewrite string_of_list_ascii_of_string.
  - intros (pre & w & post & -> & Hlow). rewrite !chars_app.
    apply exec_from_complete. rewrite matcher_letters.
    assert (Hsp : spelled (letters word) (chars w ++ chars post) = true).
    { apply (spelled_letters word _ Hword). by eexists _, _. }
    rewrite Hsp. by eexists.
Qed.

Lemma is_Some_true {A} (o : option A) :
  (match o with Some _ => true | None => false end) = true <-> is_Some o.
Proof. destruct o; split; try done; by intros [? ?]. Qed.

Lemma test_available v :
  test re_available v = true <-> mentions "available" (toString v).
Proof.
  unfold test. rewrite is_Some_true. apply (exec_word "available").
  by repeat constructor.
Qed.

Lemma test_connected v :
  test re_connected v = true <-> mentions "connected" (toString v).
Proof.
  unfold test. rewrite is_Some_true. apply (exec_word "connected").
  by repeat constructor.
Qed.

Lemma test_available_or_connected v :
  test re_available_or_connected v = true
  <-> mentions "available" (toString v) \/ mentions "connected" (toString v).
Proof.
  rewrite <- (exec_word "available"), <- (exec_word "connected")
    by (by repeat constructor).
  unfold test, exec. rewrite is_Some_true.
  assert (Hhere : forall pos rest,
    matcher re_available_or_connected (MState pos rest []) Some
    = if spelled (letters "available") rest
           || spelled (letters "connected") rest
      then matcher re_available_or_connected (MState pos rest []) Some
      else None).
  { intros pos rest. unfold re_available_or_connected.
    rewrite matcher_Grp, matcher_Alt.
    change word_available
      with (cat (map (fun p => letter p.1 p.2) (letters "available"))).
    change word_connected
      with (cat (map (fun p => letter p.1 p.2) (letters "connected"))).
    rewrite !matcher_letters.
    by destruct (spelled (letters "available") rest),
                (spelled (letters "connected") rest). }
  assert (Hsome : forall pos rest,
    spelled (letters "available") rest || spelled (letters "connected") rest
    = true ->
    is_Some (matcher re_available_or_connected (MState pos rest []) Some)).
  { intros pos rest H. unfold re_available_or_connected.
    rewrite matcher_Grp, matcher_Alt.
    change word_available
      with (cat (map (fun p => letter p.1 p.2) (letters "available"))).
    change word_connected
      with (cat (map (fun p => letter p.1 p.2) (letters "connected"))).
    rewrite !matcher_letters.
    destruct (spelled (letters "available") rest); [by eexists |].
    destruct (spelled (letters "connected") rest); [by eexists | done]. }
  split.
  - intros [m Hm]. apply exec_from_sound in Hm as (pre & suf & Hs & Hm).
    rewrite Hhere in Hm.
    destruct (spelled (letters "available") suf) eqn:H1;
      [left | destruct (spelled (letters "connected") suf) eqn:H2;
                [right | discriminate]];
      rewrite Hs; apply exec_from_complete; rewrite matcher_letters;
      [rewrite H1 | rewrite H2]; by eexists.
  - intros [[m Hm]|[m Hm]];
      apply exec_from_sound in Hm as (pre & suf & -> & Hm);
      rewrite matcher_letters in Hm;
      apply exec_from_complete, Hsome.
    + destruct (spelled (letters "available") suf); [done | discriminate].
    + destruct (spelled (letters "connected") suf);
        [by rewrite orb_true_r | discriminate].
Qed.

End StatusWords.

(** ** agent.js: the login in the browser *)

Module OutsideFacts.


End OutsideFacts.

Module BrowserFacts.
Import Browser BrowserWords.

Section Does.
Context (P : action -> Prop).

Lemma does_ret {A} (a : A) : does_only P (ret a).
Proof. intros t. exists []. by rewrite app_nil_r. Qed.

Lemma does_throw {A} e : does_only P (@throw A e).
Proof. intros t. exists []. by rewrite app_nil_r. Qed.

Lemma does_history : does_only P history.
Proof. intros t. exists []. by rewrite app_nil_r. Qed.

Lemma does_emit a : P a -> does_only P (emit a).
Proof. intros Ha t. exists [a]. by repeat constructor. Qed.

Lemma does_request {A} a (answer : list action -> outcome A) :
  P a -> does_only P (request a answer).
Proof. intros Ha t. exists [a]. by repeat constructor. Qed.

Lemma does_bind {A C} (m : B A) (f : A -> B C) :
  does_only P m -> (forall a, does_only P (f a)) -> does_only P (bind m f).
Proof.
  intros Hm Hf t. unfold bind. destruct (Hm t) as (w & Hw & HP).
  destruct (m t) as [[a|e] t1]; cbn [snd] in Hw; subst t1.
  - destruct (Hf a (t ++ w)) as (w' & Hw' & HP'). exists (w ++ w').
    rewrite Hw', <- app_assoc. split; [reflexivity | by apply Forall_app].
  - by exists w.
Qed.

Lemma does_try_catch {A} (m : B A) (handler : exn -> B A) :
  does_only P m -> (forall e, does_only P (handler e)) ->
  does_only P (try_catch m handler).
Proof.
  intros Hm Hh t. unfold try_catch. destruct (Hm t) as (w & Hw & HP).
  destruct (m t) as [[a|e] t1]; cbn [snd] in Hw; subst t1.
  - by exists w.
  - destruct (Hh e (t ++ w)) as (w' & Hw' & HP'). exists (w ++ w').
    rewrite Hw', <- app_assoc. split; [reflexivity | by apply Forall_app].
Qed.

Lemma does_finally {A} (m : B A) (cleanup : B unit) :
  does_only P m -> does_only P cleanup -> does_only P (finally m cleanup).
Proof.
  intros Hm Hc t. unfold finally. destruct (Hm t) as (w & Hw & HP).
  destruct (m t) as [r t1]; cbn [snd] in Hw; subst t1.
  destruct (Hc (t ++ w)) as (w' & Hw' & HP'). exists (w ++ w').
  destruct (cleanup (t ++ w)) as [[?|?] t2]; cbn [snd] in *; subst t2;
    rewrite <- app_assoc; (split; [reflexivity | by apply Forall_app]).
Qed.

End Does.

Lemma does_weaken {A} (P Q : action -> Prop) (m : B A) :
  (forall a, P a -> Q a) -> does_only P m -> does_only Q m.
Proof.
  intros HPQ Hm t. destruct (Hm t) as (w & Hw & HP). exists w.
  split; [exact Hw |]. by apply (Forall_impl P).
Qed.

Ltac does :=
  repeat lazymatch goal with
    | |- does_only _ (bind _ _) => apply does_bind; [| intros ?]
    | |- does_only _ (try_catch _ _) => apply does_try_catch; [| intros ?]
    | |- does_only _ (finally _ _) => apply does_finally
    | |- does_only _ (ret _) => apply does_ret
    | |- does_only _ (throw _) => apply does_throw
    | |- does_only _ history => apply does_history
    | |- does_only _ (request _ _) => apply does_request; done
    | |- does_only _ (emit _) => apply does_emit; done
    | |- does_only _ (if ?b then _ else _) => destruct b
    end.

Lemma readStatus_does Br waitForElement :
  does_only observation (readStatus Br waitForElement).
Proof.
  unfold readStatus, waitForSelector, textContent, unable_to_retrieve. does.
Qed.

Lemma getAgentStatus_does Br waitForElement :
  does_only observation (getAgentStatus Br waitForElement).
Proof.
  unfold getAgentStatus, waitForSelector. does. apply readStatus_does.
Qed.

(** What is thrown inside the [try] of [getAgentStatus] stays inside. *)
Lemma readStatus_returns Br waitForElement t :
  exists status, fst (readStatus Br waitForElement t) = Ok status.
Proof.
  unfold readStatus, try_catch at 1.
  match goal with |- context [match ?m with _ => _ end] =>
    destruct m as [[status|e] t1] end.
  - by exists status.
  - by exists VNull.
Qed.

Lemma getAgentStatus_unfold Br waitForElement t :
  getAgentStatus Br waitForElement t
  = match page_waitForSelector Br t "body" Visible with
    | Ok _ =>
        readStatus Br waitForElement (t ++ [WaitForSelector "body" Visible])
    | Throw e => (Throw e, t ++ [WaitForSelector "body" Visible])
    end.
Proof. reflexivity. Qed.

Lemma fillAndSubmitLoginForm_does Br :
  does_only on_page (fillAndSubmitLoginForm Br).
Proof. unfold fillAndSubmitLoginForm, waitForSelector. does. Qed.

Lemma observation_on_page a : observation a -> on_page a.
Proof. by destruct a. Qed.

Lemma observation_or_click_on_page a : observation_or_click a -> on_page a.
Proof. destruct a; intros [H|H]; done. Qed.

Lemma on_page_keeps_open a : on_page a -> keeps_open a.
Proof. by destruct a. Qed.


Lemma makeAgentAvailable_does Br :
  does_only observation_or_click (makeAgentAvailable Br).
Proof.
  unfold makeAgentAvailable, waitForSelector.
  apply does_bind; [| intros status].
  { apply (does_weaken observation); [by left | apply getAgentStatus_does]. }
  destruct (_ && _); [does |]. destruct (_ && _); [does |].
  apply does_bind; [apply does_request; by right | intros _].
  apply does_bind; [apply does_request; by left | intros _].
  apply does_bind; [| intros status'; does].
  apply (does_weaken observation); [by left | apply getAgentStatus_does].
Qed.

Lemma visit_does Br : does_only on_page (visit Br).
Proof.
  unfold visit. does;
    first [ apply fillAndSubmitLoginForm_does
          | apply (does_weaken observation);
              [apply observation_on_page | apply getAgentStatus_does]
          | apply (does_weaken observation_or_click);
              [apply observation_or_click_on_page
              | apply makeAgentAvailable_does] ].
Qed.

Lemma looks_clicks_nothing {A} (m : B A) :
  does_only observation m -> clicks_within 0 m.
Proof.
  intros Hm t. destruct (Hm t) as (w & Hw & HP). exists w.
  split; [exact Hw |]. clear Hw.
  induction HP as [|a w Ha _ IH]; [done |]. cbn [List.filter]. by destruct a.
Qed.

Lemma clicks_within_mono {A} n n' (m : B A) :
  n <= n' -> clicks_within n m -> clicks_within n' m.
Proof.
  intros Hn Hm t. destruct (Hm t) as (w & Hw & Hc). exists w.
  split; [exact Hw | lia].
Qed.

Lemma clicks_within_bind {A C} n1 n2 (m : B A) (f : A -> B C) :
  clicks_within n1 m -> (forall a, clicks_within n2 (f a)) ->
  clicks_within (n1 + n2) (bind m f).
Proof.
  intros Hm Hf t. unfold bind. destruct (Hm t) as (w & Hw & Hc).
  destruct (m t) as [[a|e] t1]; cbn [snd] in Hw; subst t1.
  - destruct (Hf a (t ++ w)) as (w' & Hw' & Hc'). exists (w ++ w').
    rewrite Hw', <- app_assoc, List.filter_app, length_app.
    split; [reflexivity | lia].
  - exists w. split; [reflexivity | lia].
Qed.

Lemma clicks_within_request {A} a (answer : list action -> outcome A) :
  clicks_within 1 (request a answer).
Proof. intros t. exists [a]. split; [reflexivity |]. destruct a; simpl; lia. Qed.

Lemma makeAgentAvailable_clicks Br : clicks_within 1 (makeAgentAvailable Br).
Proof.
  unfold makeAgentAvailable.
  apply (clicks_within_bind 0 1);
    [apply looks_clicks_nothing, getAgentStatus_does | intros status].
  assert (Hret : clicks_within 1 (@ret unit tt)).
  { apply (clicks_within_mono 0); [lia |].
    apply looks_clicks_nothing, does_ret. }
  destruct (_ && _); [exact Hret |]. destruct (_ && _); [exact Hret |].
  apply (clicks_within_bind 1 0); [apply clicks_within_request | intros _].
  apply (clicks_within_bind 0 0); [| intros _].
  { apply looks_clicks_nothing. unfold waitForSelector.
    by apply does_request. }
  apply (clicks_within_bind 0 0);
    [apply looks_clicks_nothing, getAgentStatus_does | intros status'].
  apply looks_clicks_nothing. destruct (_ && _); [apply does_ret | apply does_throw].
Qed.

Lemma dump_does Br err : does_only on_page (dump Br err).
Proof. unfold dump. does. Qed.

Lemma attempt_does Br : does_only on_page (try_catch (visit Br) (dump Br)).
Proof. apply does_try_catch; [apply visit_does | apply dump_does]. Qed.

Lemma run_unfold Br t :
  run Br t
  = match browser_newPage Br t with
    | Ok _ =>
        finally (try_catch (visit Br) (dump Br)) (close Br) (t ++ [NewPage])
    | Throw e => (Throw e, t ++ [NewPage])
    end.
Proof. reflexivity. Qed.

Lemma close_run Br h :
  close Br h
  = match page_close Br h with
    | Ok _ => (browser_close Br (h ++ [ClosePage]),
               h ++ [ClosePage; CloseBrowser])
    | Throw e => (Throw e, h ++ [ClosePage])
    end.
Proof.
  unfold close, bind, request. destruct (page_close Br h); [| reflexivity].
  by rewrite <- app_assoc.
Qed.





End BrowserFacts.

Module AgentStatusClaims.
Import Browser BrowserWords BrowserFacts StatusWords Pages.

(** X21.  [getAgentStatus] only looks at the page: after the wait for [body] it
    waits for elements, reads texts and writes to [console.error], and does
    nothing else.  It throws only when the wait for [body] throws; whatever
    is thrown after that wait is caught, and a status is returned. *)
Theorem getAgentStatus_only_looks Br waitForElement t :
  exists work,
    snd (getAgentStatus Br waitForElement t)
    = t ++ WaitForSelector "body" Visible :: work
    /\ Forall observation work
    /\ match page_waitForSelector Br t "body" Visible with
       | Ok _ =>
           exists status, fst (getAgentStatus Br waitForElement t) = Ok status
       | Throw e =>
           fst (getAgentStatus Br waitForElement t) = Throw e /\ work = []
       end.
Proof.
  rewrite getAgentStatus_unfold.
  destruct (page_waitForSelector Br t "body" Visible) as [u|e].
  - destruct (readStatus_does Br waitForElement
                (t ++ [WaitForSelector "body" Visible])) as (work & Hw & HP).
    exists work. rewrite Hw, <- app_assoc. split; [reflexivity |].
    split; [exact HP | apply readStatus_returns].
  - exists []. by repeat split.
Qed.

(** X22.  Without a user name or a password in the environment,
    [fillAndSubmitLoginForm] types nothing: it waits for the user name
    field and then throws a [TypeError]. *)
Theorem fillAndSubmitLoginForm_needs_credentials Br t :
  nullish (CCP_USERNAME Br) || nullish (CCP_PASSWORD Br) = true ->
  fillAndSubmitLoginForm Br t
  = (match page_waitForSelector Br t username_input Visible with
     | Ok _ => Throw (TypeError "Missing agent username or password")
     | Throw e => Throw e
     end,
     t ++ [WaitForSelector username_input Visible]).
Proof.
  intros H. unfold fillAndSubmitLoginForm, bind at 1, waitForSelector, request.
  rewrite H. by destruct (page_waitForSelector Br t username_input Visible).
Qed.

Lemma fillAndSubmitLoginForm_needs_credentials_witness :
  fillAndSubmitLoginForm no_credentials []
  = (Throw (TypeError "Missing agent username or password"),
     [] ++ [WaitForSelector username_input Visible]).
Proof.
  exact (fillAndSubmitLoginForm_needs_credentials no_credentials [] eq_refl).
Defined.

Lemma asks_nothing status :
  nullish status = false ->
  mentions "available" (toString status)
  \/ mentions "connected" (toString status) ->
  (negb (nullish status) && test re_available status = true)
  \/ (negb (nullish status) && test re_connected status = true).
Proof.
  intros -> [H|H]; [left | right]; cbn [negb andb].
  - by apply test_available.
  - by apply test_connected.
Qed.

(** X23.  An agent whose status reads available or connected, in whatever letter
    case, is left alone: [makeAgentAvailable] does nothing after it has read
    the status; in particular it clicks nothing. *)
Theorem makeAgentAvailable_leaves_agent Br t status t1 :
  getAgentStatus Br true t = (Ok status, t1) ->
  nullish status = false ->
  mentions "available" (toString status)
  \/ mentions "connected" (toString status) ->
  makeAgentAvailable Br t = (Ok tt, t1).
Proof.
  intros Hstatus Hnull Hm. unfold makeAgentAvailable, bind at 1.
  rewrite Hstatus.
  destruct (asks_nothing status Hnull Hm) as [->| H]; [reflexivity |].
  rewrite H.
  destruct (negb (nullish status) && test re_available status); reflexivity.
Qed.

Lemma makeAgentAvailable_leaves_agent_witness :
  makeAgentAvailable on_call []
  = (Ok tt, snd (getAgentStatus on_call true [])).
Proof.
  refine (makeAgentAvailable_leaves_agent on_call [] (VStr "Connected")
            (snd (getAgentStatus on_call true [])) _ _ _).
  - vm_compute. reflexivity.
  - reflexivity.
  - right. by exists "", "Connected", "".
Defined.

Lemma asks_click status :
  nullish status = true
  \/ (~ mentions "available" (toString status)
      /\ ~ mentions "connected" (toString status)) ->
  negb (nullish status) && test re_available status = false
  /\ negb (nullish status) && test re_connected status = false.
Proof.
  intros [->|[H1 H2]]; [done |].
  split; apply andb_false_iff; right; apply not_true_is_false.
  - by rewrite test_available.
  - by rewrite test_connected.
Qed.

(** X24.  An agent whose status is missing, or reads neither available nor
    connected, is made available with one click on the button; when the
    status read after the click is available or connected
    [makeAgentAvailable] returns, otherwise it throws. *)
Theorem makeAgentAvailable_sets_available Br t status t1 status' t3 :
  getAgentStatus Br true t = (Ok status, t1) ->
  nullish status = true
  \/ (~ mentions "available" (toString status)
      /\ ~ mentions "connected" (toString status)) ->
  page_click Br t1 "button.setAvailButton" = Ok tt ->
  page_waitForSelector Br (t1 ++ [Click "button.setAvailButton"])
                       "button.setAvailButton" Hidden = Ok tt ->
  getAgentStatus Br false
    (t1 ++ [Click "button.setAvailButton";
            WaitForSelector "button.setAvailButton" Hidden])
  = (Ok status', t3) ->
  (nullish status' = false
   /\ (mentions "available" (toString status')
       \/ mentions "connected" (toString status')) ->
   makeAgentAvailable Br t = (Ok tt, t3))
  /\ (nullish status' = true
      \/ (~ mentions "available" (toString status')
          /\ ~ mentions "connected" (toString status')) ->
      makeAgentAvailable Br t
      = (Throw (Error "Failed to make agent available"), t3)).
Proof.
  intros Hstatus Hask Hclick Hwait Hstatus'.
  destruct (asks_click status Hask) as [Ha Hc].
  assert (Hrun : makeAgentAvailable Br t
    = (if negb (nullish status') && test re_available_or_connected status'
       then Ok tt else Throw (Error "Failed to make agent available"), t3)).
  { unfold makeAgentAvailable, bind at 1. rewrite Hstatus, Ha, Hc.
    unfold bind at 1, request at 1. rewrite Hclick.
    unfold bind at 1, waitForSelector at 1, request at 1. rewrite Hwait.
    rewrite <- app_assoc. cbn [app]. unfold bind at 1. rewrite Hstatus'.
    destruct (negb (nullish status') && test re_available_or_connected status');
      reflexivity. }
  rewrite Hrun. split.
  - intros [-> Hm]. cbn [negb andb].
    by rewrite (proj2 (test_available_or_connected status') Hm).
  - intros Hnot.
    replace (negb (nullish status') && test re_available_or_connected status')
      with false; [reflexivity |].
    symmetry. destruct Hnot as [->|[H1 H2]]; [done |].
    apply andb_false_iff. right. apply not_true_is_false.
    rewrite test_available_or_connected. by intros [?|?].
Qed.

Lemma makeAgentAvailable_sets_available_witness :
  makeAgentAvailable offline []
  = (Ok tt,
     snd (getAgentStatus offline false
            (snd (getAgentStatus offline true [])
               ++ [Click "button.setAvailButton";
                   WaitForSelector "button.setAvailButton" Hidden]))).
Proof.
  refine (proj1 (makeAgentAvailable_sets_available offline []
                   (VStr "Offline") (snd (getAgentStatus offline true []))
                   (VStr "Available") _ _ _ _ _ _) _).
  - vm_compute. reflexivity.
  - right. split; intros H.
    + apply (test_available (VStr "Offline")) in H. vm_compute in H.
      discriminate H.
    + apply (test_connected (VStr "Offline")) in H. vm_compute in H.
      discriminate H.
  - reflexivity.
  - reflexivity.
  - vm_compute. reflexivity.
  - split; [reflexivity |]. left. by exists "", "Available", "".
Defined.

(** X25.  Whatever the page answers, [makeAgentAvailable] only looks at the page
    and clicks in it, and it clicks at most once. *)
Theorem makeAgentAvailable_clicks_at_most_once Br t :
  exists work,
    snd (makeAgentAvailable Br t) = t ++ work
    /\ Forall observation_or_click work
    /\ length (List.filter is_click work) <= 1.
Proof.
  destruct (makeAgentAvailable_does Br t) as (work & Hw & HP).
  destruct (makeAgentAvailable_clicks Br t) as (work' & Hw' & Hc).
  exists work. split; [exact Hw |]. split; [exact HP |].
  rewrite Hw in Hw'. by apply app_inv_head in Hw' as ->.
Qed.

End AgentStatusClaims.

Module RunClaims.
Import Browser BrowserWords OutsideFacts BrowserFacts StatusWords Pages.

(** X26.  Once the page is open, [run] always ends by closing it, whatever
    happened before, and closes nothing before that.  The browser is closed
    after the page, unless closing the page throws: then the browser is left
    open and that error is what [run] throws.  When the page cannot be
    opened, [run] throws at once and closes nothing. *)
Theorem run_closes Br t :
  match browser_newPage Br t with
  | Throw e => run Br t = (Throw e, t ++ [NewPage])
  | Ok _ =>
      exists work,
        Forall keeps_open work
        /\ match page_close Br (t ++ NewPage :: work) with
           | Throw e =>
               run Br t = (Throw e, (t ++ NewPage :: work) ++ [ClosePage])
           | Ok _ =>
               snd (run Br t)
               = (t ++ NewPage :: work) ++ [ClosePage; CloseBrowser]
           end
  end.
Proof.
  rewrite run_unfold. destruct (browser_newPage Br t) as [u|e]; [| reflexivity].
  destruct (attempt_does Br (t ++ [NewPage])) as (work & Hw & HP).
  exists work. split; [by apply (Forall_impl on_page), on_page_keeps_open |].
  unfold finally.
  destruct (try_catch (visit Br) (dump Br) (t ++ [NewPage])) as [r h].
  cbn [snd] in Hw. subst h. rewrite close_run, <- app_assoc. cbn [app].
  destruct (page_close Br (t ++ NewPage :: work)) as [u'|e]; [| reflexivity].
  by destruct (browser_close Br _).
Qed.

(** X27.  When the visit throws, [run] writes the error to [console.error], dumps
    the source of the page there, closes page and browser, and throws a new
    error that wraps the first: 'Failed to log agent in: ' and the text of
    the error. *)
Theorem run_reports_failure Br t err h html :
  browser_newPage Br t = Ok tt ->
  visit Br (t ++ [NewPage]) = (Throw err, h) ->
  let logged :=
    h ++ [Console_error (Thrown err);
          Console_error (Text "Unexpected error, dumping html source:");
          Console_error (Text "====================================")] in
  let dumped :=
    logged ++ [Content; Console_error (Text html);
               Console_error (Text "====================================")] in
  page_content Br logged = Ok html ->
  page_close Br dumped = Ok tt ->
  browser_close Br (dumped ++ [ClosePage]) = Ok tt ->
  run Br t
  = (Throw (Error ("Failed to log agent in: " +:+ exn_toString err)),
     dumped ++ [ClosePage; CloseBrowser]).
Proof.
  intros Hpage Hvisit logged dumped Hcontent Hclose Hquit.
  rewrite run_unfold, Hpage. unfold finally, try_catch. rewrite Hvisit.
  assert (Hdump : dump Br err h
    = (Throw (Error ("Failed to log agent in: " +:+ exn_toString err)),
       dumped)).
  { unfold dump, bind, emit, request, throw. rewrite <- !app_assoc.
    cbn [app]. fold logged. rewrite Hcontent. unfold dumped, logged.
    by rewrite <- !app_assoc. }
  rewrite Hdump, close_run, Hclose, Hquit. reflexivity.
Qed.

Lemma run_reports_failure_witness :
  run stuck []
  = (Throw (Error "Failed to log agent in: Error: Failed to make agent available"),
     ((snd (visit stuck ([] ++ [NewPage]))
         ++ [Console_error
               (Thrown (Error "Failed to make agent available"));
             Console_error (Text "Unexpected error, dumping html source:");
             Console_error (Text "====================================")])
        ++ [Content; Console_error (Text "<html></html>");
            Console_error (Text "====================================")])
       ++ [ClosePage; CloseBrowser]).
Proof.
  refine (run_reports_failure stuck []
            (Error "Failed to make agent available")
            (snd (visit stuck ([] ++ [NewPage]))) "<html></html>"
            _ _ _ _ _).
  - reflexivity.
  - vm_compute. reflexivity.
  - reflexivity.
  - reflexivity.
  - reflexivity.
Defined.

(** X28.  When the page was not redirected and shows a status, the agent is taken
    to be logged in: the login form is not touched, and the credentials are
    not typed; the rest of the visit is [makeAgentAvailable], which only
    looks at the page and clicks. *)
Theorem visit_skips_form Br t status t2 :
  page_goto Br t (CCP_URL Br) = Ok tt ->
  is_string (CCP_URL Br) (page_url Br (t ++ [Goto (CCP_URL Br)])) = true ->
  getAgentStatus Br false (t ++ [Goto (CCP_URL Br)]) = (Ok status, t2) ->
  nullish status = false ->
  visit Br t = makeAgentAvailable Br t2
  /\ exists work,
       snd (visit Br t) = t2 ++ work /\ Forall observation_or_click work.
Proof.
  intros Hgoto Hurl Hstatus Hnull.
  assert (Hvisit : visit Br t = makeAgentAvailable Br t2).
  { unfold visit, bind at 1, request at 1. rewrite Hgoto.
    unfold bind at 1, history at 1. rewrite Hurl.
    unfold bind at 1, bind at 1. rewrite Hstatus.
    unfold ret at 1. rewrite Hnull. reflexivity. }
  split; [exact Hvisit |]. rewrite Hvisit. apply makeAgentAvailable_does.
Qed.

Lemma visit_skips_form_witness :
  visit on_call []
  = makeAgentAvailable on_call
      (snd (getAgentStatus on_call false ([] ++ [Goto (CCP_URL on_call)])))
  /\ exists work,
       snd (visit on_call [])
       = snd (getAgentStatus on_call false ([] ++ [Goto (CCP_URL on_call)]))
           ++ work
       /\ Forall observation_or_click work.
Proof.
  refine (visit_skips_form on_call [] (VStr "Connected")
            (snd (getAgentStatus on_call false
                    ([] ++ [Goto (CCP_URL on_call)]))) _ _ _ _).
  - reflexivity.
  - reflexivity.
  - vm_compute. reflexivity.
  - reflexivity.
Defined.


End RunClaims.
